(** * Adaptive radix tree with learned linear nodes (ART.cpp / ART.hpp)

    A shallow embedding of the index core: tagged leaves, the five inner
    node variants, child dispatch, prefix handling, the optimistic lookup,
    point insert, point erase and the bulk loader, followed by the
    properties checked against the code.

    Conventions of the embedding.
    - A [Node*] is a value of type [Node]: [Null], a tagged leaf word, or an
      inner node carrying its header and its arrays.  Every non-null slot
      owns its subtree, so a write through a [Node**] becomes the
      replacement of one element of the parent's child array.
    - Machine integers are [Z] with the wrap-around written at the
      operations ([u8], [u16], [u32], [u64]).
    - A function that can run into undefined behaviour (a read outside a key
      buffer, a scan that leaves an array, a dereference of a non-node, the
      bare [throw]) returns [Fail]; recursion and the lookup loop are
      bounded by a fuel argument and return [Fail OutOfFuel] when the fuel is
      used up.
    - Doubles are IEEE binary64 values of [spec_float]. *)

From Stdlib Require Import ZArith List Lia Bool Arith.
From Stdlib Require Import Floats.SpecFloat.
Import ListNotations.
Open Scope Z_scope.

(** ** Results *)

Inductive error : Set :=
| OutOfBounds   (* read or write outside a buffer *)
| NullDeref     (* a field access through NULL or through a leaf word *)
| Unreachable   (* the bare [throw] after a switch *)
| Undefined     (* any other undefined operation *)
| OutOfFuel.

Inductive result (A : Type) : Type :=
| Ok (a : A)
| Fail (e : error).
Arguments Ok {A} a.
Arguments Fail {A} e.

Definition bind {A B : Type} (m : result A) (f : A -> result B) : result B :=
  match m with
  | Ok a => f a
  | Fail e => Fail e
  end.

Notation "x <- m ;; k" := (bind m (fun x => k))
  (at level 61, m at next level, right associativity).

(** ** Machine words *)

Definition u8 (x : Z) : Z := x mod 256.
Definition u16 (x : Z) : Z := x mod 65536.
Definition u32 (x : Z) : Z := x mod 2 ^ 32.
Definition u64 (x : Z) : Z := x mod 2 ^ 64.

(** ** Constants (ART.hpp) *)

Definition maxPrefixLength : Z := 9.
Definition NODE4_SIZE : Z := 4.
Definition NODE48_SIZE : Z := 24.
Definition LINEAR_SIZE : Z := 10.
Definition emptyMarker : Z := NODE48_SIZE.

(** ** Arrays *)

Definition zseq (n : nat) : list Z := map Z.of_nat (seq 0 n).

Definition at_ {A : Type} (d : A) (l : list A) (i : Z) : A := nth (Z.to_nat i) l d.

(** [l[i] = v]; a write outside the array is dropped. *)
Definition upd {A : Type} (d : A) (l : list A) (i : Z) (v : A) : list A :=
  map (fun j => if j =? i then v else at_ d l j) (zseq (length l)).

(** [memcpy(dst + doff, src + soff, n)] on arrays of elements, also used for
    [memmove] with [src = dst]: the copy reads the old contents. *)
Definition blit {A : Type} (d : A) (src : list A) (soff : Z)
    (dst : list A) (doff n : Z) : list A :=
  map (fun j => if (doff <=? j) && (j <? doff + n)
                then at_ d src (soff + (j - doff))
                else at_ d dst j)
      (zseq (length dst)).

(** First index [i] in [lo, lo + n) with [p i]. *)
Fixpoint first_index (p : Z -> bool) (lo : Z) (n : nat) : option Z :=
  match n with
  | O => None
  | S n' => if p lo then Some lo else first_index p (lo + 1) n'
  end.

(** ** Nodes *)

Record Header : Type := mkHeader {
  prefixLength : Z;       (* uint32_t *)
  count : Z;              (* uint16_t *)
  prefix : list Z         (* uint8_t prefix[maxPrefixLength] *)
}.

#[local] Set Warnings "-register-all".
Inductive Node : Type :=
| Null
| Leaf (word : Z)        (* a pseudo-leaf: the tagged word (tid<<1)|1 *)
| Node4 (h : Header) (key : list Z) (child : list Node)
| Node16 (h : Header) (key : list Z) (child : list Node)
| Node48 (h : Header) (childIndex : list Z) (child : list Node)
| Node256 (h : Header) (child : list Node)
| NodeLinear (h : Header) (child : list Node) (a b : spec_float).

(** The constructor [Node(type)] leaves [prefix] uninitialised; no code path
    reads a prefix byte before writing it, so fresh bytes are taken as 0. *)
Definition newHeader : Header := mkHeader 0 0 (repeat 0 9).

Definition newNode4 : Node := Node4 newHeader (repeat 0 4) (repeat Null 4).
Definition newNode16 : Node := Node16 newHeader (repeat 0 16) (repeat Null 16).
Definition newNode48 : Node :=
  Node48 newHeader (repeat emptyMarker 256) (repeat Null (Z.to_nat NODE48_SIZE)).
Definition newNode256 : Node := Node256 newHeader (repeat Null 256).
Definition newNodeLinear : Node :=
  NodeLinear newHeader (repeat Null (Z.to_nat LINEAR_SIZE)) (S754_zero false) (S754_zero false).

(** ** Leaves (makeLeaf, getLeafValue, isLeaf) *)

Definition makeLeaf (tid : Z) : Node := Leaf (u64 (Z.lor (Z.shiftl tid 1) 1)).

Definition isLeaf (node : Node) : bool :=
  match node with
  | Leaf _ => true
  | _ => false
  end.

Definition isNull (node : Node) : bool :=
  match node with
  | Null => true
  | _ => false
  end.

(** [getLeafValue] shifts whatever word it is given; the callers pass
    leaves only, and a non-leaf argument is reported as a bad dereference. *)
Definition getLeafValue (node : Node) : result Z :=
  match node with
  | Leaf w => Ok (Z.shiftr w 1)
  | _ => Fail NullDeref
  end.

Definition flipSign (keyByte : Z) : Z := Z.lxor keyByte 128.

(** ** Keys *)

(** A read [key[i]] from a key buffer of known extent. *)
Definition keyAt (key : list Z) (i : Z) : result Z :=
  if (0 <=? i) && (i <? Z.of_nat (length key))
  then Ok (at_ 0 key i)
  else Fail OutOfBounds.

(** ** SSE2 lanes used by Node16 *)

Definition int8 (x : Z) : Z := if x <? 128 then x else x - 256.

Definition set1_epi8 (x : Z) : list Z := repeat x 16.

Definition cmpeq_epi8 (a b : list Z) : list bool :=
  map (fun i => at_ 0 a i =? at_ 0 b i) (zseq 16).

Definition cmplt_epi8 (a b : list Z) : list bool :=
  map (fun i => int8 (at_ 0 a i) <? int8 (at_ 0 b i)) (zseq 16).

Fixpoint movemask_epi8 (lanes : list bool) : Z :=
  match lanes with
  | [] => 0
  | b :: r => Z.b2z b + 2 * movemask_epi8 r
  end.

(** Count trailing zeros of a 16-bit word; undefined at 0, where the
    callers do not use it. *)
Definition ctz (x : Z) : Z :=
  match first_index (fun i => Z.testbit x i) 0 16 with
  | Some i => i
  | None => 16
  end.

(** The branch of [ctz] that is compiled when [__GNUC__] is not defined
    (adapted from Hacker's Delight), on a [uint16_t]. *)
Definition ctz_portable (x : Z) : Z :=
  let n := 1 in
  let '(n, x) := if Z.land x 255 =? 0 then (n + 8, Z.shiftr x 8) else (n, x) in
  let '(n, x) := if Z.land x 15 =? 0 then (n + 4, Z.shiftr x 4) else (n, x) in
  let '(n, x) := if Z.land x 3 =? 0 then (n + 2, Z.shiftr x 2) else (n, x) in
  u32 (n - Z.land x 1).

(** ** findChild *)

Definition header (n : Node) : result Header :=
  match n with
  | Node4 h _ _ | Node16 h _ _ | Node48 h _ _ | Node256 h _
  | NodeLinear h _ _ _ => Ok h
  | _ => Fail NullDeref
  end.

Definition children (n : Node) : list Node :=
  match n with
  | Node4 _ _ c | Node16 _ _ c | Node48 _ _ c | Node256 _ c
  | NodeLinear _ c _ _ => c
  | _ => []
  end.

(** The child stored in slot [i] of the node's child array. *)
Definition slotChild (n : Node) (i : Z) : Node := at_ Null (children n) i.

(** A write [*slot = c] through a pointer into the node's child array. *)
Definition setSlot (n : Node) (i : Z) (c : Node) : Node :=
  match n with
  | Node4 h k ch => Node4 h k (upd Null ch i c)
  | Node16 h k ch => Node16 h k (upd Null ch i c)
  | Node48 h ci ch => Node48 h ci (upd Null ch i c)
  | Node256 h ch => Node256 h (upd Null ch i c)
  | NodeLinear h ch a b => NodeLinear h (upd Null ch i c) a b
  | _ => n
  end.

(** Doubles: [prec = 53], [emax = 1024]. *)
Definition dmul : spec_float -> spec_float -> spec_float := SFmul 53 1024.
Definition dadd : spec_float -> spec_float -> spec_float := SFadd 53 1024.
Definition ddiv : spec_float -> spec_float -> spec_float := SFdiv 53 1024.

(** Conversion of an [int] to [double] (exact on 32-bit values). *)
Definition double_of_int (z : Z) : spec_float := binary_normalize 53 1024 z 0 false.

(** [(int)x]: truncation towards zero; undefined for NaN, the infinities
    and values outside the range of [int]. *)
Definition int_of_double (x : spec_float) : result Z :=
  match x with
  | S754_zero _ => Ok 0
  | S754_finite s m e =>
      let mag := if 0 <=? e then Z.pos m * 2 ^ e else Z.pos m / 2 ^ (- e) in
      let v := if s then - mag else mag in
      if (- 2 ^ 31 <=? v) && (v <? 2 ^ 31) then Ok v else Fail Undefined
  | _ => Fail Undefined
  end.

(** [(int)(a*keyByte+b)] clamped to the bucket range, as written in both
    [findChild] and [predict]. *)
Definition bucketOf (a b : spec_float) (keyByte : Z) : result Z :=
  bucket <- int_of_double (dadd (dmul a (double_of_int keyByte)) b) ;;
  Ok (if LINEAR_SIZE <=? bucket then LINEAR_SIZE - 1
      else if bucket <? 0 then 0 else bucket).

(** [findChild] returns the address of a slot of the node, or the address
    of the global [nullNode]; here [Some i] is slot [i] of the child array
    and [None] is the sentinel. *)
Definition findChild (n : Node) (keyByte : Z) : result (option Z) :=
  match n with
  | Node4 h key _ =>
      Ok (first_index (fun i => at_ 0 key i =? keyByte) 0 (Z.to_nat (count h)))
  | Node16 h key _ =>
      let cmp := cmpeq_epi8 (set1_epi8 (flipSign keyByte)) key in
      let bitfield := Z.land (movemask_epi8 cmp) (Z.shiftl 1 (count h) - 1) in
      Ok (if bitfield =? 0 then None else Some (ctz bitfield))
  | Node48 _ childIndex _ =>
      Ok (if at_ 0 childIndex keyByte =? emptyMarker then None
          else Some (at_ 0 childIndex keyByte))
  | Node256 _ _ => Ok (Some keyByte)
  | NodeLinear _ _ a b => bucket <- bucketOf a b keyByte ;; Ok (Some bucket)
  | _ => Fail NullDeref
  end.

(** The value [*findChild(n, keyByte)]. *)
Definition derefSlot (n : Node) (slot : option Z) : Node :=
  match slot with
  | Some i => slotChild n i
  | None => Null
  end.

(** ** minimum *)

Fixpoint minimum (fuel : nat) (node : Node) : result Node :=
  match node with
  | Null => Ok Null
  | Leaf _ => Ok node
  | NodeLinear _ _ _ _ => Fail Unreachable
  | _ =>
      match fuel with
      | O => Fail OutOfFuel
      | S fuel' =>
          match node with
          | Node4 _ _ child => minimum fuel' (at_ Null child 0)
          | Node16 _ _ child => minimum fuel' (at_ Null child 0)
          | Node48 _ childIndex child =>
              match first_index (fun pos => negb (at_ 0 childIndex pos =? emptyMarker))
                      0 256 with
              | Some pos => minimum fuel' (at_ Null child (at_ 0 childIndex pos))
              | None => Fail OutOfBounds
              end
          | Node256 _ child =>
              match first_index (fun pos => negb (isNull (at_ Null child pos))) 0 256 with
              | Some pos => minimum fuel' (at_ Null child pos)
              | None => Fail OutOfBounds
              end
          | _ => Fail Unreachable
          end
      end
  end.

(** ** maximum *)

(** Last index [i] in (hi - n, hi] with [p i], scanning downwards. *)
Fixpoint last_index (p : Z -> bool) (hi : Z) (n : nat) : option Z :=
  match n with
  | O => None
  | S n' => if p hi then Some hi else last_index p (hi - 1) n'
  end.

(** A read [child[i]] from a child array of known extent. *)
Definition childArrayAt (child : list Node) (i : Z) : result Node :=
  if (0 <=? i) && (i <? Z.of_nat (length child))
  then Ok (at_ Null child i)
  else Fail OutOfBounds.

(** [maximum] reads [child[count-1]] of a Node4 or Node16, and scans a
    Node48 or Node256 downwards from byte 255; a scan that finds nothing
    leaves the array. *)
Fixpoint maximum (fuel : nat) (node : Node) : result Node :=
  match node with
  | Null => Ok Null
  | Leaf _ => Ok node
  | NodeLinear _ _ _ _ => Fail Unreachable
  | _ =>
      match fuel with
      | O => Fail OutOfFuel
      | S fuel' =>
          match node with
          | Node4 h _ child => c <- childArrayAt child (count h - 1) ;; maximum fuel' c
          | Node16 h _ child => c <- childArrayAt child (count h - 1) ;; maximum fuel' c
          | Node48 _ childIndex child =>
              match last_index (fun pos => negb (at_ 0 childIndex pos =? emptyMarker))
                      255 256 with
              | Some pos => maximum fuel' (at_ Null child (at_ 0 childIndex pos))
              | None => Fail OutOfBounds
              end
          | Node256 _ child =>
              match last_index (fun pos => negb (isNull (at_ Null child pos))) 255 256 with
              | Some pos => maximum fuel' (at_ Null child pos)
              | None => Fail OutOfBounds
              end
          | _ => Fail Unreachable
          end
      end
  end.

(** ** Code that loads keys

    [loadKey] is "database specific" in the source and an external
    collaborator in the specification, so the functions that call it are
    written over an arbitrary key loader; the loader of the repository is
    [loadKey] below. *)

Section KeyLoader.

Variable loadKey : Z -> list Z.

(** [uint8_t buf[maxKeyLength]; loadKey(tid, buf);]  A buffer shorter than
    the key is overrun; in a longer one the tail stays uninitialised, so
    only the bytes written can be read. *)
Definition loadKeyBuf (maxKeyLength : Z) (tid : Z) : result (list Z) :=
  if maxKeyLength <? Z.of_nat (length (loadKey tid)) then Fail OutOfBounds
  else Ok (loadKey tid).

(** ** leafMatches *)

(** [for (i = from; i < keyLength; i++) if (leafKey[i] != key[i]) return false;]
    run for [n] iterations. *)
Fixpoint keysEqualFrom (leafKey key : list Z) (i : Z) (n : nat) : result bool :=
  match n with
  | O => Ok true
  | S n' =>
      x <- keyAt leafKey i ;;
      y <- keyAt key i ;;
      if x =? y then keysEqualFrom leafKey key (i + 1) n' else Ok false
  end.

Definition leafMatches (leaf : Node) (key : list Z) (keyLength depth maxKeyLength : Z)
    : result bool :=
  if depth =? keyLength then Ok true
  else
    tid <- getLeafValue leaf ;;
    leafKey <- loadKeyBuf maxKeyLength tid ;;
    keysEqualFrom leafKey key depth (Z.to_nat (keyLength - depth)).

(** ** prefixMismatch *)

(** [for (; pos < bound; pos++) if (key[depth+pos] != ref[off+pos]) return pos;]
    with [n] iterations left; [inl pos] is the early return, [inr pos] the
    position at which the loop ran out. *)
Fixpoint mismatchLoop (key : list Z) (depth : Z) (ref : Z -> result Z) (pos : Z) (n : nat)
    : result (Z + Z) :=
  match n with
  | O => Ok (inr pos)
  | S n' =>
      x <- keyAt key (u32 (depth + pos)) ;;
      y <- ref pos ;;
      if x =? y then mismatchLoop key depth ref (pos + 1) n' else Ok (inl pos)
  end.

Definition prefixMismatch (fuel : nat) (node : Node) (key : list Z) (depth maxKeyLength : Z)
    : result Z :=
  h <- header node ;;
  if maxPrefixLength <? prefixLength h then
    r <- mismatchLoop key depth (fun pos => Ok (at_ 0 (prefix h) pos)) 0
           (Z.to_nat maxPrefixLength) ;;
    match r with
    | inl pos => Ok pos
    | inr pos =>
        m <- minimum fuel node ;;
        tid <- getLeafValue m ;;
        minKey <- loadKeyBuf maxKeyLength tid ;;
        r' <- mismatchLoop key depth (fun pos => keyAt minKey (u32 (depth + pos))) pos
                (Z.to_nat (prefixLength h - pos)) ;;
        match r' with
        | inl pos' => Ok pos'
        | inr pos' => Ok pos'
        end
    end
  else
    r <- mismatchLoop key depth (fun pos => Ok (at_ 0 (prefix h) pos)) 0
           (Z.to_nat (prefixLength h)) ;;
    match r with
    | inl pos => Ok pos
    | inr pos => Ok pos
    end.

(** ** lookup (optimistic version) *)

(** The leaf case of the loop body. *)
Definition lookupLeaf (node : Node) (key : list Z) (keyLength depth maxKeyLength : Z)
    (skippedPrefix : bool) : result Node :=
  if negb skippedPrefix && (depth =? keyLength) then Ok node
  else if negb (depth =? keyLength) then
    tid <- getLeafValue node ;;
    leafKey <- loadKeyBuf maxKeyLength tid ;;
    let from := if skippedPrefix then 0 else depth in
    same <- keysEqualFrom leafKey key from (Z.to_nat (keyLength - from)) ;;
    Ok (if same then node else Null)
  else Ok node.

(** What one pass through the [while] body does at an inner node: it
    returns, or goes on with a new node, depth and flag. *)
Inductive lookupNext : Type :=
| Return (r : Node)
| Continue (node : Node) (depth : Z) (skippedPrefix : bool).

Definition isLinear (n : Node) : bool :=
  match n with
  | NodeLinear _ _ _ _ => true
  | _ => false
  end.

Definition lookupInner (node : Node) (key : list Z) (depth : Z) (skippedPrefix : bool)
    : result lookupNext :=
  h <- header node ;;
  after <-
    (if prefixLength h =? 0 then Ok (Some (depth, skippedPrefix))
     else if prefixLength h <? maxPrefixLength then
       r <- mismatchLoop key depth (fun pos => Ok (at_ 0 (prefix h) pos)) 0
              (Z.to_nat (prefixLength h)) ;;
       match r with
       | inl _ => Ok None
       | inr _ => Ok (Some (u32 (depth + prefixLength h), skippedPrefix))
       end
     else Ok (Some (u32 (depth + prefixLength h), true))) ;;
  match after with
  | None => Ok (Return Null)
  | Some (depth', skipped') =>
      keyByte <- keyAt key depth' ;;
      slot <- findChild node keyByte ;;
      Ok (Continue (derefSlot node slot)
                   (if isLinear node then depth' else u32 (depth' + 1))
                   skipped')
  end.

Fixpoint lookupLoop (fuel : nat) (node : Node) (key : list Z)
    (keyLength depth maxKeyLength : Z) (skippedPrefix : bool) : result Node :=
  match node with
  | Null => Ok Null
  | Leaf _ => lookupLeaf node key keyLength depth maxKeyLength skippedPrefix
  | _ =>
      match fuel with
      | O => Fail OutOfFuel
      | S fuel' =>
          next <- lookupInner node key depth skippedPrefix ;;
          match next with
          | Return r => Ok r
          | Continue node' depth' skipped' =>
              lookupLoop fuel' node' key keyLength depth' maxKeyLength skipped'
          end
      end
  end.

Definition lookup (fuel : nat) (node : Node) (key : list Z)
    (keyLength depth maxKeyLength : Z) : result Node :=
  lookupLoop fuel node key keyLength depth maxKeyLength false.

(** ** lookupPessimistic

    The alternative lookup: it compares every prefix with [prefixMismatch]
    and every leaf with [leafMatches], and it adds one to the depth after
    every node, a NodeLinear included. *)
Fixpoint lookupPessimistic (fuel : nat) (node : Node) (key : list Z)
    (keyLength depth maxKeyLength : Z) : result Node :=
  match node with
  | Null => Ok Null
  | Leaf _ =>
      m <- leafMatches node key keyLength depth maxKeyLength ;;
      Ok (if m then node else Null)
  | _ =>
      match fuel with
      | O => Fail OutOfFuel
      | S fuel' =>
          h <- header node ;;
          mismatchPos <- prefixMismatch fuel' node key depth maxKeyLength ;;
          if negb (mismatchPos =? prefixLength h) then Ok Null
          else
            let depth' := u32 (depth + prefixLength h) in
            keyByte <- keyAt key depth' ;;
            slot <- findChild node keyByte ;;
            lookupPessimistic fuel' (derefSlot node slot) key keyLength
                              (u32 (depth' + 1)) maxKeyLength
      end
  end.

(** ** Point insert *)

Definition setHeader (n : Node) (h : Header) : Node :=
  match n with
  | Node4 _ k c => Node4 h k c
  | Node16 _ k c => Node16 h k c
  | Node48 _ ci c => Node48 h ci c
  | Node256 _ c => Node256 h c
  | NodeLinear _ c a b => NodeLinear h c a b
  | _ => n
  end.

(** [copyPrefix(src, dst)] on headers; [dst] keeps its count. *)
Definition copyPrefix (src dst : Header) : Header :=
  mkHeader (prefixLength src) (count dst)
           (blit 0 (prefix src) 0 (prefix dst) 0 (Z.min (prefixLength src) maxPrefixLength)).

Definition insertNode256 (h : Header) (child : list Node) (keyByte : Z) (c : Node) : Node :=
  Node256 (mkHeader (prefixLength h) (u16 (count h + 1)) (prefix h))
          (upd Null child keyByte c).

(** The grow loop of [insertNode48]: for every byte with an index, copy the
    child into the 256-way array. *)
Definition grow48 (childIndex : list Z) (child : list Node) : list Node :=
  map (fun i => if at_ 0 childIndex i =? emptyMarker then Null
                else at_ Null child (at_ 0 childIndex i))
      (zseq 256).

Definition insertNode48 (h : Header) (childIndex : list Z) (child : list Node)
    (keyByte : Z) (c : Node) : result Node :=
  if count h <? NODE48_SIZE then
    pos <-
      (if isNull (at_ Null child (count h)) then Ok (count h)
       else match first_index (fun p => isNull (at_ Null child p)) 0
                    (length child) with
            | Some p => Ok p
            | None => Fail OutOfBounds
            end) ;;
    Ok (Node48 (mkHeader (prefixLength h) (u16 (count h + 1)) (prefix h))
               (upd 0 childIndex keyByte pos)
               (upd Null child pos c))
  else
    let h' := copyPrefix h (mkHeader 0 (count h) (repeat 0 9)) in
    Ok (insertNode256 h' (grow48 childIndex child) keyByte c).

(** The grow loop of [insertNode16]:
    [newNode->childIndex[flipSign(node->key[i])] = i] for [i < count]. *)
Fixpoint grow16 (key : list Z) (childIndex : list Z) (i : Z) (n : nat) : list Z :=
  match n with
  | O => childIndex
  | S n' => grow16 key (upd 0 childIndex (flipSign (at_ 0 key i)) i) (i + 1) n'
  end.

Definition insertNode16 (h : Header) (key : list Z) (child : list Node)
    (keyByte : Z) (c : Node) : result Node :=
  if count h <? 16 then
    let keyByteFlipped := flipSign keyByte in
    let cmp := cmplt_epi8 (set1_epi8 keyByteFlipped) key in
    let bitfield := Z.land (movemask_epi8 cmp) (Z.shiftr 65535 (16 - count h)) in
    let pos := if bitfield =? 0 then count h else ctz bitfield in
    let key1 := blit 0 key pos key (pos + 1) (count h - pos) in
    let child1 := blit Null child pos child (pos + 1) (count h - pos) in
    Ok (Node16 (mkHeader (prefixLength h) (u16 (count h + 1)) (prefix h))
               (upd 0 key1 pos keyByteFlipped)
               (upd Null child1 pos c))
  else
    let child' := blit Null child 0 (repeat Null (Z.to_nat NODE48_SIZE)) 0 (count h) in
    let childIndex' := grow16 key (repeat emptyMarker 256) 0 (Z.to_nat (count h)) in
    let h' := copyPrefix h (mkHeader 0 (count h) (repeat 0 9)) in
    insertNode48 h' childIndex' child' keyByte c.

(** [for (pos=0; (pos<count) && (key[pos]<keyByte); pos++);] *)
Definition insertPos4 (key : list Z) (cnt keyByte : Z) : Z :=
  match first_index (fun p => negb (at_ 0 key p <? keyByte)) 0 (Z.to_nat cnt) with
  | Some p => p
  | None => cnt
  end.

Definition insertNode4 (h : Header) (key : list Z) (child : list Node)
    (keyByte : Z) (c : Node) : result Node :=
  if count h <? NODE4_SIZE then
    let pos := insertPos4 key (count h) keyByte in
    let key1 := blit 0 key pos key (pos + 1) (count h - pos) in
    let child1 := blit Null child pos child (pos + 1) (count h - pos) in
    Ok (Node4 (mkHeader (prefixLength h) (u16 (count h + 1)) (prefix h))
              (upd 0 key1 pos keyByte)
              (upd Null child1 pos c))
  else
    let key' := blit 0 (map flipSign key) 0 (repeat 0 16) 0 NODE4_SIZE in
    let child' := blit Null child 0 (repeat Null 16) 0 (count h) in
    let h' := copyPrefix h (mkHeader 0 NODE4_SIZE (repeat 0 9)) in
    insertNode16 h' key' child' keyByte c.

(** [while (existingKey[depth+l] == key[depth+l]) l++;]  The loop has no
    bound of its own: every pass reads one byte further in both buffers, so
    [n] passes are enough when [n] exceeds the extent of a buffer. *)
Fixpoint commonPrefixLoop (existingKey key : list Z) (depth l : Z) (n : nat) : result Z :=
  match n with
  | O => Fail OutOfBounds
  | S n' =>
      x <- keyAt existingKey (u32 (depth + l)) ;;
      y <- keyAt key (u32 (depth + l)) ;;
      if x =? y then commonPrefixLoop existingKey key depth (u32 (l + 1)) n'
      else Ok l
  end.

(** The switch at the end of [insert]; it has no case for NodeLinear. *)
Definition insertIntoNode (node : Node) (keyByte : Z) (c : Node) : result Node :=
  match node with
  | Node4 h k ch => insertNode4 h k ch keyByte c
  | Node16 h k ch => insertNode16 h k ch keyByte c
  | Node48 h ci ch => insertNode48 h ci ch keyByte c
  | Node256 h ch => Ok (insertNode256 h ch keyByte c)
  | NodeLinear _ _ _ _ => Ok node
  | _ => Fail NullDeref
  end.

(** [insertNode4] on a node known to be a Node4 (the fresh node of a split). *)
Definition insertNode4' (node : Node) (keyByte : Z) (c : Node) : result Node :=
  match node with
  | Node4 h k ch => insertNode4 h k ch keyByte c
  | _ => Fail NullDeref
  end.

(** [insert] returns the new contents of [*nodeRef].  In the split case the
    source stores the old node in the new Node4 and shortens its prefix
    afterwards through the alias; the byte [node->prefix[mismatchPos]] is
    read before that, so the shortened node is built first here. *)
Definition insertLeaf (node : Node) (key : list Z) (depth value maxKeyLength : Z)
    : result Node :=
  tid <- getLeafValue node ;;
  existingKey <- loadKeyBuf maxKeyLength tid ;;
  newPrefixLength <-
    commonPrefixLoop existingKey key depth 0 (S (length existingKey)) ;;
  let newNode :=
    Node4 (mkHeader newPrefixLength 0
             (blit 0 key depth (repeat 0 9) 0
                   (Z.min newPrefixLength maxPrefixLength)))
          (repeat 0 4) (repeat Null 4) in
  x <- keyAt existingKey (u32 (depth + newPrefixLength)) ;;
  n1 <- insertNode4' newNode x node ;;
  y <- keyAt key (u32 (depth + newPrefixLength)) ;;
  insertNode4' n1 y (makeLeaf value).

(** The prefix split of [insert] at mismatch position [mismatchPos]. *)
Definition insertSplit (fuel : nat) (node : Node) (h : Header) (key : list Z)
    (depth value maxKeyLength mismatchPos : Z) : result Node :=
  let newNode :=
    Node4 (mkHeader mismatchPos 0
             (blit 0 (prefix h) 0 (repeat 0 9) 0
                   (Z.min mismatchPos maxPrefixLength)))
          (repeat 0 4) (repeat Null 4) in
  let len' := u32 (prefixLength h - (mismatchPos + 1)) in
  n1 <-
    (if prefixLength h <? maxPrefixLength then
       let node' :=
         setHeader node
           (mkHeader len' (count h)
              (blit 0 (prefix h) (mismatchPos + 1) (prefix h) 0
                    (Z.min len' maxPrefixLength))) in
       insertNode4' newNode (at_ 0 (prefix h) mismatchPos) node'
     else
       m <- minimum fuel node ;;
       tid <- getLeafValue m ;;
       minKey <- loadKeyBuf maxKeyLength tid ;;
       b <- keyAt minKey (u32 (depth + mismatchPos)) ;;
       let node' :=
         setHeader node
           (mkHeader len' (count h)
              (blit 0 minKey (depth + mismatchPos + 1) (prefix h) 0
                    (Z.min len' maxPrefixLength))) in
       insertNode4' newNode b node') ;;
  y <- keyAt key (u32 (depth + mismatchPos)) ;;
  insertNode4' n1 y (makeLeaf value).

Fixpoint insert (fuel : nat) (node : Node) (key : list Z) (depth value maxKeyLength : Z)
    : result Node :=
  match node with
  | Null => Ok (makeLeaf value)
  | Leaf _ => insertLeaf node key depth value maxKeyLength
  | _ =>
      match fuel with
      | O => Fail OutOfFuel
      | S fuel' =>
          h <- header node ;;
          mismatchPos <-
            (if prefixLength h =? 0 then Ok 0
             else prefixMismatch fuel' node key depth maxKeyLength) ;;
          if negb (prefixLength h =? 0) && negb (mismatchPos =? prefixLength h) then
            insertSplit fuel' node h key depth value maxKeyLength mismatchPos
          else
            let depth' := u32 (depth + prefixLength h) in
            keyByte <- keyAt key depth' ;;
            slot <- findChild node keyByte ;;
            if isNull (derefSlot node slot) then
              insertIntoNode node keyByte (makeLeaf value)
            else
              r <- insert fuel' (derefSlot node slot) key (u32 (depth' + 1)) value
                     maxKeyLength ;;
              Ok (match slot with
                  | Some i => setSlot node i r
                  | None => node
                  end)
      end
  end.

(** ** Point erase *)

(** Removal of slot [pos] from the parallel sorted arrays of a Node4 or
    Node16: the two [memmove]s. *)
Definition removeAt {A : Type} (d : A) (l : list A) (pos cnt : Z) : list A :=
  blit d l (pos + 1) l pos (cnt - pos - 1).

(** The prefix concatenation of [eraseNode4] for an inner surviving child
    with header [ch]; [k0] is [node->key[0]] after the removal. *)
Definition concatPrefix (h ch : Header) (k0 : Z) : Header :=
  let l1 := prefixLength h in
  let p1 := if l1 <? maxPrefixLength then upd 0 (prefix h) l1 k0 else prefix h in
  let l1a := if l1 <? maxPrefixLength then l1 + 1 else l1 in
  let l2 := Z.min (prefixLength ch) (maxPrefixLength - l1a) in
  let p2 := if l1a <? maxPrefixLength then blit 0 (prefix ch) 0 p1 l1a l2 else p1 in
  let l1b := if l1a <? maxPrefixLength then l1a + l2 else l1a in
  mkHeader (u32 (prefixLength ch + (prefixLength h + 1))) (count ch)
           (blit 0 p2 0 (prefix ch) 0 (Z.min l1b maxPrefixLength)).

Definition eraseNode4 (h : Header) (key : list Z) (child : list Node) (pos : Z)
    : result Node :=
  let key1 := removeAt 0 key pos (count h) in
  let child1 := removeAt Null child pos (count h) in
  let cnt := u16 (count h - 1) in
  if cnt =? 1 then
    let c := at_ Null child1 0 in
    match c with
    | Leaf _ => Ok c
    | Null => Fail NullDeref
    | _ =>
        ch <- header c ;;
        Ok (setHeader c (concatPrefix h ch (at_ 0 key1 0)))
    end
  else Ok (Node4 (mkHeader (prefixLength h) cnt (prefix h)) key1 child1).

Definition eraseNode16 (h : Header) (key : list Z) (child : list Node) (pos : Z)
    : result Node :=
  let key1 := removeAt 0 key pos (count h) in
  let child1 := removeAt Null child pos (count h) in
  let cnt := u16 (count h - 1) in
  if cnt =? NODE4_SIZE - 1 then
    Ok (Node4 (copyPrefix h (mkHeader 0 cnt (repeat 0 9)))
              (blit 0 (map flipSign key1) 0 (repeat 0 4) 0 (NODE4_SIZE - 1))
              (blit Null child1 0 (repeat Null 4) 0 NODE4_SIZE))
  else Ok (Node16 (mkHeader (prefixLength h) cnt (prefix h)) key1 child1).

(** The shrink loop of [eraseNode48] over the bytes [b, b + n): the new
    Node16 is filled in ascending byte order; a 17th entry would be written
    past its arrays. *)
Fixpoint shrink48 (childIndex : list Z) (child : list Node) (b : Z) (n : nat)
    (cnt : Z) (key' : list Z) (child' : list Node) : result (Z * list Z * list Node) :=
  match n with
  | O => Ok (cnt, key', child')
  | S n' =>
      if at_ 0 childIndex b =? emptyMarker then
        shrink48 childIndex child (b + 1) n' cnt key' child'
      else if cnt <? 16 then
        shrink48 childIndex child (b + 1) n' (cnt + 1)
                 (upd 0 key' cnt (flipSign b))
                 (upd Null child' cnt (at_ Null child (at_ 0 childIndex b)))
      else Fail OutOfBounds
  end.

Definition eraseNode48 (h : Header) (childIndex : list Z) (child : list Node)
    (keyByte : Z) : result Node :=
  let child1 := upd Null child (at_ 0 childIndex keyByte) Null in
  let childIndex1 := upd 0 childIndex keyByte emptyMarker in
  let cnt := u16 (count h - 1) in
  if cnt =? 12 then
    r <- shrink48 childIndex1 child1 0 256 0 (repeat 0 16) (repeat Null 16) ;;
    let '(cnt', key', child') := r in
    Ok (Node16 (copyPrefix h (mkHeader 0 cnt' (repeat 0 9))) key' child')
  else Ok (Node48 (mkHeader (prefixLength h) cnt (prefix h)) childIndex1 child1).

(** The shrink loop of [eraseNode256]; the new Node48 has [NODE48_SIZE]
    child slots. *)
Fixpoint shrink256 (child : list Node) (b : Z) (n : nat)
    (cnt : Z) (childIndex' : list Z) (child' : list Node)
    : result (Z * list Z * list Node) :=
  match n with
  | O => Ok (cnt, childIndex', child')
  | S n' =>
      if isNull (at_ Null child b) then
        shrink256 child (b + 1) n' cnt childIndex' child'
      else if cnt <? NODE48_SIZE then
        shrink256 child (b + 1) n' (cnt + 1)
                  (upd 0 childIndex' b cnt)
                  (upd Null child' cnt (at_ Null child b))
      else Fail OutOfBounds
  end.

Definition eraseNode256 (h : Header) (child : list Node) (keyByte : Z) : result Node :=
  let child1 := upd Null child keyByte Null in
  let cnt := u16 (count h - 1) in
  if cnt =? NODE48_SIZE * 3 / 4 then
    r <- shrink256 child1 0 256 0 (repeat emptyMarker 256)
           (repeat Null (Z.to_nat NODE48_SIZE)) ;;
    let '(cnt', childIndex', child') := r in
    Ok (Node48 (copyPrefix h (mkHeader 0 cnt' (repeat 0 9))) childIndex' child')
  else Ok (Node256 (mkHeader (prefixLength h) cnt (prefix h)) child1).

(** The switch of [erase] on the node type; it has no case for NodeLinear.
    [pos] is the slot found by [findChild] ([leafPlace - node->child]). *)
Definition eraseFromNode (node : Node) (pos keyByte : Z) : result Node :=
  match node with
  | Node4 h k ch => eraseNode4 h k ch pos
  | Node16 h k ch => eraseNode16 h k ch pos
  | Node48 h ci ch => eraseNode48 h ci ch keyByte
  | Node256 h ch => eraseNode256 h ch keyByte
  | NodeLinear _ _ _ _ => Ok node
  | _ => Fail NullDeref
  end.

(** [erase] returns the new contents of [*nodeRef]. *)
Fixpoint erase (fuel : nat) (node : Node) (key : list Z)
    (keyLength depth maxKeyLength : Z) : result Node :=
  match node with
  | Null => Ok Null
  | Leaf _ =>
      m <- leafMatches node key keyLength depth maxKeyLength ;;
      Ok (if m then Null else node)
  | _ =>
      match fuel with
      | O => Fail OutOfFuel
      | S fuel' =>
          h <- header node ;;
          mismatchPos <-
            (if prefixLength h =? 0 then Ok 0
             else prefixMismatch fuel' node key depth maxKeyLength) ;;
          if negb (prefixLength h =? 0) && negb (mismatchPos =? prefixLength h) then
            Ok node
          else
            let depth' := u32 (depth + prefixLength h) in
            keyByte <- keyAt key depth' ;;
            slot <- findChild node keyByte ;;
            let c := derefSlot node slot in
            found <-
              (if isLeaf c then leafMatches c key keyLength depth' maxKeyLength
               else Ok false) ;;
            match slot with
            | Some i =>
                if found then eraseFromNode node i keyByte
                else
                  r <- erase fuel' c key keyLength (u32 (depth' + 1)) maxKeyLength ;;
                  Ok (setSlot node i r)
            | None => Ok node
            end
      end
  end.

End KeyLoader.

(** [loadKey] of the repository: the eight bytes of [bswap64(tid)] as they
    lie in memory on a little-endian machine, that is [tid] in big-endian
    order. *)
Definition loadKey (tid : Z) : list Z :=
  map (fun i => Z.shiftr (u64 tid) (8 * (7 - i)) mod 256) (zseq 8).

(** ** Bulk loader *)

(** [int] arithmetic: a result outside the 32-bit range is a signed
    overflow, which is undefined. *)
Definition int (x : Z) : result Z :=
  if (- 2 ^ 31 <=? x) && (x <? 2 ^ 31) then Ok x else Fail Undefined.

(** [counts[key[depth]]++] over the data set. *)
Fixpoint countBytes (dataset : list Z) (depth : Z) (counts : list Z) : result (list Z) :=
  match dataset with
  | [] => Ok counts
  | tid :: rest =>
      b <- keyAt (loadKey tid) depth ;;
      c <- int (at_ 0 counts b + 1) ;;
      countBytes rest depth (upd 0 counts b c)
  end.

Record Sums : Type := mkSums {
  s_x : Z; s_y : Z; s_xy : Z; s_x2 : Z; s_y2 : Z;
  bucket_size : Z; yv : Z
}.

Definition resetBucket (n bucket : Z) : Z :=
  if bucket =? 0 then (if n / LINEAR_SIZE =? 0 then 1 else n / LINEAR_SIZE) else bucket.

(** The inner [while (i_count > 0)] of [learn], at most [fuel] passes. *)
Fixpoint learnInner (n i : Z) (i_count : Z) (s : Sums) (fuel : nat) : result Sums :=
  if i_count <=? 0 then Ok s
  else
    match fuel with
    | O => Fail OutOfFuel
    | S fuel' =>
        let take := if bucket_size s <=? i_count then bucket_size s else i_count in
        ty <- int (take * yv s) ;;
        sy <- int (s_y s + ty) ;;
        tyy <- int (ty * yv s) ;;
        sy2 <- int (s_y2 s + tyy) ;;
        ti <- int (take * i) ;;
        tiy <- int (ti * yv s) ;;
        sxy <- int (s_xy s + tiy) ;;
        y' <- (if bucket_size s <=? i_count then int (yv s + 1) else Ok (yv s)) ;;
        let bucket' := resetBucket n (bucket_size s - take) in
        learnInner n i (i_count - take)
                   (mkSums (s_x s) sy sxy (s_x2 s) sy2 bucket' y') fuel'
    end.

(** The [for (i = 0; i < 256; i++)] of [learn] over the bytes [i, i + k). *)
Fixpoint learnOuter (n : Z) (counts : list Z) (i : Z) (k : nat) (s : Sums) : result Sums :=
  match k with
  | O => Ok s
  | S k' =>
      let c := at_ 0 counts i in
      t1 <- int (c * i) ;;
      sx <- int (s_x s + t1) ;;
      t2 <- int (c * c) ;;
      t3 <- int (t2 * i) ;;
      sx2 <- int (s_x2 s + t3) ;;
      s' <- learnInner n i c
              (mkSums sx (s_y s) (s_xy s) sx2 (s_y2 s) (bucket_size s) (yv s))
              (Z.to_nat c) ;;
      learnOuter n counts (i + 1) k' s'
  end.

(** [learn]: the coefficients stored into the node. *)
Definition learn (dataset : list Z) (depth : Z) : result (spec_float * spec_float) :=
  let n := Z.of_nat (length dataset) in
  counts <- countBytes dataset depth (repeat 0 256) ;;
  s <- learnOuter n counts 0 256 (mkSums 0 0 0 0 0 (resetBucket n (n / LINEAR_SIZE)) 0) ;;
  nxy <- int (n * s_xy s) ;;
  xy <- int (s_x s * s_y s) ;;
  numA <- int (nxy - xy) ;;
  nx2 <- int (n * s_x2 s) ;;
  xx <- int (s_x s * s_x s) ;;
  den <- int (nx2 - xx) ;;
  yx2 <- int (s_y s * s_x2 s) ;;
  xxy <- int (s_x s * s_xy s) ;;
  numB <- int (yx2 - xxy) ;;
  let one := double_of_int 1 in
  Ok (ddiv (dmul (double_of_int numA) one) (double_of_int den),
      ddiv (dmul (double_of_int numB) one) (double_of_int den)).

Definition predict (a b : spec_float) (key : list Z) (depth : Z) : result Z :=
  keyByte <- keyAt key depth ;;
  bucket <- int_of_double (dadd (dmul a (double_of_int keyByte)) b) ;;
  Ok (if bucket <? 0 then 0
      else if LINEAR_SIZE <=? bucket then LINEAR_SIZE - 1 else bucket).

(** The inner [for] of the prefix search: is there a key whose byte at
    [idx] differs from that of [dataset[0]]? *)
Fixpoint bytesDiffer (dataset : list Z) (idx : Z) (first : option Z) : result bool :=
  match dataset with
  | [] => Ok false
  | tid :: rest =>
      b <- keyAt (loadKey tid) idx ;;
      match first with
      | None => bytesDiffer rest idx (Some b)
      | Some p => if b =? p then bytesDiffer rest idx first else Ok true
      end
  end.

(** [while (prefixMatch != 1 && newPrefixLength < maxPrefixLength)]. *)
Fixpoint bulkPrefix (dataset : list Z) (depth newPrefixLength : Z) (n : nat) : result Z :=
  match n with
  | O => Ok newPrefixLength
  | S n' =>
      d <- bytesDiffer dataset (u32 (depth + newPrefixLength)) None ;;
      if d then Ok newPrefixLength
      else bulkPrefix dataset depth (newPrefixLength + 1) n'
  end.

(** The members of bucket [i], in data set order. *)
Fixpoint bucketData (a b : spec_float) (dataset : list Z) (depth i : Z) : result (list Z) :=
  match dataset with
  | [] => Ok []
  | tid :: rest =>
      p <- predict a b (loadKey tid) depth ;;
      r <- bucketData a b rest depth i ;;
      Ok (if p =? i then tid :: r else r)
  end.

(** The loop of the small case: every element from index 1 on is loaded
    and point-inserted through [nodeRef] at [depth] with key length 8. *)
Fixpoint insertEach (fuel : nat) (slot : Node) (tids : list Z) (depth : Z) : result Node :=
  match tids with
  | [] => Ok slot
  | tid :: rest =>
      slot' <- insert loadKey fuel slot (loadKey tid) depth tid 8 ;;
      insertEach fuel slot' rest depth
  end.

(** [insertBulk(node, nodeRef, dataset, n, depth)] with [n] the length of
    the data set; every caller passes [node = *nodeRef], and the result is
    the new contents of [*nodeRef].  For more than eight keys the node must
    already be a NodeLinear: the fresh node that the source stores into
    [*nodeRef] when [node] is NULL is never used, the fields are written
    through [node]. *)
Fixpoint insertBulk (fuel : nat) (node : Node) (dataset : list Z) (depth : Z)
    : result Node :=
  let n := Z.of_nat (length dataset) in
  if (n <=? 8) && (1 <? n) then insertEach fuel node (tl dataset) depth
  else if n <=? 1 then Ok node
  else
    match fuel with
    | O => Fail OutOfFuel
    | S fuel' =>
        match node with
        | NodeLinear h child _ _ =>
            newPrefixLength <- bulkPrefix dataset depth 0 (Z.to_nat maxPrefixLength) ;;
            let key0 := loadKey (hd 0 dataset) in
            let h' := mkHeader newPrefixLength (count h)
                        (blit 0 key0 depth (prefix h) 0
                              (Z.min newPrefixLength maxPrefixLength)) in
            let depth' := u32 (depth + newPrefixLength) in
            ab <- learn dataset depth' ;;
            let '(a, b) := ab in
            (* the first scatter pass only counts; it runs [predict] on every key *)
            _ <- bucketData a b dataset depth' 0 ;;
            child' <-
              (fix buckets (i : Z) (k : nat) (child : list Node) : result (list Node) :=
                 match k with
                 | O => Ok child
                 | S k' =>
                     bucket_data <- bucketData a b dataset depth' i ;;
                     let cnt := Z.of_nat (length bucket_data) in
                     c <-
                       (if 8 <? cnt then
                          r <- insertBulk fuel' newNodeLinear bucket_data depth' ;;
                          Ok (Some r)
                        else if negb (cnt =? 0) then
                          r <- insertBulk fuel' (makeLeaf (hd 0 bucket_data))
                                 bucket_data depth' ;;
                          Ok (Some r)
                        else Ok None) ;;
                     buckets (i + 1) k'
                       (match c with
                        | Some r => upd Null child i r
                        | None => child
                        end)
                 end) 0 (Z.to_nat LINEAR_SIZE) child ;;
            Ok (NodeLinear h' child' a b)
        | Null => Fail NullDeref
        | _ => Fail Undefined
        end
    end.

(** * Vocabulary of the statements *)

(** Byte [i] of the prefix a node stands for: the stored byte while [i] is
    below the cap, and beyond it the byte of the key of the minimum leaf. *)
Definition truePrefixAt (ld : Z -> list Z) (fuel : nat) (node : Node) (h : Header)
    (depth i : Z) : Z :=
  if i <? maxPrefixLength then at_ 0 (prefix h) i
  else match minimum fuel node with
       | Ok (Leaf w) => at_ 0 (ld (Z.shiftr w 1)) (depth + i)
       | _ => 0
       end.

(** What [lookup] does after the prefix of an inner node: one [findChild]
    step at [depth'] with the flag [skipped']. *)
Definition descend (node : Node) (key : list Z) (depth' : Z) (skipped' : bool)
    : result lookupNext :=
  slot <- findChild node (at_ 0 key depth') ;;
  Ok (Continue (derefSlot node slot)
               (if isLinear node then depth' else u32 (depth' + 1))
               skipped').

(** The node type tag, with the values of ART.hpp. *)
Definition nodeType (n : Node) : option Z :=
  match n with
  | Node4 _ _ _ => Some 0
  | Node16 _ _ _ => Some 1
  | Node48 _ _ _ => Some 2
  | Node256 _ _ => Some 3
  | NodeLinear _ _ _ _ => Some 4
  | _ => None
  end.

Definition nodeCount (n : Node) : Z :=
  match header n with
  | Ok h => count h
  | Fail _ => 0
  end.

(** The driver's use of the tree: keys are the big-endian bytes of the
    tuple identifier, eight bytes long, and every call starts at depth 0. *)
Definition insertTid (t : Node) (tid : Z) : result Node :=
  insert loadKey 20 t (loadKey tid) 0 tid 8.

Definition eraseTid (t : Node) (tid : Z) : result Node :=
  erase loadKey 20 t (loadKey tid) 8 0 8.

Definition lookupTid (t : Node) (tid : Z) : result Node :=
  lookup loadKey 20 t (loadKey tid) 8 0 8.

Definition insertTids (t : Node) (tids : list Z) : result Node :=
  fold_left (fun r tid => t' <- r ;; insertTid t' tid) tids (Ok t).

Definition eraseTids (t : Node) (tids : list Z) : result Node :=
  fold_left (fun r tid => t' <- r ;; eraseTid t' tid) tids (Ok t).

(** The driver's bulk load of more than eight keys: the root slot holds a
    fresh NodeLinear when [insertBulk] is called. *)
Definition bulkLoad (dataset : list Z) : result Node :=
  insertBulk 20 newNodeLinear dataset 0.

Definition orNull (r : result Node) : Node :=
  match r with
  | Ok t => t
  | Fail _ => Null
  end.

(** Nine tuple identifiers that differ in the last key byte only. *)
Definition bulkData : list Z := [10; 20; 30; 40; 50; 60; 70; 80; 200].
Definition bulkTree : Node := orNull (bulkLoad bulkData).

(** Nine tuple identifiers with key bytes [0 0 0 0 x 200 0 0]. *)
Definition tidOfBytes (b4 b5 b6 b7 : Z) : Z := ((b4 * 256 + b5) * 256 + b6) * 256 + b7.
Definition bulkData4 : list Z := map (fun x => tidOfBytes x 200 0 0) bulkData.
Definition bulkTree4 : Node := orNull (bulkLoad bulkData4).

(** A node whose prefix length is exactly the cap and whose stored prefix
    does not match the key below. *)
Definition capNode : Node :=
  Node4 (mkHeader 9 1 [1; 0; 0; 0; 0; 0; 0; 0; 0]) [5; 0; 0; 0] [Leaf 3; Null; Null; Null].
Definition capKey : list Z := [0; 0; 0; 0; 0; 0; 0; 0; 0; 5].

(** A sixteen-byte key loader (the eight bytes of [loadKey] after eight
    zero bytes) and a node with a prefix longer than the cap, for running
    the long-prefix paths. *)
Definition loadKey16 (tid : Z) : list Z := repeat 0 8 ++ loadKey tid.
Definition longNode : Node :=
  Node4 (mkHeader 11 2 (repeat 0 9)) [7; 9; 0; 0] [makeLeaf 7; makeLeaf 9; Null; Null].

(** ** The invariant of the trees built by point operations *)

(** Number of [i < n] with [p i]. *)
Fixpoint countUpTo (p : Z -> bool) (n : nat) : Z :=
  match n with
  | O => 0
  | S k => countUpTo p k + Z.b2z (p (Z.of_nat k))
  end.

(** Two keys have the same bytes below position [d]. *)
Definition agree (k1 k2 : list Z) (d : Z) : Prop :=
  forall i, 0 <= i < d -> at_ 0 k1 i = at_ 0 k2 i.

(** Lexicographic order of keys. *)
Definition key_lt (k1 k2 : list Z) : Prop :=
  exists p, 0 <= p /\ agree k1 k2 p /\ at_ 0 k1 p < at_ 0 k2 p.

Definition key_le (k1 k2 : list Z) : Prop := k1 = k2 \/ key_lt k1 k2.

(** The child a node holds for a key byte: the value of
    [*findChild(n, b)]. *)
Definition childAt (n : Node) (b : Z) : Node :=
  match findChild n b with
  | Ok slot => derefSlot n slot
  | Fail _ => Null
  end.

(** The parallel arrays of a Node4 ([dec] the identity) or a Node16 ([dec]
    the sign flip): the first [cnt] key bytes are strictly ascending and
    their children are present. *)
Definition arrInv (cap : nat) (dec : Z -> Z) (cnt : Z) (key : list Z) (child : list Node)
    : Prop :=
  length key = cap /\ length child = cap /\ 0 <= cnt <= Z.of_nat cap /\
  (forall i, 0 <= i < cnt -> 0 <= dec (at_ 0 key i) < 256) /\
  (forall i j, 0 <= i < j -> j < cnt -> dec (at_ 0 key i) < dec (at_ 0 key j)) /\
  (forall i, 0 <= i < cnt -> at_ Null child i <> Null).

(** The index and the child array of a Node48: every indexed byte owns a
    distinct occupied slot, every occupied slot is owned, and the count is
    the number of indexed bytes and of occupied slots. *)
Definition idxInv (cnt : Z) (childIndex : list Z) (child : list Node) : Prop :=
  length childIndex = 256%nat /\ length child = Z.to_nat NODE48_SIZE /\
  (forall b, 0 <= b < 256 -> 0 <= at_ 0 childIndex b <= emptyMarker) /\
  (forall b, 0 <= b < 256 -> at_ 0 childIndex b <> emptyMarker ->
             at_ Null child (at_ 0 childIndex b) <> Null) /\
  (forall b b', 0 <= b < 256 -> 0 <= b' < 256 -> at_ 0 childIndex b <> emptyMarker ->
                at_ 0 childIndex b = at_ 0 childIndex b' -> b = b') /\
  (forall s, 0 <= s < NODE48_SIZE -> at_ Null child s <> Null ->
             exists b, 0 <= b < 256 /\ at_ 0 childIndex b = s) /\
  cnt = countUpTo (fun b => negb (at_ 0 childIndex b =? emptyMarker)) 256 /\
  cnt = countUpTo (fun s => negb (isNull (at_ Null child s))) (Z.to_nat NODE48_SIZE).

Definition dirInv (cnt : Z) (child : list Node) : Prop :=
  length child = 256%nat /\
  cnt = countUpTo (fun b => negb (isNull (at_ Null child b))) 256.

(** The child of the byte [b] in sorted parallel arrays. *)
Definition arrChild (dec : Z -> Z) (cnt : Z) (key : list Z) (child : list Node) (b : Z)
    : Node :=
  match first_index (fun i => dec (at_ 0 key i) =? b) 0 (Z.to_nat cnt) with
  | Some i => at_ Null child i
  | None => Null
  end.

(** Invariant of the arrays of one inner node of a tree built by point
    inserts and erases. *)
Definition nodeInv (n : Node) : Prop :=
  match n with
  | Node4 h key child => arrInv 4 (fun x => x) (count h) key child
  | Node16 h key child => arrInv 16 flipSign (count h) key child
  | Node48 h childIndex child => idxInv (count h) childIndex child
  | Node256 h child => dirInv (count h) child
  | _ => False
  end.

(** The least count of each node type that the grow and shrink thresholds
    of the code keep. *)
Definition minCount (n : Node) : Z :=
  match n with
  | Node4 _ _ _ => 2
  | Node16 _ _ _ => 4
  | Node48 _ _ _ => 13
  | Node256 _ _ => 19
  | _ => 0
  end.

Definition shape (n : Node) : Prop := nodeInv n /\ minCount n <= nodeCount n.

(** The header [h'] stands for the same prefix as [h]. *)
Definition samePrefix (h h' : Header) : Prop :=
  prefixLength h' = prefixLength h /\ length (prefix h') = 9%nat /\
  forall i, 0 <= i < prefixLength h -> i < 9 -> at_ 0 (prefix h') i = at_ 0 (prefix h) i.

(** [wf d ref t]: [t] is a subtree met at depth [d] on the path of the key
    [ref].  Every key below an inner node has the bytes of [ref] below
    [d], then the stored prefix, then the byte of its child. *)
Inductive wf : Z -> list Z -> Node -> Prop :=
| wf_leaf (d : Z) (ref : list Z) (tid : Z) :
    0 <= tid < 2 ^ 63 -> 0 <= d <= 8 -> agree (loadKey tid) ref d ->
    wf d ref (makeLeaf tid)
| wf_inner (d : Z) (ref : list Z) (n : Node) (h : Header) :
    header n = Ok h -> shape n ->
    0 <= d -> 0 <= prefixLength h -> d + prefixLength h < 8 ->
    length (prefix h) = 9%nat ->
    (forall i, 0 <= i < prefixLength h -> 0 <= at_ 0 (prefix h) i < 256) ->
    (forall b, 0 <= b < 256 -> childAt n b <> Null ->
       forall ref', agree ref' ref d ->
         (forall i, 0 <= i < prefixLength h ->
                    at_ 0 ref' (d + i) = at_ 0 (prefix h) i) ->
         at_ 0 ref' (d + prefixLength h) = b ->
         wf (d + prefixLength h + 1) ref' (childAt n b)) ->
    wf d ref n.

(** The tuple identifiers stored below a node. *)
Inductive contains : Node -> Z -> Prop :=
| contains_leaf (w : Z) : contains (Leaf w) (Z.shiftr w 1)
| contains_inner (n : Node) (b tid : Z) :
    0 <= b < 256 -> contains (childAt n b) tid -> contains n tid.

(** [n] is [t] or a node below [t]. *)
Inductive subnode : Node -> Node -> Prop :=
| subnode_refl (t : Node) : subnode t t
| subnode_child (n t : Node) (b : Z) :
    0 <= b < 256 -> subnode n (childAt t b) -> subnode n t.

(** Trees reachable from the empty tree by point inserts of tuple
    identifiers that are not in the tree and by point erases, each with the
    key [loadKey] gives the identifier; the list holds the identifiers
    inserted and not erased since.  The fuel of a step is at least the key
    length, which bounds the depth of the recursion. *)
Inductive built : Node -> list Z -> Prop :=
| built_empty : built Null []
| built_insert (t t' : Node) (tids : list Z) (tid : Z) (fuel : nat) :
    built t tids -> 0 <= tid < 2 ^ 63 -> ~ In tid tids -> (8 <= fuel)%nat ->
    insert loadKey fuel t (loadKey tid) 0 tid 8 = Ok t' ->
    built t' (tid :: tids)
| built_erase (t t' : Node) (tids : list Z) (tid : Z) (fuel : nat) :
    built t tids -> 0 <= tid < 2 ^ 63 -> (8 <= fuel)%nat ->
    erase loadKey fuel t (loadKey tid) 8 0 8 = Ok t' ->
    built t' (remove Z.eq_dec tid tids).

(** [n'] is [n] (with header [h]) after the byte [b] got the child [c]. *)
Definition inserted (n : Node) (h : Header) (b : Z) (c : Node) (n' : Node) : Prop :=
  exists h', header n' = Ok h' /\ nodeInv n' /\ count h' = count h + 1 /\
             samePrefix h h' /\ (minCount n <= count h -> minCount n' <= count h') /\
             forall b', 0 <= b' < 256 ->
                        childAt n' b' = if b' =? b then c else childAt n b'.

(** The index built by the first [i] passes of the grow loop of
    [insertNode16]. *)
Definition grown16 (key : list Z) (i : Z) (ci : list Z) : Prop :=
  length ci = 256%nat /\
  (forall b, 0 <= b < 256 ->
     at_ 0 ci b = emptyMarker \/
     (0 <= at_ 0 ci b < i /\ flipSign (at_ 0 key (at_ 0 ci b)) = b)) /\
  (forall j, 0 <= j < i -> at_ 0 ci (flipSign (at_ 0 key j)) = j) /\
  countUpTo (fun b => negb (at_ 0 ci b =? emptyMarker)) 256 = i.

(** A key that follows [ref] below [d], then the stored prefix, then [b]. *)
Definition pathKey (ref : list Z) (d : Z) (h : Header) (b : Z) : list Z :=
  map (fun i => if i <? d then at_ 0 ref i
                else if i <? d + prefixLength h then at_ 0 (prefix h) (i - d)
                else b)
      (zseq 8).

(** The array after inserting [x] at [pos] among the first [cnt] elements. *)
Definition insertAt {A : Type} (d : A) (l : list A) (pos cnt : Z) (x : A) : list A :=
  upd d (blit d l pos l (pos + 1) (cnt - pos)) pos x.

(** The tree of the point inserts of 1 and 2: a Node4 over two leaves. *)
Definition twoLeaves : Node := orNull (insertTids Null [1; 2]).

(** [n'] is [n] (with header [h]) after the child of the byte [b] was
    removed. *)
Definition erased (n : Node) (h : Header) (b : Z) (n' : Node) : Prop :=
  exists h', header n' = Ok h' /\ nodeInv n' /\ count h' = count h - 1 /\
             samePrefix h h' /\ minCount n' <= count h' /\
             forall b', 0 <= b' < 256 ->
                        childAt n' b' = if b' =? b then Null else childAt n b'.

(** The number of positions below [b] at which [p] holds. *)
Definition rank (p : Z -> bool) (b : Z) : Z := countUpTo p (Z.to_nat b).

(** The bytes of a Node48 that have an index, and the bytes of a Node256
    that have a child. *)
Definition indexed (childIndex : list Z) (b : Z) : bool :=
  negb (at_ 0 childIndex b =? emptyMarker).
Definition occupied (child : list Node) (b : Z) : bool :=
  negb (isNull (at_ Null child b)).

(** The number of child slots of each node type. *)
Definition capacity (n : Node) : Z :=
  match n with
  | Node4 _ _ _ => NODE4_SIZE
  | Node16 _ _ _ => 16
  | Node48 _ _ _ => NODE48_SIZE
  | Node256 _ _ => 256
  | _ => 0
  end.

(** * Properties *)

(** ** Arrays *)

Lemma length_zseq (n : nat) : length (zseq n) = n.
Proof. unfold zseq. now rewrite length_map, length_seq. Qed.

Lemma at_map_zseq {A : Type} (d : A) (f : Z -> A) (n : nat) (i : Z) :
  0 <= i < Z.of_nat n -> at_ d (map f (zseq n)) i = f i.
Proof.
  intros Hi. unfold at_, zseq. rewrite map_map.
  rewrite nth_indep with (d' := f (Z.of_nat 0)) by (rewrite length_map, length_seq; lia).
  rewrite (map_nth (fun x => f (Z.of_nat x)) (seq 0 n) 0%nat).
  rewrite seq_nth by lia. f_equal. lia.
Qed.

Lemma at_out {A : Type} (d : A) (l : list A) (i : Z) :
  Z.of_nat (length l) <= i -> at_ d l i = d.
Proof. intros Hi. unfold at_. apply nth_overflow. lia. Qed.

Lemma length_upd {A : Type} (d : A) (l : list A) (i : Z) (v : A) :
  length (upd d l i v) = length l.
Proof. unfold upd. now rewrite length_map, length_zseq. Qed.

Lemma at_upd {A : Type} (d : A) (l : list A) (i : Z) (v : A) (j : Z) :
  0 <= j ->
  at_ d (upd d l i v) j = if (j =? i) && (j <? Z.of_nat (length l)) then v else at_ d l j.
Proof.
  intros Hj. destruct (Z.ltb_spec j (Z.of_nat (length l))).
  - unfold upd. rewrite at_map_zseq by lia. now rewrite andb_true_r.
  - rewrite andb_false_r. rewrite !at_out; auto. rewrite length_upd. lia.
Qed.

Lemma length_blit {A : Type} (d : A) (src : list A) (soff : Z) (dst : list A) (doff n : Z) :
  length (blit d src soff dst doff n) = length dst.
Proof. unfold blit. now rewrite length_map, length_zseq. Qed.

Lemma at_blit {A : Type} (d : A) (src : list A) (soff : Z) (dst : list A)
    (doff n : Z) (j : Z) :
  0 <= j ->
  at_ d (blit d src soff dst doff n) j =
  if (doff <=? j) && (j <? doff + n) && (j <? Z.of_nat (length dst))
  then at_ d src (soff + (j - doff)) else at_ d dst j.
Proof.
  intros Hj. destruct (Z.ltb_spec j (Z.of_nat (length dst))).
  - unfold blit. rewrite at_map_zseq by lia. now rewrite andb_true_r.
  - rewrite andb_false_r. rewrite !at_out; auto. rewrite length_blit. lia.
Qed.

Lemma at_repeat {A : Type} (d x : A) (n : nat) (i : Z) :
  0 <= i < Z.of_nat n -> at_ d (repeat x n) i = x.
Proof.
  intros Hi. unfold at_. apply nth_repeat_lt. lia.
Qed.

Lemma at_repeat_default {A : Type} (d : A) (n : nat) (i : Z) :
  at_ d (repeat d n) i = d.
Proof. unfold at_. apply nth_repeat. Qed.

Lemma first_index_some (p : Z -> bool) (n : nat) (lo i : Z) :
  first_index p lo n = Some i ->
  lo <= i < lo + Z.of_nat n /\ p i = true /\ forall j, lo <= j < i -> p j = false.
Proof.
  revert lo. induction n as [|n IH]; intros lo H; simpl in H; [discriminate|].
  destruct (p lo) eqn:E.
  - inversion H; subst. repeat split; try lia; auto.
  - apply IH in H. destruct H as (H1 & H2 & H3). repeat split; try lia; auto.
    intros j Hj. destruct (Z.eq_dec j lo); [subst; auto|]. apply H3. lia.
Qed.

Lemma first_index_none (p : Z -> bool) (n : nat) (lo : Z) :
  first_index p lo n = None -> forall j, lo <= j < lo + Z.of_nat n -> p j = false.
Proof.
  revert lo. induction n as [|n IH]; intros lo H j Hj; simpl in H; [lia|].
  destruct (p lo) eqn:E; [discriminate|].
  destruct (Z.eq_dec j lo); [subst; auto|]. apply (IH _ H). lia.
Qed.

Lemma first_index_found (p : Z -> bool) (n : nat) (lo i : Z) :
  lo <= i < lo + Z.of_nat n -> p i = true -> (forall j, lo <= j < i -> p j = false) ->
  first_index p lo n = Some i.
Proof.
  intros Hi Hp Hb. destruct (first_index p lo n) as [k|] eqn:E.
  - apply first_index_some in E. destruct E as (H1 & H2 & H3).
    destruct (Z.lt_trichotomy k i) as [Hk|[Hk|Hk]]; [|congruence|].
    + rewrite Hb in H2 by lia. discriminate.
    + rewrite H3 in Hp by lia. discriminate.
  - rewrite (first_index_none _ _ _ E i Hi) in Hp. discriminate.
Qed.

(** ** Key buffers and the comparison loops *)

Lemma u32_small (x : Z) : 0 <= x < 2 ^ 32 -> u32 x = x.
Proof. intros H. unfold u32. now apply Z.mod_small. Qed.

Lemma keyAt_ok (key : list Z) (i : Z) :
  0 <= i < Z.of_nat (length key) -> keyAt key i = Ok (at_ 0 key i).
Proof.
  intros H. unfold keyAt.
  destruct (Z.leb_spec 0 i); [|lia]. destruct (Z.ltb_spec i (Z.of_nat (length key))); [|lia].
  reflexivity.
Qed.


Lemma keyAt_inv (key : list Z) (i x : Z) :
  keyAt key i = Ok x -> 0 <= i < Z.of_nat (length key) /\ x = at_ 0 key i.
Proof.
  unfold keyAt. destruct (Z.leb_spec 0 i); [|discriminate].
  destruct (Z.ltb_spec i (Z.of_nat (length key))); [|discriminate].
  simpl. intros E; inversion E. split; [lia|reflexivity].
Qed.

(** The prefix loops: with every read in range the loop stops at the first
    position where the key and the reference bytes differ. *)
Lemma mismatchLoop_spec (key : list Z) (depth : Z) (ref : Z -> result Z) (rx : Z -> Z)
    (n : nat) (pos : Z) :
  (forall i, pos <= i < pos + Z.of_nat n ->
     0 <= depth + i < Z.of_nat (length key) /\ depth + i < 2 ^ 32 /\ ref i = Ok (rx i)) ->
  exists r, mismatchLoop key depth ref pos n = Ok r /\
    match r with
    | inl p => pos <= p < pos + Z.of_nat n /\ at_ 0 key (depth + p) <> rx p /\
               forall i, pos <= i < p -> at_ 0 key (depth + i) = rx i
    | inr p => p = pos + Z.of_nat n /\
               forall i, pos <= i < p -> at_ 0 key (depth + i) = rx i
    end.
Proof.
  revert pos. induction n as [|n IH]; intros pos H.
  - exists (inr pos). simpl. split; [reflexivity|]. split; [lia|]. intros; lia.
  - destruct (H pos ltac:(lia)) as (Hr & Hw & Href).
    cbn [mismatchLoop]. rewrite u32_small by lia. rewrite keyAt_ok by lia.
    rewrite Href. cbn [bind].
    destruct (Z.eqb_spec (at_ 0 key (depth + pos)) (rx pos)) as [E|E].
    + destruct (IH (pos + 1)) as (r & Hrun & Hspec).
      { intros i Hi. apply H. lia. }
      exists r. split; [exact Hrun|].
      destruct r as [p|p].
      * destruct Hspec as (H1 & H2 & H3). repeat split; try lia; auto.
        intros i Hi. destruct (Z.eq_dec i pos); [subst; auto|]. apply H3. lia.
      * destruct Hspec as (H1 & H3). split; [lia|].
        intros i Hi. destruct (Z.eq_dec i pos); [subst; auto|]. apply H3. lia.
    + exists (inl pos). split; [reflexivity|]. repeat split; try lia; auto.
Qed.

Lemma keysEqualFrom_spec (a b : list Z) (n : nat) (i : Z) :
  (forall j, i <= j < i + Z.of_nat n ->
     0 <= j < Z.of_nat (length a) /\ j < Z.of_nat (length b)) ->
  exists r, keysEqualFrom a b i n = Ok r /\
    (r = true <-> forall j, i <= j < i + Z.of_nat n -> at_ 0 a j = at_ 0 b j).
Proof.
  revert i. induction n as [|n IH]; intros i H.
  - exists true. simpl. split; [reflexivity|]. split; auto. intros _ j Hj. lia.
  - destruct (H i ltac:(lia)) as (Ha & Hb).
    cbn [keysEqualFrom]. rewrite !keyAt_ok by lia. cbn [bind].
    destruct (Z.eqb_spec (at_ 0 a i) (at_ 0 b i)) as [E|E].
    + destruct (IH (i + 1)) as (r & Hrun & Hspec).
      { intros j Hj. apply H. lia. }
      exists r. split; [exact Hrun|]. rewrite Hspec. split.
      * intros Hall j Hj. destruct (Z.eq_dec j i); [subst; auto|]. apply Hall. lia.
      * intros Hall j Hj. apply Hall. lia.
    + exists false. split; [reflexivity|]. split; [discriminate|].
      intros Hall. exfalso. apply E. apply Hall. lia.
Qed.

(** The common-prefix loop of the leaf case of [insert]. *)
Lemma commonPrefixLoop_stops (ek key : list Z) (depth : Z) (n : nat) (l p : Z) :
  0 <= depth -> 0 <= l -> depth + l <= p ->
  p < Z.of_nat (length ek) -> p < Z.of_nat (length key) -> p < 2 ^ 32 - 1 ->
  at_ 0 ek p <> at_ 0 key p ->
  p - (depth + l) < Z.of_nat n ->
  exists r, commonPrefixLoop ek key depth l n = Ok r /\
    l <= r /\ depth + r <= p /\ at_ 0 ek (depth + r) <> at_ 0 key (depth + r) /\
    forall i, l <= i < r -> at_ 0 ek (depth + i) = at_ 0 key (depth + i).
Proof.
  intros Hd. revert l. induction n as [|n IH]; intros l Hl Hp Hek Hkey Hw Hdiff Hn; [lia|].
  cbn [commonPrefixLoop]. rewrite u32_small by lia. rewrite !keyAt_ok by lia. cbn [bind].
  destruct (Z.eqb_spec (at_ 0 ek (depth + l)) (at_ 0 key (depth + l))) as [E|E].
  - assert (depth + l <> p) by congruence.
    rewrite u32_small by lia.
    destruct (IH (l + 1)) as (r & Hrun & H1 & H2 & H3 & H4); try lia; auto.
    exists r. split; [exact Hrun|]. repeat split; try lia; auto.
    intros i Hi. destruct (Z.eq_dec i l); [subst; auto|]. apply H4. lia.
  - exists l. split; [reflexivity|]. repeat split; try lia; auto.
Qed.

Lemma commonPrefixLoop_inv (ek key : list Z) (depth : Z) (n : nat) (l r : Z) :
  0 <= depth -> 0 <= l -> depth + l + Z.of_nat n < 2 ^ 32 ->
  commonPrefixLoop ek key depth l n = Ok r ->
  l <= r /\ depth + r < Z.of_nat (length ek) /\ depth + r < Z.of_nat (length key) /\
  at_ 0 ek (depth + r) <> at_ 0 key (depth + r).
Proof.
  intros Hd. revert l. induction n as [|n IH]; intros l Hl Hw H; [discriminate|].
  cbn [commonPrefixLoop] in H. rewrite u32_small in H by lia.
  destruct (keyAt ek (depth + l)) as [x|] eqn:Ex; [|discriminate].
  destruct (keyAt key (depth + l)) as [y|] eqn:Ey; [|discriminate].
  apply keyAt_inv in Ex. apply keyAt_inv in Ey. destruct Ex as (Hx & ->). destruct Ey as (Hy & ->).
  cbn [bind] in H.
  destruct (Z.eqb_spec (at_ 0 ek (depth + l)) (at_ 0 key (depth + l))) as [E|E].
  - rewrite u32_small in H by lia. apply IH in H; try lia.
  - inversion H; subst. repeat split; try lia; auto.
Qed.

(** ** Prefix comparison, the optimistic lookup and the leaf case of insert *)

Section LoaderFacts.

Variable ld : Z -> list Z.

(** C9.  [prefixMismatch] returns the first index at which the key leaves
    the prefix of the node, or the prefix length when the whole prefix
    matches: below the cap the key is compared with the stored bytes, and
    for a longer prefix the comparison goes on against the key of the
    minimum leaf. *)
Theorem prefixMismatch_first_divergence (fuel : nat) (node : Node) (h : Header)
    (key : list Z) (depth maxKeyLength : Z) :
  header node = Ok h ->
  0 <= depth -> 0 <= prefixLength h ->
  depth + prefixLength h <= Z.of_nat (length key) ->
  Z.of_nat (length key) <= 2 ^ 32 ->
  (maxPrefixLength < prefixLength h ->
   exists w, minimum fuel node = Ok (Leaf w) /\
             depth + prefixLength h <= Z.of_nat (length (ld (Z.shiftr w 1))) /\
             Z.of_nat (length (ld (Z.shiftr w 1))) <= maxKeyLength) ->
  exists pos,
    prefixMismatch ld fuel node key depth maxKeyLength = Ok pos /\
    0 <= pos <= prefixLength h /\
    (forall i, 0 <= i < pos ->
       at_ 0 key (depth + i) = truePrefixAt ld fuel node h depth i) /\
    (pos < prefixLength h ->
       at_ 0 key (depth + pos) <> truePrefixAt ld fuel node h depth pos).
Proof.
  intros Hh Hd Hpl Hlen Hw Hlong.
  unfold prefixMismatch. rewrite Hh. cbn [bind].
  destruct (Z.ltb_spec maxPrefixLength (prefixLength h)) as [Hcap|Hcap].
  - destruct (Hlong Hcap) as (w & Hmin & Hk1 & Hk2). unfold maxPrefixLength in *.
    destruct (mismatchLoop_spec key depth (fun pos => Ok (at_ 0 (prefix h) pos))
                (fun pos => at_ 0 (prefix h) pos) (Z.to_nat 9) 0) as (r & Hrun & Hspec).
    { intros i Hi. repeat split; try lia. }
    rewrite Hrun. cbn [bind]. destruct r as [p|p].
    + destruct Hspec as (H1 & H2 & H3). exists p. split; [reflexivity|].
      unfold truePrefixAt, maxPrefixLength. split; [lia|]. split.
      * intros i Hi. destruct (Z.ltb_spec i 9); [|lia]. apply H3. lia.
      * intros _. destruct (Z.ltb_spec p 9); [|lia]. exact H2.
    + destruct Hspec as (H1 & H3). change (Z.of_nat (Z.to_nat 9)) with 9 in H1.
      rewrite Hmin. cbn [bind getLeafValue]. unfold loadKeyBuf.
      destruct (Z.ltb_spec maxKeyLength (Z.of_nat (length (ld (Z.shiftr w 1))))); [lia|].
      cbn [bind]. set (minKey := ld (Z.shiftr w 1)) in *.
      destruct (mismatchLoop_spec key depth (fun pos => keyAt minKey (u32 (depth + pos)))
                  (fun pos => at_ 0 minKey (depth + pos))
                  (Z.to_nat (prefixLength h - p)) p) as (r & Hrun2 & Hspec2).
      { intros i Hi. repeat split; try lia.
        rewrite u32_small by lia. apply keyAt_ok. lia. }
      rewrite Hrun2. cbn [bind].
      assert (Hall : forall i, 0 <= i < 9 ->
                at_ 0 key (depth + i) = truePrefixAt ld fuel node h depth i).
      { intros i Hi. unfold truePrefixAt, maxPrefixLength.
        destruct (Z.ltb_spec i 9); [|lia]. apply H3. lia. }
      assert (Htail : forall i, 9 <= i ->
                truePrefixAt ld fuel node h depth i = at_ 0 minKey (depth + i)).
      { intros i Hi. unfold truePrefixAt, maxPrefixLength.
        destruct (Z.ltb_spec i 9); [lia|]. now rewrite Hmin. }
      destruct r as [q|q].
      * destruct Hspec2 as (G1 & G2 & G3). exists q. split; [reflexivity|].
        split; [lia|]. split.
        -- intros i Hi. destruct (Z.lt_ge_cases i 9); [apply Hall; lia|].
           rewrite Htail by lia. apply G3. lia.
        -- intros _. rewrite Htail by lia. exact G2.
      * destruct Hspec2 as (G1 & G3). exists q. split; [reflexivity|].
        split; [lia|]. split.
        -- intros i Hi. destruct (Z.lt_ge_cases i 9); [apply Hall; lia|].
           rewrite Htail by lia. apply G3. lia.
        -- intros Hq. lia.
  - unfold maxPrefixLength in *.
    destruct (mismatchLoop_spec key depth (fun pos => Ok (at_ 0 (prefix h) pos))
                (fun pos => at_ 0 (prefix h) pos) (Z.to_nat (prefixLength h)) 0)
      as (r & Hrun & Hspec).
    { intros i Hi. repeat split; try lia. }
    rewrite Hrun. cbn [bind].
    assert (Hstored : forall i, 0 <= i < prefixLength h ->
              truePrefixAt ld fuel node h depth i = at_ 0 (prefix h) i).
    { intros i Hi. unfold truePrefixAt, maxPrefixLength.
      destruct (Z.ltb_spec i 9); [reflexivity|lia]. }
    destruct r as [p|p].
    + destruct Hspec as (H1 & H2 & H3). exists p. split; [reflexivity|].
      split; [lia|]. split.
      * intros i Hi. rewrite Hstored by lia. apply H3. lia.
      * intros _. rewrite Hstored by lia. exact H2.
    + destruct Hspec as (H1 & H3). exists p. split; [reflexivity|].
      split; [lia|]. split.
      * intros i Hi. rewrite Hstored by lia. apply H3. lia.
      * intros Hp. lia.
Qed.


Lemma insertNode4_fresh (pl : Z) (pre : list Z) (x y : Z) (c1 c2 : Node) :
  exists t,
    (n1 <- insertNode4' (Node4 (mkHeader pl 0 pre) (repeat 0 4) (repeat Null 4)) x c1 ;;
     insertNode4' n1 y c2) = Ok t.
Proof.
  unfold insertNode4', insertNode4. cbn [count prefixLength prefix].
  change (0 <? NODE4_SIZE) with true. cbn [bind count prefixLength prefix].
  change (u16 (0 + 1) <? NODE4_SIZE) with true. eauto.
Qed.

(** C10.  At an existing leaf [insert] scans the two keys from [depth] with
    no bound of its own: it has a result exactly when the new key differs
    from the key of the leaf at a position at or after [depth] inside both
    buffers; otherwise the scan leaves the buffer. *)
Theorem insert_at_leaf_defined_iff (fuel : nat) (w : Z) (key : list Z)
    (depth value maxKeyLength : Z) :
  0 <= depth ->
  depth + Z.of_nat (length (ld (Z.shiftr w 1))) < 2 ^ 32 - 1 ->
  Z.of_nat (length (ld (Z.shiftr w 1))) <= maxKeyLength ->
  ((exists t, insert ld fuel (Leaf w) key depth value maxKeyLength = Ok t) <->
   (exists p, depth <= p /\
              p < Z.of_nat (length (ld (Z.shiftr w 1))) /\ p < Z.of_nat (length key) /\
              at_ 0 (ld (Z.shiftr w 1)) p <> at_ 0 key p)) /\
  ((forall p, depth <= p -> p < Z.of_nat (length (ld (Z.shiftr w 1))) ->
              p < Z.of_nat (length key) ->
              at_ 0 (ld (Z.shiftr w 1)) p = at_ 0 key p) ->
   insert ld fuel (Leaf w) key depth value maxKeyLength = Fail OutOfBounds).
Proof.
  intros Hd Hw Hmk. set (ek := ld (Z.shiftr w 1)) in *.
  assert (Hunfold : insert ld fuel (Leaf w) key depth value maxKeyLength =
                    insertLeaf ld (Leaf w) key depth value maxKeyLength)
    by (destruct fuel; reflexivity).
  rewrite Hunfold. unfold insertLeaf. cbn [getLeafValue bind]. unfold loadKeyBuf.
  fold ek. destruct (Z.ltb_spec maxKeyLength (Z.of_nat (length ek))); [lia|]. cbn [bind].
  split; [split|].
  - intros (t & Ht).
    destruct (commonPrefixLoop ek key depth 0 (S (length ek))) as [r|e] eqn:E;
      [|discriminate].
    apply commonPrefixLoop_inv in E; try lia.
    destruct E as (H1 & H2 & H3 & H4). exists (depth + r). repeat split; try lia; auto.
  - intros (p & Hp1 & Hp2 & Hp3 & Hp4).
    destruct (commonPrefixLoop_stops ek key depth (S (length ek)) 0 p)
      as (r & Hrun & H1 & H2 & H3 & H4); try lia; auto.
    rewrite Hrun. cbn [bind]. rewrite u32_small by lia. rewrite !keyAt_ok by lia.
    cbn [bind]. apply insertNode4_fresh.
  - intros Hall.
    destruct (commonPrefixLoop ek key depth 0 (S (length ek))) as [r|e] eqn:E.
    + apply commonPrefixLoop_inv in E; try lia.
      destruct E as (H1 & H2 & H3 & H4). exfalso. apply H4. apply Hall; lia.
    + cbn [bind]. clear - E Hd Hw.
      assert (G : forall n l e', 0 <= l -> depth + l + Z.of_nat n < 2 ^ 32 ->
                  commonPrefixLoop ek key depth l n = Fail e' -> e' = OutOfBounds).
      { induction n as [|n IH]; intros l e' Hl Hle Hf; [inversion Hf; reflexivity|].
        cbn [commonPrefixLoop] in Hf. rewrite u32_small in Hf by lia.
        unfold keyAt in Hf.
        destruct ((0 <=? depth + l) && (depth + l <? Z.of_nat (length ek))) eqn:B1;
          [|inversion Hf; reflexivity].
        destruct ((0 <=? depth + l) && (depth + l <? Z.of_nat (length key))) eqn:B2;
          [|inversion Hf; reflexivity].
        cbn [bind] in Hf.
        destruct (at_ 0 ek (depth + l) =? at_ 0 key (depth + l)); [|discriminate].
        rewrite u32_small in Hf by lia. apply IH in Hf; auto; lia. }
      apply G in E; try lia. now subst.
Qed.

Lemma lookupInner_descend (node : Node) (key : list Z) (depth' : Z) (skipped' : bool) :
  0 <= depth' < Z.of_nat (length key) ->
  (keyByte <- keyAt key depth' ;;
   slot <- findChild node keyByte ;;
   Ok (Continue (derefSlot node slot)
                (if isLinear node then depth' else u32 (depth' + 1))
                skipped')) = descend node key depth' skipped'.
Proof. intros H. rewrite keyAt_ok by lia. reflexivity. Qed.

(** C6 (amended).  At an inner node the optimistic lookup compares the
    stored prefix bytes with the key exactly when the prefix length is
    below the cap, and returns null on a mismatch; from the cap on it
    compares nothing and sets the flag.  At a leaf reached with
    [depth <> keyLength] it compares the key of the leaf with the searched
    key over [0, keyLength) after a skip and over [depth, keyLength)
    otherwise, and without a skip a leaf reached at [depth = keyLength] is
    returned as it is. *)
Theorem lookup_prefix_policy :
  (forall (node : Node) (h : Header) (key : list Z) (depth : Z) (skipped : bool),
     header node = Ok h ->
     0 <= depth -> 0 <= prefixLength h ->
     depth + prefixLength h < Z.of_nat (length key) ->
     Z.of_nat (length key) <= 2 ^ 32 ->
     (prefixLength h < maxPrefixLength ->
        ((exists i, 0 <= i < prefixLength h /\
                    at_ 0 key (depth + i) <> at_ 0 (prefix h) i) ->
         lookupInner node key depth skipped = Ok (Return Null)) /\
        ((forall i, 0 <= i < prefixLength h ->
                    at_ 0 key (depth + i) = at_ 0 (prefix h) i) ->
         lookupInner node key depth skipped =
         descend node key (depth + prefixLength h) skipped)) /\
     (maxPrefixLength <= prefixLength h ->
        lookupInner node key depth skipped =
        descend node key (depth + prefixLength h) true)) /\
  (forall (w : Z) (key : list Z) (keyLength depth maxKeyLength : Z) (skipped : bool),
     0 <= depth <= keyLength ->
     keyLength <= Z.of_nat (length key) ->
     keyLength <= Z.of_nat (length (ld (Z.shiftr w 1))) ->
     Z.of_nat (length (ld (Z.shiftr w 1))) <= maxKeyLength ->
     (skipped = true -> depth <> keyLength) ->
     ((forall i, (if skipped then 0 else depth) <= i < keyLength ->
                 at_ 0 (ld (Z.shiftr w 1)) i = at_ 0 key i) ->
      lookupLeaf ld (Leaf w) key keyLength depth maxKeyLength skipped = Ok (Leaf w)) /\
     ((exists i, (if skipped then 0 else depth) <= i < keyLength /\
                 at_ 0 (ld (Z.shiftr w 1)) i <> at_ 0 key i) ->
      lookupLeaf ld (Leaf w) key keyLength depth maxKeyLength skipped = Ok Null)).
Proof.
  split.
  - intros node h key depth skipped Hh Hd Hpl Hlen Hw.
    unfold lookupInner. rewrite Hh. cbn [bind].
    destruct (Z.eqb_spec (prefixLength h) 0) as [E0|E0].
    + cbn [bind]. rewrite lookupInner_descend by lia.
      rewrite E0, Z.add_0_r. split.
      * intros _. split; [|reflexivity].
        intros (i & Hi & _). lia.
      * unfold maxPrefixLength. lia.
    + destruct (Z.ltb_spec (prefixLength h) maxPrefixLength) as [Hc|Hc].
      * split; [|lia]. intros _.
        destruct (mismatchLoop_spec key depth (fun pos => Ok (at_ 0 (prefix h) pos))
                    (fun pos => at_ 0 (prefix h) pos) (Z.to_nat (prefixLength h)) 0)
          as (r & Hrun & Hspec).
        { intros i Hi. repeat split; try lia. }
        rewrite Hrun. cbn [bind]. destruct r as [p|p].
        -- destruct Hspec as (H1 & H2 & H3). split; [reflexivity|].
           intros Hall. exfalso. apply H2. apply Hall. lia.
        -- destruct Hspec as (H1 & H3). cbn [bind].
           rewrite u32_small by lia. rewrite lookupInner_descend by lia. split.
           ++ intros (i & Hi & Hne). exfalso. apply Hne. apply H3. lia.
           ++ reflexivity.
      * split; [lia|]. intros _. cbn [bind].
        rewrite u32_small by lia. now rewrite lookupInner_descend by lia.
  - intros w key keyLength depth maxKeyLength skipped Hd Hk Hl Hm Hskip.
    unfold lookupLeaf.
    destruct (Z.eqb_spec depth keyLength) as [E|E].
    + destruct skipped; [exfalso; now apply Hskip|]. cbn [negb andb]. split.
      * reflexivity.
      * intros (i & Hi & _). lia.
    + rewrite andb_false_r. cbn [negb getLeafValue bind]. unfold loadKeyBuf.
      destruct (Z.ltb_spec maxKeyLength (Z.of_nat (length (ld (Z.shiftr w 1))))); [lia|].
      cbn [bind]. set (from := if skipped then 0 else depth).
      assert (Hfrom : 0 <= from <= keyLength) by (subst from; destruct skipped; lia).
      destruct (keysEqualFrom_spec (ld (Z.shiftr w 1)) key (Z.to_nat (keyLength - from)) from)
        as (r & Hrun & Hspec).
      { intros j Hj. lia. }
      rewrite Hrun. cbn [bind]. split.
      * intros Hall. destruct r; [reflexivity|].
        assert (false = true); [|discriminate]. apply Hspec. intros j Hj. apply Hall. lia.
      * intros (i & Hi & Hne). destruct r; [|reflexivity].
        exfalso. apply Hne. apply (proj1 Hspec); [reflexivity|lia].
Qed.

End LoaderFacts.

(** ** Counting *)

Lemma countUpTo_ext (p q : Z -> bool) (n : nat) :
  (forall i, 0 <= i < Z.of_nat n -> p i = q i) -> countUpTo p n = countUpTo q n.
Proof.
  induction n as [|n IH]; intros H; [reflexivity|].
  cbn [countUpTo]. rewrite IH by (intros; apply H; lia). rewrite H by lia. reflexivity.
Qed.

Lemma countUpTo_bounds (p : Z -> bool) (n : nat) : 0 <= countUpTo p n <= Z.of_nat n.
Proof.
  induction n as [|n IH]; cbn [countUpTo]; [lia|].
  destruct (p (Z.of_nat n)); cbn [Z.b2z]; lia.
Qed.

Lemma countUpTo_set (p q : Z -> bool) (n : nat) (b : Z) :
  0 <= b < Z.of_nat n -> (forall i, 0 <= i < Z.of_nat n -> i <> b -> q i = p i) ->
  countUpTo q n = countUpTo p n + Z.b2z (q b) - Z.b2z (p b).
Proof.
  induction n as [|n IH]; intros Hb H; [lia|].
  cbn [countUpTo]. destruct (Z.eq_dec b (Z.of_nat n)) as [->|Hne].
  - rewrite (countUpTo_ext q p) by (intros; apply H; lia). lia.
  - rewrite IH by (try lia; intros; apply H; lia). rewrite (H (Z.of_nat n)) by lia. lia.
Qed.

Lemma countUpTo_lt_exists (p : Z -> bool) (n : nat) :
  countUpTo p n < Z.of_nat n -> exists i, 0 <= i < Z.of_nat n /\ p i = false.
Proof.
  induction n as [|n IH]; cbn [countUpTo]; intros H; [lia|].
  destruct (p (Z.of_nat n)) eqn:E.
  - cbn [Z.b2z] in H. destruct IH as (i & Hi & Hp); [lia|]. exists i. split; [lia|exact Hp].
  - exists (Z.of_nat n). split; [lia|exact E].
Qed.

Lemma countUpTo_pos_exists (p : Z -> bool) (n : nat) :
  0 < countUpTo p n -> exists i, 0 <= i < Z.of_nat n /\ p i = true.
Proof.
  induction n as [|n IH]; cbn [countUpTo]; intros H; [lia|].
  destruct (p (Z.of_nat n)) eqn:E.
  - exists (Z.of_nat n). split; [lia|exact E].
  - cbn [Z.b2z] in H. destruct IH as (i & Hi & Hp); [lia|]. exists i. split; [lia|exact Hp].
Qed.

Lemma countUpTo_false (p : Z -> bool) (n : nat) (b : Z) :
  0 <= b < Z.of_nat n -> p b = false -> countUpTo p n < Z.of_nat n.
Proof.
  induction n as [|n IH]; intros Hb Hp; [lia|].
  cbn [countUpTo]. pose proof (countUpTo_bounds p n).
  destruct (Z.eq_dec b (Z.of_nat n)) as [->|Hne].
  - rewrite Hp. cbn [Z.b2z]. lia.
  - specialize (IH ltac:(lia) Hp). destruct (p (Z.of_nat n)); cbn [Z.b2z]; lia.
Qed.

(** ** The sign flip and the signed lanes *)

Lemma in_zseq (n : nat) (i : Z) : In i (zseq n) <-> 0 <= i < Z.of_nat n.
Proof.
  unfold zseq. rewrite in_map_iff. split.
  - intros (k & <- & Hk). apply in_seq in Hk. lia.
  - intros H. exists (Z.to_nat i). split; [lia|]. apply in_seq. lia.
Qed.

Lemma forall_bytes (p : Z -> bool) :
  forallb p (zseq 256) = true -> forall b, 0 <= b < 256 -> p b = true.
Proof.
  intros H b Hb. rewrite forallb_forall in H. apply H. apply in_zseq. lia.
Qed.

Lemma flipSign_byte (b : Z) :
  0 <= b < 256 -> flipSign b = if b <? 128 then b + 128 else b - 128.
Proof.
  intros Hb.
  apply Z.eqb_eq.
  apply (forall_bytes (fun b => flipSign b =? (if b <? 128 then b + 128 else b - 128)));
    [vm_compute; reflexivity|exact Hb].
Qed.

Lemma flipSign_invol (x : Z) : flipSign (flipSign x) = x.
Proof.
  unfold flipSign. rewrite Z.lxor_assoc, Z.lxor_nilpotent. apply Z.lxor_0_r.
Qed.

Lemma flipSign_range (b : Z) : 0 <= b < 256 -> 0 <= flipSign b < 256.
Proof. intros H. rewrite flipSign_byte by lia. destruct (b <? 128) eqn:E; lia. Qed.

Lemma int8_flipSign (b : Z) : 0 <= b < 256 -> int8 (flipSign b) = b - 128.
Proof.
  intros H. rewrite flipSign_byte by lia. unfold int8.
  destruct (Z.ltb_spec b 128).
  - destruct (Z.ltb_spec (b + 128) 128); lia.
  - destruct (Z.ltb_spec (b - 128) 128); lia.
Qed.

Lemma movemask_testbit (l : list bool) (i : Z) :
  0 <= i -> Z.testbit (movemask_epi8 l) i = nth (Z.to_nat i) l false.
Proof.
  revert i. induction l as [|b r IH]; intros i Hi.
  - cbn [movemask_epi8]. rewrite Z.bits_0. now destruct (Z.to_nat i).
  - cbn [movemask_epi8]. rewrite Z.add_comm.
    destruct (Z.eq_dec i 0) as [->|Hne].
    + now rewrite Z.testbit_0_r.
    + replace i with (Z.succ (i - 1)) at 1 by lia.
      rewrite Z.testbit_succ_r by lia. rewrite IH by lia.
      replace (Z.to_nat i) with (S (Z.to_nat (i - 1))) by lia. reflexivity.
Qed.

Lemma movemask_nonneg (l : list bool) : 0 <= movemask_epi8 l.
Proof. induction l as [|b r IH]; cbn [movemask_epi8]; [lia|]. destruct b; cbn [Z.b2z]; lia. Qed.

(** The masked movemask and [ctz] pick the first lane below [c] that is set. *)
Lemma simd_first (lanes : list bool) (mask c : Z) :
  0 <= c <= 16 -> 0 <= mask ->
  (forall i, 0 <= i -> Z.testbit mask i = (i <? c)) ->
  let bitfield := Z.land (movemask_epi8 lanes) mask in
  (if bitfield =? 0 then None else Some (ctz bitfield)) =
  first_index (fun i => nth (Z.to_nat i) lanes false) 0 (Z.to_nat c).
Proof.
  intros Hc Hm Hmask bitfield.
  assert (Hbit : forall i, 0 <= i ->
            Z.testbit bitfield i = nth (Z.to_nat i) lanes false && (i <? c)).
  { intros i Hi. unfold bitfield. rewrite Z.land_spec, movemask_testbit, Hmask by lia.
    reflexivity. }
  destruct (first_index (fun i => nth (Z.to_nat i) lanes false) 0 (Z.to_nat c)) as [k|] eqn:E.
  - apply first_index_some in E. destruct E as (Hk & Hp & Hbefore).
    assert (Hne : bitfield <> 0).
    { intros H0. assert (B := Hbit k ltac:(lia)). rewrite H0, Z.bits_0, Hp in B.
      destruct (Z.ltb_spec k c); [discriminate|lia]. }
    destruct (Z.eqb_spec bitfield 0); [contradiction|].
    f_equal. unfold ctz.
    rewrite (first_index_found _ 16 0 k); [reflexivity|lia| |].
    + rewrite Hbit by lia. rewrite Hp. destruct (Z.ltb_spec k c); [reflexivity|lia].
    + intros j Hj. rewrite Hbit by lia. rewrite Hbefore by lia. reflexivity.
  - assert (H0 : bitfield = 0).
    { apply Z.bits_inj'. intros i Hi. rewrite Z.bits_0, Hbit by lia.
      destruct (Z.ltb_spec i c); [|apply andb_false_r].
      rewrite (first_index_none _ _ _ E i) by lia. reflexivity. }
    rewrite H0. reflexivity.
Qed.

Lemma mask_low (c : Z) :
  0 <= c -> forall i, 0 <= i -> Z.testbit (Z.shiftl 1 c - 1) i = (i <? c).
Proof.
  intros Hc i Hi. change (Z.shiftl 1 c - 1) with (Z.pred (Z.shiftl 1 c)).
  fold (Z.ones c). destruct (Z.ltb_spec i c).
  - apply Z.ones_spec_low. lia.
  - apply Z.ones_spec_high. lia.
Qed.

Lemma mask_shr (c : Z) :
  0 <= c <= 16 -> forall i, 0 <= i -> Z.testbit (Z.shiftr 65535 (16 - c)) i = (i <? c).
Proof.
  intros Hc i Hi. rewrite Z.shiftr_spec by lia.
  change 65535 with (Z.ones 16). destruct (Z.ltb_spec i c).
  - apply Z.ones_spec_low. lia.
  - apply Z.ones_spec_high. lia.
Qed.

(** ** Sorted parallel arrays (Node4 and Node16) *)

Lemma first_index_ext (p q : Z -> bool) (n : nat) (lo : Z) :
  (forall i, lo <= i < lo + Z.of_nat n -> p i = q i) ->
  first_index p lo n = first_index q lo n.
Proof.
  revert lo. induction n as [|n IH]; intros lo H; [reflexivity|].
  cbn [first_index]. rewrite H by lia. rewrite IH by (intros; apply H; lia). reflexivity.
Qed.

Lemma at_insertAt {A : Type} (d : A) (l : list A) (pos cnt : Z) (x : A) (j : Z) :
  0 <= pos <= cnt -> cnt < Z.of_nat (length l) -> 0 <= j ->
  at_ d (insertAt d l pos cnt x) j =
  if j =? pos then x
  else if (pos <? j) && (j <=? cnt) then at_ d l (j - 1) else at_ d l j.
Proof.
  intros Hp Hc Hj. unfold insertAt. rewrite at_upd by lia. rewrite length_blit.
  destruct (Z.eqb_spec j pos) as [->|Hne].
  - destruct (Z.ltb_spec pos (Z.of_nat (length l))); [reflexivity|lia].
  - cbn [andb]. rewrite at_blit by lia.
    destruct (Z.leb_spec (pos + 1) j), (Z.ltb_spec j (pos + 1 + (cnt - pos))),
      (Z.ltb_spec j (Z.of_nat (length l))), (Z.ltb_spec pos j), (Z.leb_spec j cnt);
      cbn [andb]; try lia; try reflexivity.
    f_equal. lia.
Qed.

Lemma length_insertAt {A : Type} (d : A) (l : list A) (pos cnt : Z) (x : A) :
  length (insertAt d l pos cnt x) = length l.
Proof. unfold insertAt. now rewrite length_upd, length_blit. Qed.

Section SortedArrays.

Variable cap : nat.
Variable dec : Z -> Z.

Lemma arrChild_found (cnt : Z) (key : list Z) (child : list Node) (b i : Z) :
  arrInv cap dec cnt key child -> 0 <= i < cnt -> dec (at_ 0 key i) = b ->
  arrChild dec cnt key child b = at_ Null child i.
Proof.
  intros (Hk & Hc & Hcnt & Hr & Hs & Hn) Hi Hb. unfold arrChild.
  rewrite (first_index_found _ _ 0 i); [reflexivity|lia| |].
  - apply Z.eqb_eq. exact Hb.
  - intros j Hj. apply Z.eqb_neq. specialize (Hs j i ltac:(lia) ltac:(lia)). lia.
Qed.

Lemma arrChild_absent (cnt : Z) (key : list Z) (child : list Node) (b : Z) :
  0 <= cnt -> (forall i, 0 <= i < cnt -> dec (at_ 0 key i) <> b) ->
  arrChild dec cnt key child b = Null.
Proof.
  intros Hc H. unfold arrChild.
  destruct (first_index _ 0 (Z.to_nat cnt)) as [k|] eqn:E; [|reflexivity].
  apply first_index_some in E. destruct E as (Hk & Hp & _).
  apply Z.eqb_eq in Hp. exfalso. apply (H k); [lia|exact Hp].
Qed.

Lemma arrChild_cases (cnt : Z) (key : list Z) (child : list Node) (b : Z) :
  0 <= cnt ->
  (exists i, 0 <= i < cnt /\ dec (at_ 0 key i) = b) \/
  (forall i, 0 <= i < cnt -> dec (at_ 0 key i) <> b).
Proof.
  intros Hc.
  destruct (first_index (fun i => dec (at_ 0 key i) =? b) 0 (Z.to_nat cnt)) as [k|] eqn:E.
  - apply first_index_some in E. destruct E as (Hk & Hp & _). apply Z.eqb_eq in Hp.
    left. exists k. split; [lia|exact Hp].
  - right. intros i Hi Hb. assert (G := first_index_none _ _ _ E i ltac:(lia)).
    apply Z.eqb_neq in G. contradiction.
Qed.

Lemma arrChild_nonnull (cnt : Z) (key : list Z) (child : list Node) (b : Z) :
  arrInv cap dec cnt key child -> arrChild dec cnt key child b <> Null ->
  exists i, 0 <= i < cnt /\ dec (at_ 0 key i) = b /\
            arrChild dec cnt key child b = at_ Null child i.
Proof.
  intros Hinv Hne. pose proof Hinv as (_ & _ & Hcnt & _).
  destruct (arrChild_cases cnt key child b ltac:(lia)) as [(i & Hi & Hb)|Hno].
  - exists i. repeat split; try lia; auto. now apply arrChild_found.
  - rewrite arrChild_absent in Hne by (auto; lia). contradiction.
Qed.

(** Insertion of the byte [b] (stored as [x]) with child [c] at the place
    that keeps the bytes ascending. *)
Lemma arrInv_insert (cnt : Z) (key : list Z) (child : list Node) (b x pos : Z) (c : Node) :
  arrInv cap dec cnt key child -> cnt < Z.of_nat cap ->
  0 <= b < 256 -> dec x = b -> c <> Null ->
  0 <= pos <= cnt ->
  (forall i, 0 <= i < pos -> dec (at_ 0 key i) < b) ->
  (forall i, pos <= i < cnt -> b < dec (at_ 0 key i)) ->
  arrInv cap dec (cnt + 1) (insertAt 0 key pos cnt x) (insertAt Null child pos cnt c).
Proof.
  intros (Hk & Hc & Hcnt & Hr & Hs & Hn) Hcap Hb Hx Hcn Hpos Hlo Hhi.
  unfold arrInv. rewrite !length_insertAt.
  split; [exact Hk|]. split; [exact Hc|]. split; [lia|].
  assert (Hkey : forall j, 0 <= j < cnt + 1 ->
            dec (at_ 0 (insertAt 0 key pos cnt x) j) =
            if j =? pos then b else if j <? pos then dec (at_ 0 key j)
            else dec (at_ 0 key (j - 1))).
  { intros j Hj. rewrite at_insertAt by lia.
    destruct (Z.eqb_spec j pos); [exact Hx|].
    destruct (Z.ltb_spec pos j), (Z.leb_spec j cnt), (Z.ltb_spec j pos);
      cbn [andb]; try lia; reflexivity. }
  split; [|split].
  - intros i Hi. rewrite Hkey by lia.
    destruct (Z.eqb_spec i pos); [lia|]. destruct (Z.ltb_spec i pos); apply Hr; lia.
  - intros i j Hij Hj. rewrite !Hkey by lia.
    destruct (Z.eqb_spec i pos), (Z.eqb_spec j pos), (Z.ltb_spec i pos), (Z.ltb_spec j pos);
      try lia.
    + apply Hhi. lia.
    + apply Hlo. lia.
    + apply Hs; lia.
    + specialize (Hlo i ltac:(lia)). specialize (Hhi (j - 1) ltac:(lia)). lia.
    + apply Hs; lia.
  - intros i Hi. rewrite at_insertAt by lia.
    destruct (Z.eqb_spec i pos); [exact Hcn|].
    destruct (Z.ltb_spec pos i), (Z.leb_spec i cnt); cbn [andb]; apply Hn; lia.
Qed.

Lemma arrChild_insert (cnt : Z) (key : list Z) (child : list Node) (b x pos : Z) (c : Node)
    (b' : Z) :
  arrInv cap dec cnt key child -> cnt < Z.of_nat cap ->
  0 <= b < 256 -> dec x = b -> c <> Null ->
  0 <= pos <= cnt ->
  (forall i, 0 <= i < pos -> dec (at_ 0 key i) < b) ->
  (forall i, pos <= i < cnt -> b < dec (at_ 0 key i)) ->
  arrChild dec (cnt + 1) (insertAt 0 key pos cnt x) (insertAt Null child pos cnt c) b' =
  if b' =? b then c else arrChild dec cnt key child b'.
Proof.
  intros Hinv Hcap Hb Hx Hcn Hpos Hlo Hhi.
  pose proof (arrInv_insert cnt key child b x pos c Hinv Hcap Hb Hx Hcn Hpos Hlo Hhi) as Hinv'.
  pose proof Hinv as (Hk & Hc & Hcnt & Hr & Hs & Hn).
  destruct (Z.eqb_spec b' b) as [->|Hne].
  - rewrite (arrChild_found _ _ _ _ pos Hinv') by
      (try lia; rewrite at_insertAt by lia; now rewrite Z.eqb_refl).
    rewrite at_insertAt by lia. now rewrite Z.eqb_refl.
  - destruct (arrChild_cases cnt key child b' ltac:(lia)) as [(i & Hi & Hbi)|Hno].
    + rewrite (arrChild_found _ _ _ _ i Hinv) by (auto; lia).
      destruct (Z.ltb_spec i pos).
      * rewrite (arrChild_found _ _ _ _ i Hinv').
        -- rewrite at_insertAt by lia.
           destruct (Z.eqb_spec i pos); [lia|]. destruct (Z.ltb_spec pos i); [lia|].
           reflexivity.
        -- lia.
        -- rewrite at_insertAt by lia.
           destruct (Z.eqb_spec i pos); [lia|]. destruct (Z.ltb_spec pos i); [lia|].
           exact Hbi.
      * rewrite (arrChild_found _ _ _ _ (i + 1) Hinv').
        -- rewrite at_insertAt by lia.
           destruct (Z.eqb_spec (i + 1) pos); [lia|].
           destruct (Z.ltb_spec pos (i + 1)), (Z.leb_spec (i + 1) cnt); try lia.
           cbn [andb]. f_equal. lia.
        -- lia.
        -- rewrite at_insertAt by lia.
           destruct (Z.eqb_spec (i + 1) pos); [lia|].
           destruct (Z.ltb_spec pos (i + 1)), (Z.leb_spec (i + 1) cnt); try lia.
           cbn [andb]. replace (i + 1 - 1) with i by lia. exact Hbi.
    + rewrite (arrChild_absent cnt) by (auto; lia).
      apply arrChild_absent; [lia|].
      intros i Hi. rewrite at_insertAt by lia.
      destruct (Z.eqb_spec i pos); [congruence|].
      destruct (Z.ltb_spec pos i), (Z.leb_spec i cnt); cbn [andb]; try lia; apply Hno; lia.
Qed.

(** Replacement of the child in an occupied slot. *)
Lemma arrInv_setSlot (cnt : Z) (key : list Z) (child : list Node) (i : Z) (c : Node) :
  arrInv cap dec cnt key child -> 0 <= i < cnt -> c <> Null ->
  arrInv cap dec cnt key (upd Null child i c).
Proof.
  intros (Hk & Hc & Hcnt & Hr & Hs & Hn) Hi Hcn.
  unfold arrInv. rewrite length_upd.
  split; [exact Hk|]. split; [exact Hc|]. split; [exact Hcnt|].
  split; [exact Hr|]. split; [exact Hs|].
  intros j Hj. rewrite at_upd by lia.
  destruct (Z.eqb_spec j i), (Z.ltb_spec j (Z.of_nat (length child))); cbn [andb]; auto.
Qed.

Lemma arrChild_setSlot (cnt : Z) (key : list Z) (child : list Node) (i : Z) (c : Node) (b' : Z) :
  arrInv cap dec cnt key child -> 0 <= i < cnt -> c <> Null ->
  arrChild dec cnt key (upd Null child i c) b' =
  if b' =? dec (at_ 0 key i) then c else arrChild dec cnt key child b'.
Proof.
  intros Hinv Hi Hcn.
  pose proof (arrInv_setSlot cnt key child i c Hinv Hi Hcn) as Hinv'.
  pose proof Hinv as (Hk & Hc & Hcnt & Hr & Hs & Hn).
  destruct (Z.eqb_spec b' (dec (at_ 0 key i))) as [->|Hne].
  - rewrite (arrChild_found _ _ _ _ i Hinv') by (auto; lia).
    rewrite at_upd by lia. rewrite Z.eqb_refl.
    destruct (Z.ltb_spec i (Z.of_nat (length child))); [reflexivity|lia].
  - destruct (arrChild_cases cnt key child b' ltac:(lia)) as [(j & Hj & Hbj)|Hno].
    + rewrite (arrChild_found _ _ _ _ j Hinv) by (auto; lia).
      rewrite (arrChild_found _ _ _ _ j Hinv') by (auto; lia).
      rewrite at_upd by lia. destruct (Z.eqb_spec j i); [congruence|reflexivity].
    + rewrite !arrChild_absent by (auto; lia). reflexivity.
Qed.

End SortedArrays.

(** Arrays that agree on the first [cnt] entries. *)
Lemma arrInv_transfer (cap cap' : nat) (dec dec' : Z -> Z) (cnt : Z)
    (key key' : list Z) (child child' : list Node) :
  arrInv cap dec cnt key child ->
  length key' = cap' -> length child' = cap' -> cnt <= Z.of_nat cap' ->
  (forall i, 0 <= i < cnt -> dec' (at_ 0 key' i) = dec (at_ 0 key i)) ->
  (forall i, 0 <= i < cnt -> at_ Null child' i = at_ Null child i) ->
  arrInv cap' dec' cnt key' child'.
Proof.
  intros (Hk & Hc & Hcnt & Hr & Hs & Hn) Hk' Hc' Hcap Hkey Hch.
  unfold arrInv.
  split; [exact Hk'|]. split; [exact Hc'|]. split; [lia|]. split; [|split].
  - intros i Hi. rewrite Hkey by lia. apply Hr; lia.
  - intros i j Hij Hj. rewrite !Hkey by lia. apply Hs; lia.
  - intros i Hi. rewrite Hch by lia. apply Hn; lia.
Qed.

Lemma arrChild_transfer (dec dec' : Z -> Z) (cnt : Z)
    (key key' : list Z) (child child' : list Node) (b : Z) :
  (forall i, 0 <= i < cnt -> dec' (at_ 0 key' i) = dec (at_ 0 key i)) ->
  (forall i, 0 <= i < cnt -> at_ Null child' i = at_ Null child i) ->
  arrChild dec' cnt key' child' b = arrChild dec cnt key child b.
Proof.
  intros Hkey Hch. unfold arrChild.
  rewrite (first_index_ext (fun i => dec' (at_ 0 key' i) =? b)
             (fun i => dec (at_ 0 key i) =? b)) by (intros i Hi; rewrite Hkey by lia; reflexivity).
  destruct (first_index _ 0 (Z.to_nat cnt)) as [k|] eqn:E; [|reflexivity].
  apply first_index_some in E. apply Hch. lia.
Qed.

(** ** Headers *)

Lemma samePrefix_refl (h : Header) : length (prefix h) = 9%nat -> samePrefix h h.
Proof. intros H. unfold samePrefix. auto. Qed.

Lemma samePrefix_count (h : Header) (c : Z) :
  length (prefix h) = 9%nat -> samePrefix h (mkHeader (prefixLength h) c (prefix h)).
Proof. intros H. unfold samePrefix. cbn. auto. Qed.

Lemma samePrefix_trans (h1 h2 h3 : Header) :
  samePrefix h1 h2 -> samePrefix h2 h3 -> samePrefix h1 h3.
Proof.
  intros (A1 & A2 & A3) (B1 & B2 & B3). unfold samePrefix.
  split; [congruence|]. split; [exact B2|].
  intros i Hi H9. rewrite B3 by lia. apply A3; lia.
Qed.

Lemma samePrefix_copy (h : Header) (c : Z) :
  samePrefix h (copyPrefix h (mkHeader 0 c (repeat 0 9))).
Proof.
  unfold samePrefix, copyPrefix. cbn [prefixLength prefix count].
  split; [reflexivity|]. split; [now rewrite length_blit|].
  intros i Hi H9. rewrite at_blit by lia. unfold maxPrefixLength.
  rewrite repeat_length.
  destruct (Z.leb_spec 0 i), (Z.ltb_spec i (0 + Z.min (prefixLength h) 9)),
    (Z.ltb_spec i (Z.of_nat 9)); cbn [andb]; try lia.
  f_equal. lia.
Qed.

Lemma u16_small (x : Z) : 0 <= x < 65536 -> u16 x = x.
Proof. intros H. unfold u16. now apply Z.mod_small. Qed.

(** ** Node256 *)

Lemma childAt_Node256 (h : Header) (child : list Node) (b : Z) :
  childAt (Node256 h child) b = at_ Null child b.
Proof. reflexivity. Qed.

Lemma nonnull_upd (child : list Node) (i : Z) (c : Node) (j : Z) :
  0 <= j -> j <> i ->
  negb (isNull (at_ Null (upd Null child i c) j)) = negb (isNull (at_ Null child j)).
Proof.
  intros Hj Hne. rewrite at_upd by lia.
  destruct (Z.eqb_spec j i); [contradiction|reflexivity].
Qed.

Lemma isNull_false (c : Node) : c <> Null -> isNull c = false.
Proof. destruct c; intros H; try reflexivity. contradiction. Qed.

Lemma isNull_true (c : Node) : isNull c = true -> c = Null.
Proof. destruct c; intros H; try discriminate. reflexivity. Qed.

Lemma insertNode256_spec (h : Header) (child : list Node) (b : Z) (c : Node) :
  dirInv (count h) child -> length (prefix h) = 9%nat ->
  0 <= b < 256 -> at_ Null child b = Null -> c <> Null ->
  inserted (Node256 h child) h b c (insertNode256 h child b c).
Proof.
  intros (Hlen & Hcnt) Hp Hb Hnull Hc.
  assert (Hlt : count h < 256).
  { rewrite Hcnt. apply (countUpTo_false _ 256 b); [lia|]. now rewrite Hnull. }
  pose proof (countUpTo_bounds (fun b => negb (isNull (at_ Null child b))) 256) as Hbd.
  rewrite <- Hcnt in Hbd.
  unfold insertNode256, inserted. rewrite u16_small by lia.
  eexists. split; [reflexivity|]. cbn [count prefixLength prefix nodeInv minCount].
  split; [|split; [reflexivity|split; [now apply samePrefix_count|split; [lia|]]]].
  - unfold dirInv. rewrite length_upd. split; [exact Hlen|].
    rewrite (countUpTo_set (fun b0 => negb (isNull (at_ Null child b0))) _ 256 b);
      [|lia|intros i Hi Hne; apply nonnull_upd; lia].
    rewrite at_upd by lia. rewrite Z.eqb_refl, Hlen.
    destruct (Z.ltb_spec b (Z.of_nat 256)); [|lia]. cbn [andb].
    rewrite Hnull, (isNull_false c Hc). cbn [isNull negb Z.b2z]. lia.
  - intros b' Hb'. rewrite !childAt_Node256. rewrite at_upd by lia. rewrite Hlen.
    destruct (Z.eqb_spec b' b), (Z.ltb_spec b' (Z.of_nat 256)); cbn [andb]; try lia;
      reflexivity.
Qed.

(** ** Node48 *)

Lemma childAt_Node48 (h : Header) (childIndex : list Z) (child : list Node) (b : Z) :
  childAt (Node48 h childIndex child) b =
  if at_ 0 childIndex b =? emptyMarker then Null else at_ Null child (at_ 0 childIndex b).
Proof.
  unfold childAt, findChild. now destruct (at_ 0 childIndex b =? emptyMarker).
Qed.

Lemma idxInv_free_slot (cnt : Z) (childIndex : list Z) (child : list Node) :
  idxInv cnt childIndex child -> cnt < NODE48_SIZE ->
  exists pos,
    (if isNull (at_ Null child cnt) then Ok cnt
     else match first_index (fun p => isNull (at_ Null child p)) 0 (length child) with
          | Some p => Ok p
          | None => Fail OutOfBounds
          end) = Ok pos /\
    0 <= pos < NODE48_SIZE /\ at_ Null child pos = Null.
Proof.
  intros (H1 & H2 & H3 & H4 & H5 & H6 & H7 & H8) Hlt.
  pose proof (countUpTo_bounds (fun s => negb (isNull (at_ Null child s)))
                (Z.to_nat NODE48_SIZE)) as Hbd.
  rewrite <- H8 in Hbd.
  destruct (isNull (at_ Null child cnt)) eqn:E.
  - exists cnt. split; [reflexivity|]. split; [lia|]. now apply isNull_true.
  - destruct (countUpTo_lt_exists (fun s => negb (isNull (at_ Null child s)))
                (Z.to_nat NODE48_SIZE)) as (s & Hs & Hnull).
    { rewrite <- H8. unfold NODE48_SIZE in *. lia. }
    apply negb_false_iff in Hnull.
    rewrite H2.
    destruct (first_index (fun p => isNull (at_ Null child p)) 0 (Z.to_nat NODE48_SIZE))
      as [p|] eqn:F.
    + apply first_index_some in F. destruct F as (F1 & F2 & _).
      exists p. split; [reflexivity|]. split; [unfold NODE48_SIZE in *; lia|].
      now apply isNull_true.
    + rewrite (first_index_none _ _ _ F s) in Hnull by lia. discriminate.
Qed.

Lemma idxInv_insert (cnt : Z) (childIndex : list Z) (child : list Node) (b pos : Z) (c : Node) :
  idxInv cnt childIndex child -> 0 <= b < 256 -> at_ 0 childIndex b = emptyMarker ->
  0 <= pos < NODE48_SIZE -> at_ Null child pos = Null -> c <> Null ->
  idxInv (cnt + 1) (upd 0 childIndex b pos) (upd Null child pos c).
Proof.
  intros (H1 & H2 & H3 & H4 & H5 & H6 & H7 & H8) Hb Hemp Hpos Hnull Hc.
  unfold emptyMarker, NODE48_SIZE in *. change (Z.to_nat 24) with 24%nat in *.
  assert (Hci : forall j, 0 <= j < 256 ->
            at_ 0 (upd 0 childIndex b pos) j = if j =? b then pos else at_ 0 childIndex j).
  { intros j Hj. rewrite at_upd by lia. rewrite H1.
    destruct (Z.eqb_spec j b), (Z.ltb_spec j (Z.of_nat 256)); cbn [andb]; try lia;
      reflexivity. }
  assert (Hch : forall s, 0 <= s < 24 ->
            at_ Null (upd Null child pos c) s = if s =? pos then c else at_ Null child s).
  { intros s Hs. rewrite at_upd by lia. rewrite H2.
    destruct (Z.eqb_spec s pos), (Z.ltb_spec s (Z.of_nat 24)); cbn [andb]; try lia;
      reflexivity. }
  assert (Hfree : forall j, 0 <= j < 256 -> at_ 0 childIndex j <> pos).
  { intros j Hj E. apply (H4 j Hj); [lia|]. now rewrite E. }
  unfold idxInv. rewrite !length_upd. unfold emptyMarker, NODE48_SIZE.
  change (Z.to_nat 24) with 24%nat.
  split; [exact H1|]. split; [exact H2|]. split; [|split; [|split; [|split; [|split]]]].
  - intros j Hj. rewrite Hci by lia. destruct (Z.eqb_spec j b); [lia|]. apply H3; lia.
  - intros j Hj. rewrite Hci by lia. destruct (Z.eqb_spec j b) as [->|Hne].
    + intros _. rewrite Hch by lia. now rewrite Z.eqb_refl.
    + intros Hj24. pose proof (H3 j Hj). rewrite Hch by lia.
      destruct (Z.eqb_spec (at_ 0 childIndex j) pos); [exact Hc|]. now apply H4.
  - intros j j' Hj Hj'. rewrite !Hci by lia.
    destruct (Z.eqb_spec j b), (Z.eqb_spec j' b); try congruence.
    + intros _ E. exfalso. apply (Hfree j'); auto.
    + intros _ E. exfalso. apply (Hfree j); auto.
    + apply H5; lia.
  - intros s Hs. rewrite Hch by lia. destruct (Z.eqb_spec s pos) as [->|Hne].
    + intros _. exists b. split; [lia|]. rewrite Hci by lia. now rewrite Z.eqb_refl.
    + intros Hn. destruct (H6 s Hs Hn) as (j & Hj & Ej). exists j. split; [lia|].
      rewrite Hci by lia. destruct (Z.eqb_spec j b); [|exact Ej]. subst j. lia.
  - rewrite (countUpTo_set (fun j => negb (at_ 0 childIndex j =? 24)) _ 256 b); [|lia|].
    + rewrite Hci by lia. rewrite Z.eqb_refl, Hemp.
      destruct (Z.eqb_spec pos 24); [lia|]. rewrite Z.eqb_refl. cbn [negb Z.b2z]. lia.
    + intros i Hi Hne. rewrite Hci by lia. destruct (Z.eqb_spec i b); [contradiction|].
      reflexivity.
  - rewrite (countUpTo_set (fun s => negb (isNull (at_ Null child s))) _ 24 pos); [|lia|].
    + rewrite Hch by lia. rewrite Z.eqb_refl, Hnull, (isNull_false c Hc).
      cbn [isNull negb Z.b2z]. lia.
    + intros i Hi Hne. rewrite Hch by lia. destruct (Z.eqb_spec i pos); [contradiction|].
      reflexivity.
Qed.

Lemma idxInv_count_le (cnt : Z) (childIndex : list Z) (child : list Node) :
  idxInv cnt childIndex child -> 0 <= cnt <= NODE48_SIZE.
Proof.
  intros (H1 & H2 & H3 & H4 & H5 & H6 & H7 & H8).
  pose proof (countUpTo_bounds (fun s => negb (isNull (at_ Null child s)))
                (Z.to_nat NODE48_SIZE)) as Hbd.
  rewrite <- H8 in Hbd. unfold NODE48_SIZE in *. lia.
Qed.

Lemma at_grow48 (childIndex : list Z) (child : list Node) (b : Z) :
  0 <= b < 256 ->
  at_ Null (grow48 childIndex child) b =
  if at_ 0 childIndex b =? emptyMarker then Null else at_ Null child (at_ 0 childIndex b).
Proof. intros Hb. unfold grow48. now rewrite at_map_zseq by lia. Qed.

Lemma dirInv_grow48 (cnt : Z) (childIndex : list Z) (child : list Node) :
  idxInv cnt childIndex child -> dirInv cnt (grow48 childIndex child).
Proof.
  intros (H1 & H2 & H3 & H4 & H5 & H6 & H7 & H8). unfold dirInv.
  split; [unfold grow48; now rewrite length_map, length_zseq|].
  rewrite H7. apply countUpTo_ext. intros i Hi. rewrite at_grow48 by lia.
  destruct (Z.eqb_spec (at_ 0 childIndex i) emptyMarker); [reflexivity|].
  cbn [negb]. symmetry. apply negb_true_iff. apply isNull_false. now apply H4.
Qed.

Lemma insertNode48_spec (h : Header) (childIndex : list Z) (child : list Node)
    (b : Z) (c : Node) :
  idxInv (count h) childIndex child -> length (prefix h) = 9%nat ->
  0 <= b < 256 -> at_ 0 childIndex b = emptyMarker -> c <> Null ->
  exists n', insertNode48 h childIndex child b c = Ok n' /\
             inserted (Node48 h childIndex child) h b c n'.
Proof.
  intros Hinv Hp Hb Hemp Hc. pose proof (idxInv_count_le _ _ _ Hinv) as Hcnt.
  unfold insertNode48. destruct (Z.ltb_spec (count h) NODE48_SIZE) as [Hroom|Hfull].
  - destruct (idxInv_free_slot _ _ _ Hinv Hroom) as (pos & Hpos & Hrange & Hnull).
    rewrite Hpos. cbn [bind]. eexists. split; [reflexivity|].
    unfold NODE48_SIZE in *. rewrite u16_small by lia.
    unfold inserted. eexists. split; [reflexivity|].
    cbn [count prefixLength prefix nodeInv minCount].
    split; [now apply idxInv_insert|].
    split; [reflexivity|]. split; [now apply samePrefix_count|]. split; [lia|].
    intros b' Hb'. rewrite !childAt_Node48.
    destruct Hinv as (H1 & H2 & H3 & H4 & H5 & H6 & H7 & H8).
    unfold emptyMarker, NODE48_SIZE in *. change (Z.to_nat 24) with 24%nat in *.
    rewrite (at_upd 0 childIndex) by lia. rewrite H1.
    destruct (Z.eqb_spec b' b) as [->|Hne].
    + destruct (Z.ltb_spec b (Z.of_nat 256)); [|lia]. cbn [andb].
      destruct (Z.eqb_spec pos 24); [lia|].
      rewrite at_upd by lia. rewrite Z.eqb_refl, H2.
      destruct (Z.ltb_spec pos (Z.of_nat 24)); [reflexivity|lia].
    + cbn [andb]. destruct (Z.eqb_spec (at_ 0 childIndex b') 24) as [E|E]; [reflexivity|].
      pose proof (H3 b' Hb'). rewrite at_upd by lia.
      destruct (Z.eqb_spec (at_ 0 childIndex b') pos) as [E2|E2]; [|reflexivity].
      exfalso. apply (H4 b' Hb' E). now rewrite E2.
  - assert (Hc24 : count h = NODE48_SIZE) by lia.
    pose proof (dirInv_grow48 _ _ _ Hinv) as Hdir.
    set (h' := copyPrefix h (mkHeader 0 (count h) (repeat 0 9))).
    assert (Hcnt' : count h' = count h) by reflexivity.
    assert (Hsame : samePrefix h h') by apply samePrefix_copy.
    rewrite <- Hcnt' in Hdir.
    assert (Hnull : at_ Null (grow48 childIndex child) b = Null).
    { rewrite at_grow48 by lia. rewrite Hemp. now rewrite Z.eqb_refl. }
    pose proof (insertNode256_spec h' (grow48 childIndex child) b c Hdir
                  (proj1 (proj2 Hsame)) Hb Hnull Hc) as (h2 & G1 & G2 & G3 & G4 & G5 & G6).
    eexists. split; [reflexivity|]. exists h2.
    split; [exact G1|]. split; [exact G2|]. split; [congruence|].
    split; [eapply samePrefix_trans; eauto|]. split.
    + intros _. rewrite G3, Hcnt', Hc24. unfold insertNode256, NODE48_SIZE. cbn. lia.
    + intros b' Hb'. rewrite G6 by lia. rewrite childAt_Node256, childAt_Node48.
      rewrite at_grow48 by lia. reflexivity.
Qed.

(** ** Node4 and Node16: search and insertion *)

Lemma inserted_via (n : Node) (h : Header) (m : Node) (hm : Header) (b : Z) (c n' : Node) :
  count hm = count h -> samePrefix h hm ->
  (forall b', 0 <= b' < 256 -> childAt m b' = childAt n b') ->
  (minCount n <= count h -> minCount m <= count hm) ->
  inserted m hm b c n' -> inserted n h b c n'.
Proof.
  intros Hc Hs Hch Hmin (h' & G1 & G2 & G3 & G4 & G5 & G6).
  exists h'. split; [exact G1|]. split; [exact G2|]. split; [congruence|].
  split; [eapply samePrefix_trans; eauto|]. split; [auto|].
  intros b' Hb'. rewrite G6 by lia. now rewrite Hch by lia.
Qed.

(** ** Node16 *)

Lemma lanes_eq (x : Z) (key : list Z) (i : Z) :
  0 <= i < 16 ->
  nth (Z.to_nat i) (cmpeq_epi8 (set1_epi8 x) key) false = (x =? at_ 0 key i).
Proof.
  intros Hi. change (nth (Z.to_nat i) (cmpeq_epi8 (set1_epi8 x) key) false)
    with (at_ false (cmpeq_epi8 (set1_epi8 x) key) i).
  unfold cmpeq_epi8. rewrite at_map_zseq by lia.
  unfold set1_epi8. rewrite at_repeat by lia. reflexivity.
Qed.

Lemma lanes_lt (x : Z) (key : list Z) (i : Z) :
  0 <= i < 16 ->
  nth (Z.to_nat i) (cmplt_epi8 (set1_epi8 x) key) false = (int8 x <? int8 (at_ 0 key i)).
Proof.
  intros Hi. change (nth (Z.to_nat i) (cmplt_epi8 (set1_epi8 x) key) false)
    with (at_ false (cmplt_epi8 (set1_epi8 x) key) i).
  unfold cmplt_epi8. rewrite at_map_zseq by lia.
  unfold set1_epi8. rewrite at_repeat by lia. reflexivity.
Qed.

Lemma mask_low_nonneg (c : Z) : 0 <= c -> 0 <= Z.shiftl 1 c - 1.
Proof.
  intros Hc. rewrite Z.shiftl_1_l. pose proof (Z.pow_pos_nonneg 2 c). lia.
Qed.

Lemma mask_shr_nonneg (c : Z) : 0 <= Z.shiftr 65535 (16 - c).
Proof. apply Z.shiftr_nonneg. lia. Qed.

Lemma findChild_Node16 (h : Header) (key : list Z) (child : list Node) (b : Z) :
  0 <= count h <= 16 ->
  findChild (Node16 h key child) b =
  Ok (first_index (fun i => flipSign (at_ 0 key i) =? b) 0 (Z.to_nat (count h))).
Proof.
  intros Hc. unfold findChild. cbv zeta. f_equal.
  pose proof (simd_first (cmpeq_epi8 (set1_epi8 (flipSign b)) key)
                (Z.shiftl 1 (count h) - 1) (count h) Hc
                (mask_low_nonneg _ (proj1 Hc)) (mask_low _ (proj1 Hc))) as H.
  cbv zeta in H. rewrite H. apply first_index_ext. intros i Hi.
  rewrite lanes_eq by lia.
  destruct (Z.eqb_spec (flipSign b) (at_ 0 key i)) as [E|E],
    (Z.eqb_spec (flipSign (at_ 0 key i)) b) as [F|F]; try reflexivity.
  - exfalso. apply F. rewrite <- E. apply flipSign_invol.
  - exfalso. apply E. rewrite <- F. now rewrite flipSign_invol.
Qed.

Lemma childAt_Node4 (h : Header) (key : list Z) (child : list Node) (b : Z) :
  childAt (Node4 h key child) b = arrChild (fun x => x) (count h) key child b.
Proof.
  unfold childAt, findChild, arrChild.
  now destruct (first_index _ 0 (Z.to_nat (count h))).
Qed.

Lemma childAt_Node16 (h : Header) (key : list Z) (child : list Node) (b : Z) :
  0 <= count h <= 16 ->
  childAt (Node16 h key child) b = arrChild flipSign (count h) key child b.
Proof.
  intros Hc. unfold childAt. rewrite findChild_Node16 by lia. unfold arrChild.
  now destruct (first_index _ 0 (Z.to_nat (count h))).
Qed.

(** The place of a new byte among ascending bytes. *)
Lemma insert_pos_spec (cap : nat) (dec : Z -> Z) (cnt : Z) (key : list Z)
    (child : list Node) (b : Z) (p : Z -> bool) :
  arrInv cap dec cnt key child ->
  (forall i, 0 <= i < cnt -> dec (at_ 0 key i) <> b) ->
  (forall i, 0 <= i < cnt -> p i = (b <? dec (at_ 0 key i))) ->
  let pos := match first_index p 0 (Z.to_nat cnt) with Some i => i | None => cnt end in
  0 <= pos <= cnt /\
  (forall i, 0 <= i < pos -> dec (at_ 0 key i) < b) /\
  (forall i, pos <= i < cnt -> b < dec (at_ 0 key i)).
Proof.
  intros (Hk & Hc & Hcnt & Hr & Hs & Hn) Habs Hp.
  destruct (first_index p 0 (Z.to_nat cnt)) as [k|] eqn:E; cbv zeta.
  - apply first_index_some in E. destruct E as (Hk1 & Hk2 & Hk3).
    rewrite Hp in Hk2 by lia. apply Z.ltb_lt in Hk2.
    split; [lia|]. split.
    + intros i Hi. specialize (Hk3 i ltac:(lia)). rewrite Hp in Hk3 by lia.
      apply Z.ltb_ge in Hk3. specialize (Habs i ltac:(lia)). lia.
    + intros i Hi. destruct (Z.eq_dec i k); [subst; exact Hk2|].
      specialize (Hs k i ltac:(lia) ltac:(lia)). lia.
  - split; [lia|]. split; [|intros; lia].
    intros i Hi. assert (G := first_index_none _ _ _ E i ltac:(lia)).
    rewrite Hp in G by lia. apply Z.ltb_ge in G. specialize (Habs i ltac:(lia)). lia.
Qed.

Lemma childAt_absent (cap : nat) (dec : Z -> Z) (cnt : Z) (key : list Z)
    (child : list Node) (b : Z) :
  arrInv cap dec cnt key child -> arrChild dec cnt key child b = Null ->
  forall i, 0 <= i < cnt -> dec (at_ 0 key i) <> b.
Proof.
  intros Hinv Hnull i Hi E.
  rewrite (arrChild_found cap dec cnt key child b i Hinv Hi E) in Hnull.
  destruct Hinv as (_ & _ & _ & _ & _ & Hn). now apply (Hn i).
Qed.

(** The grow loop of [insertNode16]. *)
Lemma grow16_spec (key : list Z) (child : list Node) (cnt : Z) (n : nat) :
  arrInv 16 flipSign cnt key child ->
  forall i ci, 0 <= i -> i + Z.of_nat n = cnt -> grown16 key i ci ->
  grown16 key cnt (grow16 key ci i n).
Proof.
  intros Hinv. pose proof Hinv as (Hk & Hc & Hcnt & Hr & Hs & Hn).
  induction n as [|n IH]; intros i ci Hi Hsum Hg.
  - cbn [grow16]. replace cnt with i by lia. exact Hg.
  - cbn [grow16]. apply IH; [lia|lia|].
    destruct Hg as (G1 & G2 & G3 & G4).
    set (bi := flipSign (at_ 0 key i)).
    assert (Hbi : 0 <= bi < 256) by (apply Hr; lia).
    assert (Hfree : at_ 0 ci bi = emptyMarker).
    { destruct (G2 bi Hbi) as [E|(E1 & E2)]; [exact E|].
      exfalso. specialize (Hs (at_ 0 ci bi) i ltac:(lia) ltac:(lia)). fold bi in Hs. lia. }
    assert (Hci : forall b, 0 <= b < 256 ->
              at_ 0 (upd 0 ci bi i) b = if b =? bi then i else at_ 0 ci b).
    { intros b Hb. rewrite at_upd by lia. rewrite G1.
      destruct (Z.eqb_spec b bi), (Z.ltb_spec b (Z.of_nat 256)); cbn [andb]; try lia;
        reflexivity. }
    unfold grown16. rewrite length_upd. split; [exact G1|]. split; [|split].
    + intros b Hb. rewrite Hci by lia. destruct (Z.eqb_spec b bi) as [->|Hne].
      * right. split; [lia|reflexivity].
      * destruct (G2 b Hb) as [E|(E1 & E2)]; [now left|right]. split; [lia|exact E2].
    + intros j Hj. assert (Hbj : 0 <= flipSign (at_ 0 key j) < 256) by (apply Hr; lia).
      rewrite Hci by lia.
      destruct (Z.eqb_spec (flipSign (at_ 0 key j)) bi) as [E|E].
      * destruct (Z.eq_dec j i); [lia|].
        specialize (Hs j i ltac:(lia) ltac:(lia)). fold bi in Hs. lia.
      * destruct (Z.eq_dec j i) as [->|Hji]; [exfalso; apply E; reflexivity|].
        apply G3. lia.
    + rewrite (countUpTo_set (fun b => negb (at_ 0 ci b =? emptyMarker)) _ 256 bi); [|lia|].
      * rewrite Hci by lia. rewrite Z.eqb_refl, Hfree, Z.eqb_refl.
        unfold emptyMarker, NODE48_SIZE in *.
        destruct (Z.eqb_spec i 24); [lia|]. cbn [negb Z.b2z]. lia.
      * intros b Hb Hne. rewrite Hci by lia.
        destruct (Z.eqb_spec b bi); [contradiction|reflexivity].
Qed.

Lemma grown16_init (key : list Z) : grown16 key 0 (repeat emptyMarker 256).
Proof.
  unfold grown16. rewrite repeat_length. split; [reflexivity|]. split; [|split].
  - intros b Hb. left. apply at_repeat. lia.
  - intros j Hj. lia.
  - vm_compute. reflexivity.
Qed.

Lemma idxInv_grown16 (key : list Z) (child : list Node) (ci : list Z) :
  arrInv 16 flipSign 16 key child -> grown16 key 16 ci ->
  idxInv 16 ci (blit Null child 0 (repeat Null (Z.to_nat NODE48_SIZE)) 0 16) /\
  forall b, 0 <= b < 256 ->
    (if at_ 0 ci b =? emptyMarker then Null
     else at_ Null (blit Null child 0 (repeat Null (Z.to_nat NODE48_SIZE)) 0 16) (at_ 0 ci b)) =
    arrChild flipSign 16 key child b.
Proof.
  intros Hinv (G1 & G2 & G3 & G4). pose proof Hinv as (Hk & Hc & Hcnt & Hr & Hs & Hn).
  unfold emptyMarker, NODE48_SIZE in *. change (Z.to_nat 24) with 24%nat in *.
  set (child' := blit Null child 0 (repeat Null 24) 0 16).
  assert (Hch : forall s, 0 <= s < 24 ->
            at_ Null child' s = if s <? 16 then at_ Null child s else Null).
  { intros s Hs'. unfold child'. rewrite at_blit by lia. rewrite repeat_length.
    destruct (Z.leb_spec 0 s), (Z.ltb_spec s (0 + 16)), (Z.ltb_spec s (Z.of_nat 24)),
      (Z.ltb_spec s 16); cbn [andb]; try lia.
    - f_equal. lia.
    - apply at_repeat_default. }
  split.
  - unfold idxInv, emptyMarker, NODE48_SIZE. change (Z.to_nat 24) with 24%nat.
    split; [exact G1|]. split; [unfold child'; now rewrite length_blit, repeat_length|].
    split; [|split; [|split; [|split; [|split]]]].
    + intros b Hb. destruct (G2 b Hb) as [E|(E1 & E2)]; lia.
    + intros b Hb Hne. destruct (G2 b Hb) as [E|(E1 & E2)]; [contradiction|].
      rewrite Hch by lia. destruct (Z.ltb_spec (at_ 0 ci b) 16); [|lia]. apply Hn. lia.
    + intros b b' Hb Hb' Hne E.
      destruct (G2 b Hb) as [E0|(E1 & E2)]; [contradiction|].
      destruct (G2 b' Hb') as [E0|(E1' & E2')]; [congruence|].
      rewrite <- E2, <- E2', E. reflexivity.
    + intros s Hs' Hnn. rewrite Hch in Hnn by lia.
      destruct (Z.ltb_spec s 16); [|contradiction].
      exists (flipSign (at_ 0 key s)). split; [apply Hr; lia|]. apply G3. lia.
    + symmetry. exact G4.
    + rewrite (countUpTo_ext _ (fun s => s <? 16)); [reflexivity|].
      intros s Hs'. rewrite Hch by lia. destruct (Z.ltb_spec s 16); [|reflexivity].
      apply negb_true_iff. apply isNull_false. apply Hn. lia.
  - intros b Hb. destruct (G2 b Hb) as [E|(E1 & E2)].
    + rewrite E, Z.eqb_refl. symmetry. apply arrChild_absent; [lia|].
      intros i Hi Ei. specialize (G3 i Hi). rewrite Ei in G3. lia.
    + destruct (Z.eqb_spec (at_ 0 ci b) 24); [lia|].
      rewrite Hch by lia. destruct (Z.ltb_spec (at_ 0 ci b) 16); [|lia].
      symmetry. apply (arrChild_found 16 flipSign 16 key child b _ Hinv); [lia|exact E2].
Qed.

Lemma int8_stored (x : Z) : 0 <= flipSign x < 256 -> int8 x = flipSign x - 128.
Proof.
  intros H. rewrite <- (flipSign_invol x) at 1. now apply int8_flipSign.
Qed.

Lemma insertNode16_spec (h : Header) (key : list Z) (child : list Node) (b : Z) (c : Node) :
  arrInv 16 flipSign (count h) key child -> length (prefix h) = 9%nat ->
  0 <= b < 256 -> arrChild flipSign (count h) key child b = Null -> c <> Null ->
  exists n', insertNode16 h key child b c = Ok n' /\
             inserted (Node16 h key child) h b c n'.
Proof.
  intros Hinv Hp Hb Hnull Hc. pose proof Hinv as (Hk & Hch & Hcnt & Hr & Hs & Hn).
  pose proof (childAt_absent _ _ _ _ _ _ Hinv Hnull) as Habs.
  unfold insertNode16. destruct (Z.ltb_spec (count h) 16) as [Hroom|Hfull].
  - cbv zeta.
    pose proof (simd_first (cmplt_epi8 (set1_epi8 (flipSign b)) key)
                  (Z.shiftr 65535 (16 - count h)) (count h) ltac:(lia)
                  (mask_shr_nonneg _) (mask_shr (count h) ltac:(lia))) as Hsimd.
    cbv zeta in Hsimd.
    set (bf := Z.land (movemask_epi8 (cmplt_epi8 (set1_epi8 (flipSign b)) key))
                 (Z.shiftr 65535 (16 - count h))) in *.
    set (p := fun i : Z => nth (Z.to_nat i) (cmplt_epi8 (set1_epi8 (flipSign b)) key) false)
      in *.
    assert (Hpos : (if bf =? 0 then count h else ctz bf) =
                   match first_index p 0 (Z.to_nat (count h)) with
                   | Some i => i | None => count h end).
    { rewrite <- Hsimd. now destruct (bf =? 0). }
    rewrite Hpos.
    destruct (insert_pos_spec 16 flipSign (count h) key child b p Hinv Habs)
      as (P1 & P2 & P3).
    { intros i Hi. unfold p. rewrite lanes_lt by lia.
      rewrite int8_flipSign by lia. rewrite int8_stored by (apply Hr; lia).
      destruct (Z.ltb_spec (b - 128) (flipSign (at_ 0 key i) - 128)),
        (Z.ltb_spec b (flipSign (at_ 0 key i))); try lia; reflexivity. }
    set (pos := match first_index p 0 (Z.to_nat (count h)) with
                | Some i => i | None => count h end) in *.
    eexists. split; [reflexivity|]. rewrite u16_small by lia.
    exists (mkHeader (prefixLength h) (count h + 1) (prefix h)).
    split; [reflexivity|]. cbn [count prefixLength prefix nodeInv minCount].
    split; [apply (arrInv_insert 16 flipSign (count h) key child b); auto;
            first [lia | apply flipSign_invol]|].
    split; [reflexivity|]. split; [now apply samePrefix_count|]. split; [lia|].
    intros b' Hb'. rewrite !childAt_Node16 by (cbn [count]; lia). cbn [count].
    apply (arrChild_insert 16 flipSign (count h) key child b); auto;
      first [lia | apply flipSign_invol].
  - assert (Hc16 : count h = 16) by lia.
    set (h' := copyPrefix h (mkHeader 0 (count h) (repeat 0 9))).
    assert (Hsame : samePrefix h h') by apply samePrefix_copy.
    rewrite Hc16 in Hinv.
    pose proof (grow16_spec key child 16 16 Hinv 0 (repeat emptyMarker 256)
                  ltac:(lia) ltac:(lia) (grown16_init key)) as Hg.
    destruct (idxInv_grown16 key child _ Hinv Hg) as (Hidx & Hsame_child).
    rewrite Hc16. change (Z.to_nat 16) with 16%nat.
    set (ci := grow16 key (repeat emptyMarker 256) 0 16) in *.
    set (child' := blit Null child 0 (repeat Null (Z.to_nat NODE48_SIZE)) 0 16) in *.
    assert (Hemp : at_ 0 ci b = emptyMarker).
    { specialize (Hsame_child b Hb). rewrite Hc16 in Hnull. rewrite Hnull in Hsame_child.
      destruct (Z.eqb_spec (at_ 0 ci b) emptyMarker) as [E|E]; [exact E|].
      exfalso. destruct Hidx as (_ & _ & _ & H4 & _). now apply (H4 b Hb E). }
    assert (Hidx' : idxInv (count h') ci child') by (unfold h'; cbn [count copyPrefix]; now rewrite Hc16).
    destruct (insertNode48_spec h' ci child' b c Hidx' (proj1 (proj2 Hsame)) Hb Hemp Hc)
      as (n' & Hrun & Hins).
    exists n'. split; [exact Hrun|].
    apply (inserted_via _ _ (Node48 h' ci child') h');
      [reflexivity | exact Hsame | | | exact Hins].
    + intros b' Hb'. rewrite childAt_Node48, childAt_Node16 by lia.
      rewrite Hc16. apply Hsame_child. lia.
    + intros _. unfold h'. cbn. lia.
Qed.

(** ** Node4 *)

Lemma at_map_flip (key : list Z) (i : Z) :
  0 <= i < Z.of_nat (length key) -> at_ 0 (map flipSign key) i = flipSign (at_ 0 key i).
Proof.
  intros Hi. unfold at_. rewrite nth_indep with (d' := flipSign 0) by (rewrite length_map; lia).
  apply map_nth.
Qed.

Lemma insertNode4_spec (h : Header) (key : list Z) (child : list Node) (b : Z) (c : Node) :
  arrInv 4 (fun x => x) (count h) key child -> length (prefix h) = 9%nat ->
  0 <= b < 256 -> arrChild (fun x => x) (count h) key child b = Null -> c <> Null ->
  exists n', insertNode4 h key child b c = Ok n' /\
             inserted (Node4 h key child) h b c n'.
Proof.
  intros Hinv Hp Hb Hnull Hc. pose proof Hinv as (Hk & Hch & Hcnt & Hr & Hs & Hn).
  pose proof (childAt_absent _ _ _ _ _ _ Hinv Hnull) as Habs.
  unfold insertNode4, NODE4_SIZE. destruct (Z.ltb_spec (count h) 4) as [Hroom|Hfull].
  - cbv zeta. unfold insertPos4.
    destruct (insert_pos_spec 4 (fun x => x) (count h) key child b
                (fun p => negb (at_ 0 key p <? b)) Hinv Habs) as (P1 & P2 & P3).
    { intros i Hi. specialize (Habs i Hi). cbv beta in Habs.
      destruct (Z.ltb_spec (at_ 0 key i) b), (Z.ltb_spec b (at_ 0 key i)); cbn [negb];
        try lia; reflexivity. }
    set (pos := match first_index _ 0 (Z.to_nat (count h)) with
                | Some i => i | None => count h end) in *.
    eexists. split; [reflexivity|]. rewrite u16_small by lia.
    exists (mkHeader (prefixLength h) (count h + 1) (prefix h)).
    split; [reflexivity|]. cbn [count prefixLength prefix nodeInv minCount].
    split; [apply (arrInv_insert 4 (fun x => x) (count h) key child b); auto; lia|].
    split; [reflexivity|]. split; [now apply samePrefix_count|]. split; [lia|].
    intros b' Hb'. rewrite !childAt_Node4. cbn [count].
    apply (arrChild_insert 4 (fun x => x) (count h) key child b); auto; lia.
  - assert (Hc4 : count h = 4) by lia.
    set (h' := copyPrefix h (mkHeader 0 4 (repeat 0 9))).
    assert (Hsame : samePrefix h h') by apply samePrefix_copy.
    set (key' := blit 0 (map flipSign key) 0 (repeat 0 16) 0 4).
    set (child' := blit Null child 0 (repeat Null 16) 0 (count h)).
    assert (Hkey' : forall i, 0 <= i < count h ->
              flipSign (at_ 0 key' i) = at_ 0 key i).
    { intros i Hi. unfold key'. rewrite at_blit by lia. rewrite repeat_length.
      destruct (Z.leb_spec 0 i), (Z.ltb_spec i (0 + 4)), (Z.ltb_spec i (Z.of_nat 16));
        cbn [andb]; try lia.
      rewrite at_map_flip by lia. replace (0 + (i - 0)) with i by lia.
      apply flipSign_invol. }
    assert (Hchild' : forall i, 0 <= i < count h -> at_ Null child' i = at_ Null child i).
    { intros i Hi. unfold child'. rewrite at_blit by lia. rewrite repeat_length.
      destruct (Z.leb_spec 0 i), (Z.ltb_spec i (0 + count h)), (Z.ltb_spec i (Z.of_nat 16));
        cbn [andb]; try lia. f_equal. lia. }
    assert (Hinv' : arrInv 16 flipSign (count h') key' child').
    { unfold h'. cbn [count copyPrefix]. rewrite <- Hc4.
      apply (arrInv_transfer 4 16 (fun x => x) flipSign (count h) key key' child child');
        auto; try lia;
        first [unfold key' | unfold child']; now rewrite length_blit, repeat_length. }
    assert (Heq : forall b', arrChild flipSign (count h') key' child' b' =
                             arrChild (fun x => x) (count h) key child b').
    { intros b'. unfold h'. cbn [count copyPrefix]. rewrite <- Hc4.
      now apply arrChild_transfer. }
    destruct (insertNode16_spec h' key' child' b c Hinv' (proj1 (proj2 Hsame)) Hb
                ltac:(now rewrite Heq) Hc) as (n' & Hrun & Hins).
    exists n'. split; [exact Hrun|].
    apply (inserted_via _ _ (Node16 h' key' child') h');
      [unfold h'; cbn [count copyPrefix]; lia | exact Hsame | | | exact Hins].
    + intros b' Hb'. rewrite childAt_Node4, childAt_Node16.
      * apply Heq.
      * unfold h'. cbn [count copyPrefix]. lia.
    + intros _. unfold h'. cbn. lia.
Qed.

(** ** Keys of the repository and leaves *)

Lemma length_loadKey (tid : Z) : length (loadKey tid) = 8%nat.
Proof. unfold loadKey. now rewrite length_map, length_zseq. Qed.

Lemma at_loadKey (tid i : Z) :
  0 <= i < 8 -> at_ 0 (loadKey tid) i = Z.shiftr (u64 tid) (8 * (7 - i)) mod 256.
Proof. intros Hi. unfold loadKey. now rewrite at_map_zseq by (cbn; lia). Qed.

Lemma loadKey_byte (tid i : Z) : 0 <= i < 8 -> 0 <= at_ 0 (loadKey tid) i < 256.
Proof. intros Hi. rewrite at_loadKey by lia. apply Z.mod_pos_bound. lia. Qed.

Lemma u64_small (x : Z) : 0 <= x < 2 ^ 64 -> u64 x = x.
Proof. intros H. unfold u64. now apply Z.mod_small. Qed.

(** Two identifiers with the same eight key bytes are equal. *)
Lemma loadKey_inj (a b : Z) :
  0 <= a < 2 ^ 64 -> 0 <= b < 2 ^ 64 ->
  (forall i, 0 <= i < 8 -> at_ 0 (loadKey a) i = at_ 0 (loadKey b) i) -> a = b.
Proof.
  intros Ha Hb H. apply Z.bits_inj'. intros j Hj.
  destruct (Z.lt_ge_cases j 64) as [Hlt|Hge].
  - set (i := 7 - j / 8).
    assert (Hi : 0 <= i < 8).
    { unfold i. pose proof (Z.div_pos j 8 ltac:(lia) ltac:(lia)).
      assert (j / 8 < 8) by (apply Z.div_lt_upper_bound; lia). lia. }
    specialize (H i Hi). rewrite !at_loadKey in H by lia.
    rewrite !u64_small in H by lia.
    assert (Hj8 : j = 8 * (7 - i) + j mod 8).
    { unfold i. pose proof (Z.div_mod j 8 ltac:(lia)). lia. }
    pose proof (Z.mod_pos_bound j 8 ltac:(lia)) as Hm.
    apply (f_equal (fun x => Z.testbit x (j mod 8))) in H.
    change 256 with (2 ^ 8) in H.
    rewrite !Z.mod_pow2_bits_low in H by lia.
    rewrite !Z.shiftr_spec in H by lia.
    replace (j mod 8 + 8 * (7 - i)) with j in H by lia. exact H.
  - rewrite !Z.bits_above_log2; try lia; try reflexivity.
    + destruct (Z.eq_dec b 0) as [->|Hb0]; [cbn; lia|].
      apply Z.log2_lt_pow2; try lia.
      apply Z.lt_le_trans with (2 ^ 64); [lia|]. apply Z.pow_le_mono_r; lia.
    + destruct (Z.eq_dec a 0) as [->|Ha0]; [cbn; lia|].
      apply Z.log2_lt_pow2; try lia.
      apply Z.lt_le_trans with (2 ^ 64); [lia|]. apply Z.pow_le_mono_r; lia.
Qed.

Lemma lor_shiftl_1 (t : Z) : Z.lor (Z.shiftl t 1) 1 = 2 * t + 1.
Proof.
  apply Z.bits_inj'. intros n Hn. rewrite Z.lor_spec.
  destruct (Z.eq_dec n 0) as [->|Hne].
  - rewrite Z.testbit_odd_0. rewrite Z.shiftl_spec_low by lia. reflexivity.
  - replace n with (Z.succ (n - 1)) by lia.
    rewrite Z.testbit_odd_succ by lia.
    rewrite Z.shiftl_spec by lia.
    replace (Z.succ (n - 1) - 1) with (n - 1) by lia.
    change 1 with (2 * 0 + 1) at 2. rewrite Z.testbit_odd_succ by lia.
    rewrite Z.bits_0. apply orb_false_r.
Qed.

Lemma makeLeaf_word (tid : Z) : 0 <= tid < 2 ^ 63 -> makeLeaf tid = Leaf (2 * tid + 1).
Proof.
  intros H. unfold makeLeaf. rewrite lor_shiftl_1. rewrite u64_small; [reflexivity|].
  change (2 ^ 64) with (2 * 2 ^ 63). lia.
Qed.

Lemma leafValue_word (tid : Z) : Z.shiftr (2 * tid + 1) 1 = tid.
Proof.
  rewrite Z.shiftr_div_pow2 by lia. change (2 ^ 1) with 2.
  symmetry. apply (Z.div_unique _ _ _ 1); lia.
Qed.

Lemma getLeafValue_makeLeaf (tid : Z) :
  0 <= tid < 2 ^ 63 -> getLeafValue (makeLeaf tid) = Ok tid.
Proof. intros H. rewrite makeLeaf_word by lia. cbn [getLeafValue]. now rewrite leafValue_word. Qed.

Lemma makeLeaf_nonnull (tid : Z) : makeLeaf tid <> Null.
Proof. discriminate. Qed.

(** ** Membership *)

Lemma childAt_Null (b : Z) : childAt Null b = Null.
Proof. reflexivity. Qed.

Lemma childAt_Leaf (w b : Z) : childAt (Leaf w) b = Null.
Proof. reflexivity. Qed.

Lemma contains_Null (u : Z) : ~ contains Null u.
Proof.
  intros H. remember Null as t eqn:E. induction H as [w|n b tid Hb Hc IH]; [discriminate|].
  subst n. rewrite childAt_Null in IH. now apply IH.
Qed.

Lemma contains_Leaf (w u : Z) : contains (Leaf w) u -> u = Z.shiftr w 1.
Proof.
  intros H. inversion H as [w' E1 E2|n b tid Hb Hc E1 E2]; subst.
  - reflexivity.
  - rewrite childAt_Leaf in Hc. now apply contains_Null in Hc.
Qed.

Lemma contains_makeLeaf (tid : Z) : 0 <= tid < 2 ^ 63 -> contains (makeLeaf tid) tid.
Proof.
  intros H. rewrite makeLeaf_word by lia.
  rewrite <- (leafValue_word tid) at 2. constructor.
Qed.

Lemma contains_makeLeaf_inv (tid u : Z) :
  0 <= tid < 2 ^ 63 -> contains (makeLeaf tid) u -> u = tid.
Proof.
  intros H Hc. rewrite makeLeaf_word in Hc by lia. apply contains_Leaf in Hc.
  now rewrite leafValue_word in Hc.
Qed.

Lemma nodeInv_inner (n : Node) : nodeInv n -> exists h, header n = Ok h.
Proof. destruct n; cbn; intros H; try contradiction; eauto. Qed.

Lemma contains_inner_inv (n : Node) (h : Header) (u : Z) :
  header n = Ok h -> contains n u ->
  exists b, 0 <= b < 256 /\ contains (childAt n b) u.
Proof.
  intros Hh H. inversion H as [w E1 E2|n' b tid Hb Hc E1 E2]; subst.
  - discriminate.
  - eauto.
Qed.

(** ** Agreement of keys *)

Lemma agree_refl (k : list Z) (d : Z) : agree k k d.
Proof. intros i Hi. reflexivity. Qed.

Lemma agree_sym (k1 k2 : list Z) (d : Z) : agree k1 k2 d -> agree k2 k1 d.
Proof. intros H i Hi. symmetry. now apply H. Qed.

Lemma agree_trans (k1 k2 k3 : list Z) (d : Z) :
  agree k1 k2 d -> agree k2 k3 d -> agree k1 k3 d.
Proof. intros H1 H2 i Hi. rewrite H1 by lia. now apply H2. Qed.

Lemma agree_le (k1 k2 : list Z) (d d' : Z) : d' <= d -> agree k1 k2 d -> agree k1 k2 d'.
Proof. intros Hle H i Hi. apply H. lia. Qed.

Lemma at_pathKey (ref : list Z) (d : Z) (h : Header) (b i : Z) :
  0 <= i < 8 ->
  at_ 0 (pathKey ref d h b) i =
  if i <? d then at_ 0 ref i
  else if i <? d + prefixLength h then at_ 0 (prefix h) (i - d) else b.
Proof. intros Hi. unfold pathKey. now rewrite at_map_zseq by (cbn; lia). Qed.

Lemma pathKey_spec (ref : list Z) (d : Z) (h : Header) (b : Z) :
  0 <= d -> 0 <= prefixLength h -> d + prefixLength h < 8 ->
  agree (pathKey ref d h b) ref d /\
  (forall i, 0 <= i < prefixLength h ->
     at_ 0 (pathKey ref d h b) (d + i) = at_ 0 (prefix h) i) /\
  at_ 0 (pathKey ref d h b) (d + prefixLength h) = b.
Proof.
  intros Hd Hp Hlt. split; [|split].
  - intros i Hi. rewrite at_pathKey by lia. destruct (Z.ltb_spec i d); [reflexivity|lia].
  - intros i Hi. rewrite at_pathKey by lia.
    destruct (Z.ltb_spec (d + i) d); [lia|].
    destruct (Z.ltb_spec (d + i) (d + prefixLength h)); [|lia]. f_equal. lia.
  - rewrite at_pathKey by lia.
    destruct (Z.ltb_spec (d + prefixLength h) d); [lia|].
    destruct (Z.ltb_spec (d + prefixLength h) (d + prefixLength h)); [lia|reflexivity].
Qed.

(** ** Basic facts on the invariant *)

Lemma wf_agree (d : Z) (ref ref' : list Z) (t : Node) :
  wf d ref t -> agree ref' ref d -> wf d ref' t.
Proof.
  intros H Ha. destruct H as [d ref tid Ht Hd Hk|d ref n h Hh Hs Hd Hp Hlt Hlen Hr Hc].
  - constructor; auto. eapply agree_trans; eauto. now apply agree_sym.
  - eapply wf_inner; eauto. intros b Hb Hn ref'' Ha' Hpre Hb'.
    apply Hc; auto. eapply agree_trans; eauto.
Qed.

Lemma wf_nonnull (d : Z) (ref : list Z) (t : Node) : wf d ref t -> t <> Null.
Proof.
  intros H. destruct H as [d ref tid Ht Hd Hk|d ref n h Hh Hs Hd Hp Hlt Hlen Hr Hc].
  - discriminate.
  - intros ->. discriminate.
Qed.

Lemma wf_contains_agree (d : Z) (ref : list Z) (t : Node) :
  wf d ref t -> forall u, contains t u -> 0 <= u < 2 ^ 63 /\ agree (loadKey u) ref d.
Proof.
  intros H. induction H as [d ref tid Ht Hd Hk|d ref n h Hh Hs Hd Hp Hlt Hlen Hr Hc IH];
    intros u Hu.
  - apply contains_makeLeaf_inv in Hu; [|lia]. subst u. split; [lia|exact Hk].
  - destruct (contains_inner_inv n h u Hh Hu) as (b & Hb & Hcb).
    destruct (pathKey_spec ref d h b Hd Hp Hlt) as (P1 & P2 & P3).
    assert (Hnn : childAt n b <> Null).
    { intros E. rewrite E in Hcb. now apply contains_Null in Hcb. }
    destruct (IH b Hb Hnn (pathKey ref d h b) P1 P2 P3 u Hcb) as (Hu1 & Hu2).
    split; [exact Hu1|]. eapply agree_trans; [|exact P1]. eapply agree_le; [|exact Hu2]. lia.
Qed.

(** The keys below the child of byte [b] continue with the prefix and [b]. *)
Lemma wf_child_path (d : Z) (ref : list Z) (n : Node) (h : Header) (b u : Z) :
  wf d ref n -> header n = Ok h -> 0 <= b < 256 -> contains (childAt n b) u ->
  (forall i, 0 <= i < prefixLength h ->
     at_ 0 (loadKey u) (d + i) = at_ 0 (prefix h) i) /\
  at_ 0 (loadKey u) (d + prefixLength h) = b.
Proof.
  intros H Hh Hb Hcb.
  destruct H as [d ref tid Ht Hd Hk|d ref n h0 Hh0 Hs Hd Hp Hlt Hlen Hr Hc].
  - rewrite makeLeaf_word in Hh by lia. discriminate.
  - assert (h0 = h) by congruence. subst h0.
    destruct (pathKey_spec ref d h b Hd Hp Hlt) as (P1 & P2 & P3).
    assert (Hnn : childAt n b <> Null).
    { intros E. rewrite E in Hcb. now apply contains_Null in Hcb. }
    pose proof (Hc b Hb Hnn (pathKey ref d h b) P1 P2 P3) as Hwf.
    destruct (wf_contains_agree _ _ _ Hwf u Hcb) as (_ & Ha). split.
    + intros i Hi. rewrite Ha by lia. now apply P2.
    + rewrite Ha by lia. exact P3.
Qed.

(** ** The switch of insert, slot writes and header writes *)

Lemma arrInv_count (cap : nat) (dec : Z -> Z) (cnt : Z) (key : list Z) (child : list Node) :
  arrInv cap dec cnt key child -> 0 <= cnt <= Z.of_nat cap.
Proof. intros (_ & _ & H & _). exact H. Qed.

Lemma insertIntoNode_spec (n : Node) (h : Header) (b : Z) (c : Node) :
  nodeInv n -> header n = Ok h -> length (prefix h) = 9%nat ->
  0 <= b < 256 -> childAt n b = Null -> c <> Null ->
  exists n', insertIntoNode n b c = Ok n' /\ inserted n h b c n'.
Proof.
  intros Hinv Hh Hp Hb Hnull Hc.
  destruct n as [|w|h0 key child|h0 key child|h0 ci child|h0 child|h0 child fa fb];
    cbn [nodeInv] in Hinv; try contradiction; cbn [header] in Hh;
    inversion Hh; subst h0; cbn [insertIntoNode].
  - rewrite childAt_Node4 in Hnull. now apply insertNode4_spec.
  - rewrite childAt_Node16 in Hnull by (pose proof (arrInv_count _ _ _ _ _ Hinv); cbn in *; lia).
    now apply insertNode16_spec.
  - rewrite childAt_Node48 in Hnull.
    destruct (Z.eqb_spec (at_ 0 ci b) emptyMarker) as [E|E].
    + now apply insertNode48_spec.
    + exfalso. destruct Hinv as (_ & _ & _ & H4 & _). now apply (H4 b Hb E).
  - rewrite childAt_Node256 in Hnull. eexists. split; [reflexivity|].
    now apply insertNode256_spec.
Qed.

Lemma findChild_inner (n : Node) (b : Z) :
  nodeInv n -> exists slot, findChild n b = Ok slot /\ childAt n b = derefSlot n slot.
Proof.
  intros Hinv. unfold childAt.
  destruct n; cbn [nodeInv] in Hinv; try contradiction; cbn [findChild]; eauto.
Qed.

Lemma idxInv_setSlot (cnt : Z) (ci : list Z) (child : list Node) (i : Z) (c : Node) :
  idxInv cnt ci child -> 0 <= i < NODE48_SIZE -> at_ Null child i <> Null -> c <> Null ->
  idxInv cnt ci (upd Null child i c) /\
  forall s, 0 <= s < NODE48_SIZE ->
    at_ Null (upd Null child i c) s = if s =? i then c else at_ Null child s.
Proof.
  intros (H1 & H2 & H3 & H4 & H5 & H6 & H7 & H8) Hi Hnn Hc.
  unfold emptyMarker, NODE48_SIZE in *. change (Z.to_nat 24) with 24%nat in *.
  assert (Hch : forall s, 0 <= s < 24 ->
            at_ Null (upd Null child i c) s = if s =? i then c else at_ Null child s).
  { intros s Hs. rewrite at_upd by lia. rewrite H2.
    destruct (Z.eqb_spec s i), (Z.ltb_spec s (Z.of_nat 24)); cbn [andb]; try lia;
      reflexivity. }
  split; [|exact Hch].
  unfold idxInv, emptyMarker, NODE48_SIZE. change (Z.to_nat 24) with 24%nat.
  rewrite length_upd.
  split; [exact H1|]. split; [exact H2|]. split; [exact H3|].
  split; [|split; [exact H5|split; [|split; [exact H7|]]]].
  - intros b Hb Hne. pose proof (H3 b Hb). rewrite Hch by lia.
    destruct (Z.eqb_spec (at_ 0 ci b) i); [exact Hc|]. now apply H4.
  - intros s Hs. rewrite Hch by lia. destruct (Z.eqb_spec s i) as [->|Hne].
    + intros _. now apply H6.
    + apply H6; lia.
  - rewrite H8. apply countUpTo_ext. intros s Hs. rewrite Hch by lia.
    destruct (Z.eqb_spec s i) as [->|Hne]; [|reflexivity].
    now rewrite (isNull_false c Hc), (isNull_false _ Hnn).
Qed.

Lemma dirInv_setSlot (cnt : Z) (child : list Node) (i : Z) (c : Node) :
  dirInv cnt child -> 0 <= i < 256 -> at_ Null child i <> Null -> c <> Null ->
  dirInv cnt (upd Null child i c) /\
  forall s, 0 <= s < 256 ->
    at_ Null (upd Null child i c) s = if s =? i then c else at_ Null child s.
Proof.
  intros (H1 & H2) Hi Hnn Hc.
  assert (Hch : forall s, 0 <= s < 256 ->
            at_ Null (upd Null child i c) s = if s =? i then c else at_ Null child s).
  { intros s Hs. rewrite at_upd by lia. rewrite H1.
    destruct (Z.eqb_spec s i), (Z.ltb_spec s (Z.of_nat 256)); cbn [andb]; try lia;
      reflexivity. }
  split; [|exact Hch]. unfold dirInv. rewrite length_upd. split; [exact H1|].
  rewrite H2. apply countUpTo_ext. intros s Hs. rewrite Hch by lia.
  destruct (Z.eqb_spec s i) as [->|Hne]; [|reflexivity].
  now rewrite (isNull_false c Hc), (isNull_false _ Hnn).
Qed.

(** Replacing the child in the slot found for [b]. *)
Lemma setSlot_spec (n : Node) (h : Header) (b i : Z) (c : Node) :
  nodeInv n -> header n = Ok h -> 0 <= b < 256 ->
  findChild n b = Ok (Some i) -> slotChild n i <> Null -> c <> Null ->
  nodeInv (setSlot n i c) /\ header (setSlot n i c) = Ok h /\
  minCount (setSlot n i c) = minCount n /\
  forall b', 0 <= b' < 256 ->
    childAt (setSlot n i c) b' = if b' =? b then c else childAt n b'.
Proof.
  intros Hinv Hh Hb Hf Hnn Hc.
  destruct n as [|w|h0 key child|h0 key child|h0 ci child|h0 child|h0 child fa fb];
    cbn [nodeInv] in Hinv; try contradiction; cbn [header] in Hh;
    inversion Hh; subst h0; cbn [setSlot header minCount nodeInv];
    unfold slotChild in Hnn; cbn [children] in Hnn.
  - cbn [findChild] in Hf. inversion Hf as [Hf']. apply first_index_some in Hf'.
    destruct Hf' as (Hi & Hk & _). apply Z.eqb_eq in Hk.
    pose proof (arrInv_count _ _ _ _ _ Hinv) as Hcnt.
    split; [apply arrInv_setSlot; auto; lia|]. split; [reflexivity|]. split; [reflexivity|].
    intros b' Hb'. rewrite !childAt_Node4.
    rewrite (arrChild_setSlot 4 (fun x => x)) by (auto; lia). now rewrite Hk.
  - pose proof (arrInv_count _ _ _ _ _ Hinv) as Hcnt. cbn in Hcnt.
    rewrite findChild_Node16 in Hf by lia. inversion Hf as [Hf'].
    apply first_index_some in Hf'. destruct Hf' as (Hi & Hk & _). apply Z.eqb_eq in Hk.
    split; [apply arrInv_setSlot; auto; lia|]. split; [reflexivity|]. split; [reflexivity|].
    intros b' Hb'. rewrite !childAt_Node16 by (cbn [count]; lia).
    rewrite (arrChild_setSlot 16 flipSign) by (auto; lia). now rewrite Hk.
  - cbn [findChild] in Hf.
    destruct (Z.eqb_spec (at_ 0 ci b) emptyMarker) as [E|E]; [discriminate|].
    inversion Hf as [Hf']. subst i.
    pose proof Hinv as (H1 & H2 & H3 & H4 & H5 & H6 & H7 & H8).
    assert (Hi : 0 <= at_ 0 ci b < NODE48_SIZE).
    { pose proof (H3 b Hb). unfold emptyMarker in *. lia. }
    destruct (idxInv_setSlot _ _ _ _ c Hinv Hi Hnn Hc) as (Hinv' & Hch).
    split; [exact Hinv'|]. split; [reflexivity|]. split; [reflexivity|].
    intros b' Hb'. rewrite !childAt_Node48.
    destruct (Z.eqb_spec (at_ 0 ci b') emptyMarker) as [E'|E'].
    + destruct (Z.eqb_spec b' b); [congruence|reflexivity].
    + assert (Hi' : 0 <= at_ 0 ci b' < NODE48_SIZE).
      { pose proof (H3 b' Hb'). unfold emptyMarker in *. lia. }
      rewrite Hch by lia.
      destruct (Z.eqb_spec (at_ 0 ci b') (at_ 0 ci b)) as [E2|E2],
        (Z.eqb_spec b' b) as [E3|E3]; try reflexivity.
      * exfalso. apply E3. apply (H5 b' b); auto.
      * subst b'. contradiction.
  - cbn [findChild] in Hf. inversion Hf as [Hf']. subst i.
    destruct (dirInv_setSlot _ _ _ c Hinv Hb Hnn Hc) as (Hinv' & Hch).
    split; [exact Hinv'|]. split; [reflexivity|]. split; [reflexivity|].
    intros b' Hb'. rewrite !childAt_Node256. now apply Hch.
Qed.

Lemma setHeader_spec (n : Node) (h h' : Header) :
  nodeInv n -> header n = Ok h -> count h' = count h ->
  nodeInv (setHeader n h') /\ header (setHeader n h') = Ok h' /\
  minCount (setHeader n h') = minCount n /\
  forall b, childAt (setHeader n h') b = childAt n b.
Proof.
  intros Hinv Hh Hc.
  destruct n as [|w|h0 key child|h0 key child|h0 ci child|h0 child|h0 child fa fb];
    cbn [nodeInv] in Hinv; try contradiction; cbn [header] in Hh;
    inversion Hh; subst h0; cbn [setHeader header minCount nodeInv]; rewrite ?Hc.
  - split; [exact Hinv|]. split; [reflexivity|]. split; [reflexivity|].
    intros b. rewrite !childAt_Node4. now rewrite Hc.
  - pose proof (arrInv_count _ _ _ _ _ Hinv) as Hcnt. cbn in Hcnt.
    split; [exact Hinv|]. split; [reflexivity|]. split; [reflexivity|].
    intros b. rewrite !childAt_Node16 by lia. now rewrite Hc.
  - split; [exact Hinv|]. split; [reflexivity|]. split; [reflexivity|].
    intros b. reflexivity.
  - split; [exact Hinv|]. split; [reflexivity|]. split; [reflexivity|].
    intros b. reflexivity.
Qed.

(** ** A fresh Node4 with two children *)

Lemma arrInv_empty : arrInv 4 (fun x => x) 0 (repeat 0 4) (repeat Null 4).
Proof.
  unfold arrInv. rewrite !repeat_length.
  split; [reflexivity|]. split; [reflexivity|]. split; [lia|].
  split; [|split]; intros; lia.
Qed.

Lemma insertNode4_room (h : Header) (key : list Z) (child : list Node) (b : Z) (c : Node) :
  count h < NODE4_SIZE ->
  exists h' key' child', insertNode4 h key child b c = Ok (Node4 h' key' child').
Proof.
  intros H. unfold insertNode4. destruct (Z.ltb_spec (count h) NODE4_SIZE); [|lia].
  cbv zeta. eauto.
Qed.

Lemma fresh_node4 (pl : Z) (pre : list Z) (x y : Z) (c1 c2 : Node) :
  length pre = 9%nat -> 0 <= x < 256 -> 0 <= y < 256 -> x <> y ->
  c1 <> Null -> c2 <> Null ->
  exists t h,
    (n1 <- insertNode4' (Node4 (mkHeader pl 0 pre) (repeat 0 4) (repeat Null 4)) x c1 ;;
     insertNode4' n1 y c2) = Ok t /\
    header t = Ok h /\ shape t /\ samePrefix (mkHeader pl 0 pre) h /\
    forall b, 0 <= b < 256 ->
      childAt t b = if b =? y then c2 else if b =? x then c1 else Null.
Proof.
  intros Hpre Hx Hy Hxy Hc1 Hc2.
  set (h0 := mkHeader pl 0 pre).
  assert (E0 : arrInv 4 (fun x => x) (count h0) (repeat 0 4) (repeat Null 4))
    by apply arrInv_empty.
  assert (N0 : arrChild (fun x => x) (count h0) (repeat 0 4) (repeat Null 4) x = Null)
    by reflexivity.
  destruct (insertNode4_spec h0 (repeat 0 4) (repeat Null 4) x c1 E0 Hpre Hx N0 Hc1)
    as (n1 & Hrun1 & (h1 & A1 & A2 & A3 & A4 & A5 & A6)).
  destruct (insertNode4_room h0 (repeat 0 4) (repeat Null 4) x c1 ltac:(cbn; unfold NODE4_SIZE; lia))
    as (h1' & k1 & ch1 & Hrun1').
  rewrite Hrun1' in Hrun1. inversion Hrun1; subst n1. cbn [header] in A1.
  inversion A1; subst h1'. cbn [nodeInv] in A2.
  assert (Hn1 : childAt (Node4 h1 k1 ch1) y = Null).
  { rewrite A6 by lia. destruct (Z.eqb_spec y x); [congruence|]. reflexivity. }
  rewrite childAt_Node4 in Hn1.
  destruct (insertNode4_spec h1 k1 ch1 y c2 A2 (proj1 (proj2 A4)) Hy Hn1 Hc2)
    as (n2 & Hrun2 & (h2 & B1 & B2 & B3 & B4 & B5 & B6)).
  exists n2, h2. cbn [insertNode4']. rewrite Hrun1'. cbn [bind insertNode4'].
  split; [exact Hrun2|]. split; [exact B1|].
  destruct (insertNode4_room h1 k1 ch1 y c2) as (h2' & k2 & ch2 & Hrun2').
  { rewrite A3. cbn. unfold NODE4_SIZE. lia. }
  rewrite Hrun2' in Hrun2. inversion Hrun2; subst n2. cbn [header] in B1.
  inversion B1; subst h2'.
  split.
  - split; [exact B2|]. unfold nodeCount. cbn [header minCount]. rewrite B3, A3. cbn. lia.
  - split; [eapply samePrefix_trans; eauto|].
    intros b Hb. rewrite B6 by lia. destruct (Z.eqb_spec b y); [reflexivity|].
    rewrite A6 by lia. destruct (Z.eqb_spec b x); [reflexivity|]. reflexivity.
Qed.

(** ** The prefix comparison on a stored prefix *)

Lemma prefixMismatch_stored (ld : Z -> list Z) (fuel : nat) (node : Node) (h : Header)
    (key : list Z) (depth mkl : Z) :
  header node = Ok h -> 0 <= depth -> 0 <= prefixLength h <= maxPrefixLength ->
  depth + prefixLength h <= Z.of_nat (length key) -> Z.of_nat (length key) <= 2 ^ 32 ->
  exists pos,
    prefixMismatch ld fuel node key depth mkl = Ok pos /\ 0 <= pos <= prefixLength h /\
    (forall i, 0 <= i < pos -> at_ 0 key (depth + i) = at_ 0 (prefix h) i) /\
    (pos < prefixLength h -> at_ 0 key (depth + pos) <> at_ 0 (prefix h) pos).
Proof.
  intros Hh Hd Hpl Hlen Hw. unfold prefixMismatch. rewrite Hh. cbn [bind].
  destruct (Z.ltb_spec maxPrefixLength (prefixLength h)); [lia|].
  destruct (mismatchLoop_spec key depth (fun pos => Ok (at_ 0 (prefix h) pos))
              (fun pos => at_ 0 (prefix h) pos) (Z.to_nat (prefixLength h)) 0)
    as (r & Hrun & Hspec).
  { intros i Hi. split; [lia|]. split; [lia|reflexivity]. }
  rewrite Hrun. cbn [bind]. destruct r as [p|p].
  - destruct Hspec as (H1 & H2 & H3). exists p. split; [reflexivity|].
    split; [lia|]. split; [intros i Hi; apply H3; lia|intros _; exact H2].
  - destruct Hspec as (H1 & H3). exists p. split; [reflexivity|].
    split; [lia|]. split; [intros i Hi; apply H3; lia|intros; lia].
Qed.

(** ** Point insert keeps the invariant *)

Lemma wf_inner_inv (d : Z) (ref : list Z) (n : Node) (h : Header) :
  wf d ref n -> header n = Ok h ->
  shape n /\ 0 <= d /\ 0 <= prefixLength h /\ d + prefixLength h < 8 /\
  length (prefix h) = 9%nat /\
  (forall i, 0 <= i < prefixLength h -> 0 <= at_ 0 (prefix h) i < 256) /\
  (forall b, 0 <= b < 256 -> childAt n b <> Null ->
     forall ref', agree ref' ref d ->
       (forall i, 0 <= i < prefixLength h -> at_ 0 ref' (d + i) = at_ 0 (prefix h) i) ->
       at_ 0 ref' (d + prefixLength h) = b ->
       wf (d + prefixLength h + 1) ref' (childAt n b)).
Proof.
  intros H Hh. destruct H as [d ref tid Ht Hd Hk|d ref n h0 Hh0 Hs Hd Hp Hlt Hlen Hr Hc].
  - rewrite makeLeaf_word in Hh by lia. discriminate.
  - assert (h0 = h) by congruence. subst h0. auto 10.
Qed.

Lemma keys_differ (a b : Z) :
  0 <= a < 2 ^ 63 -> 0 <= b < 2 ^ 63 -> a <> b ->
  exists p, 0 <= p < 8 /\ at_ 0 (loadKey a) p <> at_ 0 (loadKey b) p.
Proof.
  intros Ha Hb Hne.
  destruct (first_index (fun i => negb (at_ 0 (loadKey a) i =? at_ 0 (loadKey b) i)) 0 8)
    as [p|] eqn:E.
  - apply first_index_some in E. destruct E as (Hp & Hd & _).
    apply negb_true_iff, Z.eqb_neq in Hd. exists p. split; [lia|exact Hd].
  - exfalso. apply Hne. apply loadKey_inj.
    + change (2 ^ 64) with (2 * 2 ^ 63). lia.
    + change (2 ^ 64) with (2 * 2 ^ 63). lia.
    + intros i Hi. assert (G := first_index_none _ _ _ E i ltac:(lia)).
      apply negb_false_iff, Z.eqb_eq in G. exact G.
Qed.

Lemma loadKeyBuf_8 (tid : Z) : loadKeyBuf loadKey 8 tid = Ok (loadKey tid).
Proof. unfold loadKeyBuf. now rewrite length_loadKey. Qed.

Lemma contains_children (n : Node) (h : Header) (f : Z -> Node) (u : Z) :
  header n = Ok h -> (forall b, 0 <= b < 256 -> childAt n b = f b) ->
  contains n u -> exists b, 0 <= b < 256 /\ contains (f b) u.
Proof.
  intros Hh Hf Hu. destruct (contains_inner_inv n h u Hh Hu) as (b & Hb & Hc).
  exists b. split; [exact Hb|]. now rewrite <- Hf.
Qed.

Lemma insert_leaf_wf (d : Z) (ref : list Z) (tid v : Z) :
  0 <= tid < 2 ^ 63 -> 0 <= v < 2 ^ 63 -> v <> tid -> 0 <= d <= 8 ->
  agree (loadKey tid) ref d -> agree (loadKey v) ref d ->
  exists t, insertLeaf loadKey (makeLeaf tid) (loadKey v) d v 8 = Ok t /\
            wf d ref t /\ contains t v /\
            (forall u, contains t u -> u = v \/ u = tid) /\ contains t tid.
Proof.
  intros Ht Hv Hne Hd Hat Hav.
  destruct (keys_differ tid v Ht Hv ltac:(congruence)) as (p & Hp & Hdiff).
  assert (Hpd : d <= p).
  { destruct (Z.le_gt_cases d p); [assumption|]. exfalso. apply Hdiff.
    rewrite Hat, Hav by lia. reflexivity. }
  destruct (commonPrefixLoop_stops (loadKey tid) (loadKey v) d (S (length (loadKey tid))) 0 p)
    as (r & Hrun & R1 & R2 & R3 & R4); try rewrite !length_loadKey; try lia; auto.
  unfold insertLeaf. rewrite getLeafValue_makeLeaf by lia. cbn [bind].
  rewrite loadKeyBuf_8. cbn [bind]. rewrite Hrun. cbn [bind].
  rewrite u32_small by lia. rewrite !keyAt_ok by (rewrite length_loadKey; lia).
  cbn [bind].
  set (x := at_ 0 (loadKey tid) (d + r)) in *. set (y := at_ 0 (loadKey v) (d + r)) in *.
  set (pre := blit 0 (loadKey v) d (repeat 0 9) 0 (Z.min r maxPrefixLength)).
  assert (Hx : 0 <= x < 256) by (apply loadKey_byte; lia).
  assert (Hy : 0 <= y < 256) by (apply loadKey_byte; lia).
  assert (Hpre : length pre = 9%nat) by (unfold pre; now rewrite length_blit, repeat_length).
  destruct (fresh_node4 r pre x y (makeLeaf tid) (makeLeaf v) Hpre Hx Hy R3
              (makeLeaf_nonnull _) (makeLeaf_nonnull _))
    as (t & h & Hrun' & Hh & Hshape & (S1 & S2 & S3) & Hch).
  cbn [prefixLength prefix] in S1, S3.
  assert (Hpref : forall i, 0 <= i < r -> at_ 0 (prefix h) i = at_ 0 (loadKey v) (d + i)).
  { intros i Hi. rewrite S3 by lia. unfold pre, maxPrefixLength. rewrite at_blit by lia.
    rewrite repeat_length.
    destruct (Z.leb_spec 0 i), (Z.ltb_spec i (0 + Z.min r 9)), (Z.ltb_spec i (Z.of_nat 9));
      cbn [andb]; try lia. f_equal. lia. }
  exists t. split; [exact Hrun'|]. split; [|split; [|split]].
  - apply (wf_inner d ref t h); auto; try lia.
    + intros i Hi. rewrite Hpref by lia. apply loadKey_byte. lia.
    + intros b Hb Hnn ref' Ha Hp' Hb'. rewrite S1 in *. rewrite Hch in * by lia.
      destruct (Z.eqb_spec b y) as [Ey|Ey].
      * constructor; [lia|lia|]. intros i Hi.
        destruct (Z.lt_ge_cases i d).
        -- rewrite Hav, Ha by lia. reflexivity.
        -- destruct (Z.eq_dec i (d + r)) as [Eir|Hir].
           ++ rewrite Eir, Hb', Ey. reflexivity.
           ++ replace i with (d + (i - d)) by lia.
              rewrite Hp' by lia. rewrite Hpref by lia. reflexivity.
      * destruct (Z.eqb_spec b x) as [Ex|Ex]; [|contradiction].
        constructor; [lia|lia|]. intros i Hi.
        destruct (Z.lt_ge_cases i d).
        -- rewrite Hat, Ha by lia. reflexivity.
        -- destruct (Z.eq_dec i (d + r)) as [Eir|Hir].
           ++ rewrite Eir, Hb', Ex. reflexivity.
           ++ replace i with (d + (i - d)) by lia.
              rewrite Hp' by lia. rewrite Hpref by lia. apply R4. lia.
  - apply (contains_inner t y v Hy). rewrite Hch by lia. rewrite Z.eqb_refl.
    now apply contains_makeLeaf.
  - intros u Hu.
    destruct (contains_children t h _ u Hh Hch Hu) as (b & Hb & Hcb).
    destruct (Z.eqb_spec b y).
    + left. now apply contains_makeLeaf_inv in Hcb.
    + destruct (Z.eqb_spec b x).
      * right. now apply contains_makeLeaf_inv in Hcb.
      * now apply contains_Null in Hcb.
  - apply (contains_inner t x tid Hx). rewrite Hch by lia.
    destruct (Z.eqb_spec x y); [contradiction|]. rewrite Z.eqb_refl.
    now apply contains_makeLeaf.
Qed.

Lemma contains_setHeader (n : Node) (h h' : Header) (u : Z) :
  nodeInv n -> header n = Ok h -> count h' = count h ->
  contains (setHeader n h') u -> contains n u.
Proof.
  intros Hinv Hh Hc Hu.
  destruct (setHeader_spec n h h' Hinv Hh Hc) as (_ & Hh' & _ & Hch).
  destruct (contains_inner_inv _ h' u Hh' Hu) as (b & Hb & Hcb).
  rewrite Hch in Hcb. now apply (contains_inner n b u).
Qed.

Lemma contains_setHeader_conv (n : Node) (h h' : Header) (u : Z) :
  nodeInv n -> header n = Ok h -> count h' = count h ->
  contains n u -> contains (setHeader n h') u.
Proof.
  intros Hinv Hh Hc Hu.
  destruct (setHeader_spec n h h' Hinv Hh Hc) as (_ & Hh' & _ & Hch).
  destruct (contains_inner_inv _ h u Hh Hu) as (b & Hb & Hcb).
  apply (contains_inner _ b u Hb). now rewrite Hch.
Qed.

Lemma insert_split_wf (d : Z) (ref : list Z) (n : Node) (h : Header) (v pos : Z)
    (fuel : nat) :
  wf d ref n -> header n = Ok h -> 0 <= v < 2 ^ 63 -> agree (loadKey v) ref d ->
  0 <= pos < prefixLength h ->
  (forall i, 0 <= i < pos -> at_ 0 (loadKey v) (d + i) = at_ 0 (prefix h) i) ->
  at_ 0 (loadKey v) (d + pos) <> at_ 0 (prefix h) pos ->
  exists t, insertSplit loadKey fuel n h (loadKey v) d v 8 pos = Ok t /\
            wf d ref t /\ contains t v /\
            (forall u, contains t u -> u = v \/ contains n u) /\
            forall u, contains n u -> contains t u.
Proof.
  intros Hwf Hh Hv Hav Hpos Hmatch Hdiff.
  destruct (wf_inner_inv d ref n h Hwf Hh) as ((Hinv & Hmin) & Hd & Hp & Hlt & Hlen & Hr & Hc).
  unfold insertSplit, maxPrefixLength.
  destruct (Z.ltb_spec (prefixLength h) 9); [|lia].
  rewrite (u32_small (prefixLength h - (pos + 1))) by lia.
  rewrite u32_small by lia. rewrite keyAt_ok by (rewrite length_loadKey; lia).
  set (len' := prefixLength h - (pos + 1)).
  set (h' := mkHeader len' (count h)
               (blit 0 (prefix h) (pos + 1) (prefix h) 0 (Z.min len' 9))).
  set (node' := setHeader n h').
  set (pre := blit 0 (prefix h) 0 (repeat 0 9) 0 (Z.min pos 9)).
  set (x := at_ 0 (prefix h) pos). set (y := at_ 0 (loadKey v) (d + pos)) in *.
  destruct (setHeader_spec n h h' Hinv Hh eq_refl) as (Hinv' & Hh' & Hmin' & Hch').
  fold node' in Hinv', Hh', Hmin', Hch'.
  assert (Hnn : node' <> Null) by (intros E; rewrite E in Hh'; discriminate).
  assert (Hx : 0 <= x < 256) by (apply Hr; lia).
  assert (Hy : 0 <= y < 256) by (apply loadKey_byte; lia).
  assert (Hpre : length pre = 9%nat) by (unfold pre; now rewrite length_blit, repeat_length).
  destruct (fresh_node4 pos pre x y node' (makeLeaf v) Hpre Hx Hy
              (fun E : x = y => Hdiff (eq_sym E)) Hnn (makeLeaf_nonnull _))
    as (t & ht & Hrun & Hht & Hshape & (S1 & S2 & S3) & Hch).
  cbn [prefixLength prefix] in S1, S3. cbn [bind].
  assert (Hpref : forall i, 0 <= i < pos -> at_ 0 (prefix ht) i = at_ 0 (prefix h) i).
  { intros i Hi. rewrite S3 by lia. unfold pre. rewrite at_blit by lia.
    rewrite repeat_length.
    destruct (Z.leb_spec 0 i), (Z.ltb_spec i (0 + Z.min pos 9)), (Z.ltb_spec i (Z.of_nat 9));
      cbn [andb]; try lia. f_equal. lia. }
  assert (Hpref' : forall i, 0 <= i < len' ->
            at_ 0 (prefix h') i = at_ 0 (prefix h) (pos + 1 + i)).
  { intros i Hi. unfold h'. cbn [prefix]. rewrite at_blit by lia. rewrite Hlen.
    destruct (Z.leb_spec 0 i), (Z.ltb_spec i (0 + Z.min len' 9)), (Z.ltb_spec i (Z.of_nat 9));
      cbn [andb]; try lia. f_equal. lia. }
  exists t. split; [exact Hrun|]. split; [|split; [|split]].
  - apply (wf_inner d ref t ht); auto; try lia.
    + intros i Hi. rewrite Hpref by lia. apply Hr. lia.
    + intros b Hb Hbn ref' Ha Hp' Hb'. rewrite S1 in *. rewrite Hch in * by lia.
      destruct (Z.eqb_spec b y) as [Ey|Ey].
      * constructor; [lia|lia|]. intros i Hi.
        destruct (Z.lt_ge_cases i d).
        -- rewrite Hav, Ha by lia. reflexivity.
        -- destruct (Z.eq_dec i (d + pos)) as [Eir|Hir].
           ++ rewrite Eir, Hb', Ey. reflexivity.
           ++ replace i with (d + (i - d)) by lia.
              rewrite Hp' by lia. rewrite Hpref by lia. apply Hmatch. lia.
      * destruct (Z.eqb_spec b x) as [Ex|Ex]; [|contradiction].
        apply (wf_inner (d + pos + 1) ref' node' h'); auto; try (unfold h'; cbn; lia).
        -- split; [exact Hinv'|]. rewrite Hmin'. unfold nodeCount in *.
           rewrite Hh'. rewrite Hh in Hmin. exact Hmin.
        -- unfold h'. cbn [prefix]. now rewrite length_blit.
        -- intros i Hi. unfold h' in Hi. cbn [prefixLength] in Hi.
           rewrite Hpref' by lia. apply Hr. lia.
        -- intros b2 Hb2 Hb2n ref2 Ha2 Hp2 Hb2'. rewrite Hch' in *.
           unfold h' in Hp2, Hb2' |- *. cbn [prefixLength] in Hp2, Hb2' |- *.
           replace (d + pos + 1 + len' + 1) with (d + prefixLength h + 1)
             by (unfold len'; lia).
           apply Hc; auto.
           ++ intros i Hi. rewrite Ha2 by lia. apply Ha. lia.
           ++ intros i Hi. destruct (Z.lt_trichotomy i pos) as [Hlt'|[Heq|Hgt]].
              ** rewrite Ha2 by lia. rewrite Hp' by lia. apply Hpref. lia.
              ** subst i. rewrite Ha2 by lia. rewrite Hb'. exact Ex.
              ** replace (d + i) with (d + pos + 1 + (i - pos - 1)) by lia.
                 rewrite Hp2 by (unfold len'; lia).
                 fold h'. rewrite Hpref' by (unfold len'; lia). f_equal. lia.
           ++ rewrite <- Hb2'. f_equal. unfold len'. lia.
  - apply (contains_inner t y v Hy). rewrite Hch by lia. rewrite Z.eqb_refl.
    now apply contains_makeLeaf.
  - intros u Hu.
    destruct (contains_children t ht _ u Hht Hch Hu) as (b & Hb & Hcb).
    destruct (Z.eqb_spec b y).
    + left. now apply contains_makeLeaf_inv in Hcb.
    + destruct (Z.eqb_spec b x).
      * right. now apply (contains_setHeader n h h').
      * now apply contains_Null in Hcb.
  - intros u Hu. apply (contains_inner t x u Hx). rewrite Hch by lia.
    destruct (Z.eqb_spec x y) as [E|_]; [exfalso; apply Hdiff; now rewrite <- E|].
    rewrite Z.eqb_refl. now apply (contains_setHeader_conv n h h').
Qed.

Lemma insert_add_wf (d : Z) (ref : list Z) (n : Node) (h : Header) (v : Z) :
  wf d ref n -> header n = Ok h -> 0 <= v < 2 ^ 63 -> agree (loadKey v) ref d ->
  (forall i, 0 <= i < prefixLength h -> at_ 0 (loadKey v) (d + i) = at_ 0 (prefix h) i) ->
  childAt n (at_ 0 (loadKey v) (d + prefixLength h)) = Null ->
  exists t, insertIntoNode n (at_ 0 (loadKey v) (d + prefixLength h)) (makeLeaf v) = Ok t /\
            wf d ref t /\ contains t v /\
            (forall u, contains t u -> u = v \/ contains n u) /\
            forall u, contains n u -> contains t u.
Proof.
  intros Hwf Hh Hv Hav Hmatch Hnull.
  destruct (wf_inner_inv d ref n h Hwf Hh) as ((Hinv & Hmin) & Hd & Hp & Hlt & Hlen & Hr & Hc).
  set (kb := at_ 0 (loadKey v) (d + prefixLength h)) in *.
  assert (Hkb : 0 <= kb < 256) by (apply loadKey_byte; lia).
  destruct (insertIntoNode_spec n h kb (makeLeaf v) Hinv Hh Hlen Hkb Hnull
              (makeLeaf_nonnull _))
    as (t & Hrun & (ht & Hht & Hinvt & Hcnt & (S1 & S2 & S3) & Hmint & Hch)).
  exists t. split; [exact Hrun|]. split; [|split; [|split]].
  - apply (wf_inner d ref t ht); auto; try lia.
    + split; [exact Hinvt|]. unfold nodeCount in *. rewrite Hht. rewrite Hh in Hmin.
      apply Hmint. exact Hmin.
    + intros i Hi. rewrite S3 by lia. apply Hr. lia.
    + intros b Hb Hbn ref' Ha Hp' Hb'. rewrite S1 in *. rewrite Hch in * by lia.
      assert (Hp'' : forall i, 0 <= i < prefixLength h ->
                at_ 0 ref' (d + i) = at_ 0 (prefix h) i).
      { intros i Hi. rewrite Hp' by lia. apply S3; lia. }
      destruct (Z.eqb_spec b kb) as [Ek|Ek].
      * constructor; [lia|lia|]. intros i Hi.
        destruct (Z.lt_ge_cases i d).
        -- rewrite Hav, Ha by lia. reflexivity.
        -- destruct (Z.eq_dec i (d + prefixLength h)) as [Eir|Hir].
           ++ rewrite Eir, Hb', Ek. reflexivity.
           ++ replace i with (d + (i - d)) by lia.
              rewrite Hp'' by lia. apply Hmatch. lia.
      * apply Hc; auto.
  - apply (contains_inner t kb v Hkb). rewrite Hch by lia. rewrite Z.eqb_refl.
    now apply contains_makeLeaf.
  - intros u Hu.
    destruct (contains_children t ht _ u Hht Hch Hu) as (b & Hb & Hcb).
    destruct (Z.eqb_spec b kb).
    + left. now apply contains_makeLeaf_inv in Hcb.
    + right. now apply (contains_inner n b u).
  - intros u Hu. destruct (contains_inner_inv n h u Hh Hu) as (b & Hb & Hcb).
    apply (contains_inner t b u Hb). rewrite Hch by lia.
    destruct (Z.eqb_spec b kb) as [->|_]; [|exact Hcb].
    rewrite Hnull in Hcb. now apply contains_Null in Hcb.
Qed.

(** Replacing the child found for [b] by a subtree that is well formed on
    the same path. *)
Lemma replace_child_wf (d : Z) (ref : list Z) (n : Node) (h : Header) (b i : Z) (c : Node) :
  wf d ref n -> header n = Ok h -> 0 <= b < 256 ->
  findChild n b = Ok (Some i) -> childAt n b <> Null ->
  (forall ref', agree ref' ref d ->
     (forall i, 0 <= i < prefixLength h -> at_ 0 ref' (d + i) = at_ 0 (prefix h) i) ->
     at_ 0 ref' (d + prefixLength h) = b -> wf (d + prefixLength h + 1) ref' c) ->
  c <> Null ->
  wf d ref (setSlot n i c) /\ header (setSlot n i c) = Ok h /\
  forall b', 0 <= b' < 256 ->
    childAt (setSlot n i c) b' = if b' =? b then c else childAt n b'.
Proof.
  intros Hwf Hh Hb Hf Hnn Hcw Hcn.
  destruct (wf_inner_inv d ref n h Hwf Hh) as ((Hinv & Hmin) & Hd & Hp & Hlt & Hlen & Hr & Hc).
  assert (Hslot : slotChild n i <> Null).
  { unfold childAt in Hnn. rewrite Hf in Hnn. exact Hnn. }
  destruct (setSlot_spec n h b i c Hinv Hh Hb Hf Hslot Hcn) as (Hinv' & Hh' & Hmin' & Hch).
  split; [|split; [exact Hh'|exact Hch]].
  apply (wf_inner d ref _ h); auto.
  - split; [exact Hinv'|]. rewrite Hmin'. unfold nodeCount in *. rewrite Hh'.
    rewrite Hh in Hmin. exact Hmin.
  - intros b' Hb' Hbn ref' Ha Hp' Hbb. rewrite Hch in * by lia.
    destruct (Z.eqb_spec b' b) as [-> | Hne]; [now apply Hcw|now apply Hc].
Qed.

Lemma insert_inner (ld : Z -> list Z) (fuel : nat) (n : Node) (h : Header)
    (key : list Z) (depth value mkl : Z) :
  header n = Ok h ->
  insert ld (S fuel) n key depth value mkl =
  (mismatchPos <-
     (if prefixLength h =? 0 then Ok 0 else prefixMismatch ld fuel n key depth mkl) ;;
   if negb (prefixLength h =? 0) && negb (mismatchPos =? prefixLength h) then
     insertSplit ld fuel n h key depth value mkl mismatchPos
   else
     let depth' := u32 (depth + prefixLength h) in
     keyByte <- keyAt key depth' ;;
     slot <- findChild n keyByte ;;
     if isNull (derefSlot n slot) then insertIntoNode n keyByte (makeLeaf value)
     else
       r <- insert ld fuel (derefSlot n slot) key (u32 (depth' + 1)) value mkl ;;
       Ok (match slot with
           | Some i => setSlot n i r
           | None => n
           end)).
Proof.
  intros Hh. destruct n; cbn [header] in Hh; try discriminate; inversion Hh; subst;
    reflexivity.
Qed.

Lemma insert_wf (d : Z) (ref : list Z) (t : Node) :
  wf d ref t ->
  forall (v : Z) (fuel : nat),
    0 <= v < 2 ^ 63 -> agree (loadKey v) ref d -> ~ contains t v ->
    8 - d <= Z.of_nat fuel ->
    exists t', insert loadKey fuel t (loadKey v) d v 8 = Ok t' /\
               wf d ref t' /\ contains t' v /\
               (forall u, contains t' u -> u = v \/ contains t u) /\
               forall u, contains t u -> contains t' u.
Proof.
  intros H.
  induction H as [d ref tid Ht Hd Hk|d ref n h Hh Hs Hd Hp Hlt Hlen Hr Hc IH];
    intros v fuel Hv Hav Hnot Hfuel.
  - assert (Hne : v <> tid).
    { intros ->. apply Hnot. now apply contains_makeLeaf. }
    destruct (insert_leaf_wf d ref tid v Ht Hv Hne Hd Hk Hav)
      as (t & Hrun & Hwf & Hcv & Hcu & Hkeep).
    exists t. rewrite makeLeaf_word in * by lia.
    split; [destruct fuel; exact Hrun|]. split; [exact Hwf|]. split; [exact Hcv|].
    split.
    + intros u Hu. destruct (Hcu u Hu) as [-> | ->]; [now left|right].
      rewrite <- makeLeaf_word by lia. now apply contains_makeLeaf.
    + intros u Hu. rewrite <- makeLeaf_word in Hu by lia.
      apply contains_makeLeaf_inv in Hu; [|lia]. now subst u.
  - assert (Hwf : wf d ref n) by (eapply wf_inner; eauto).
    destruct fuel as [|fuel]; [lia|].
    rewrite (insert_inner loadKey fuel n h _ _ _ _ Hh).
    destruct (prefixMismatch_stored loadKey fuel n h (loadKey v) d 8 Hh Hd
                ltac:(unfold maxPrefixLength; lia))
      as (pos & Hrun & Hpos & Hmatch & Hdiff);
      try (rewrite length_loadKey; cbn; lia).
    assert (Hmp : (if prefixLength h =? 0 then Ok 0
                   else prefixMismatch loadKey fuel n (loadKey v) d 8) = Ok pos).
    { destruct (Z.eqb_spec (prefixLength h) 0); [|exact Hrun]. f_equal. lia. }
    rewrite Hmp. cbn [bind].
    destruct (Z.eqb_spec pos (prefixLength h)) as [Efull|Epart].
    + rewrite andb_false_r. cbv zeta.
      rewrite (u32_small (d + prefixLength h)) by lia.
      rewrite keyAt_ok by (rewrite length_loadKey; lia). cbn [bind].
      set (kb := at_ 0 (loadKey v) (d + prefixLength h)).
      assert (Hkb : 0 <= kb < 256) by (apply loadKey_byte; lia).
      assert (Hmatch' : forall i, 0 <= i < prefixLength h ->
                at_ 0 (loadKey v) (d + i) = at_ 0 (prefix h) i).
      { intros i Hi. apply Hmatch. lia. }
      destruct (findChild_inner n kb (proj1 Hs)) as (slot & Hslot & Hchild).
      rewrite Hslot. cbn [bind]. rewrite <- Hchild.
      destruct (isNull (childAt n kb)) eqn:Enull.
      * apply isNull_true in Enull.
        exact (insert_add_wf d ref n h v Hwf Hh Hv Hav Hmatch' Enull).
      * assert (Hnn : childAt n kb <> Null) by (intros E; rewrite E in Enull; discriminate).
        destruct slot as [i|]; [|rewrite Hchild in Hnn; contradiction].
        rewrite u32_small by lia.
        assert (Hwc : wf (d + prefixLength h + 1) (loadKey v) (childAt n kb)).
        { apply Hc; auto. }
        destruct (IH kb Hkb Hnn (loadKey v) Hav Hmatch' eq_refl v fuel Hv
                    (agree_refl _ _)) as (c' & Hrunc & Hwfc & Hcv & Hcu & Hkeep).
        { intros Hcon. apply Hnot. now apply (contains_inner n kb v). }
        { lia. }
        rewrite Hrunc. cbn [bind].
        destruct (replace_child_wf d ref n h kb i c' Hwf Hh Hkb Hslot Hnn)
          as (Hwf' & Hh' & Hch').
        { intros ref' Ha Hp' Hb'. apply (wf_agree _ (loadKey v)); [exact Hwfc|].
          intros j Hj. destruct (Z.lt_ge_cases j d).
          - rewrite Ha, Hav by lia. reflexivity.
          - destruct (Z.eq_dec j (d + prefixLength h)) as [-> | Hjn]; [now rewrite Hb'|].
            replace j with (d + (j - d)) by lia. rewrite Hp', Hmatch' by lia. reflexivity. }
        { eapply wf_nonnull; eauto. }
        eexists. split; [reflexivity|]. split; [exact Hwf'|]. split; [|split].
        -- apply (contains_inner _ kb v Hkb). rewrite Hch' by lia. now rewrite Z.eqb_refl.
        -- intros u Hu.
           destruct (contains_children _ h _ u Hh' Hch' Hu) as (b & Hb & Hcb).
           destruct (Z.eqb_spec b kb).
           ++ destruct (Hcu u Hcb) as [-> | Hold]; [now left|right].
              now apply (contains_inner n kb u).
           ++ right. now apply (contains_inner n b u).
        -- intros u Hu. destruct (contains_inner_inv n h u Hh Hu) as (b & Hb & Hcb).
           apply (contains_inner _ b u Hb). rewrite Hch' by lia.
           destruct (Z.eqb_spec b kb) as [->|_]; [now apply Hkeep|exact Hcb].
    + destruct (Z.eqb_spec (prefixLength h) 0) as [E0|E0]; [lia|]. cbn [negb andb].
      apply (insert_split_wf d ref n h v pos fuel Hwf Hh Hv Hav);
        [lia | intros i Hi; apply Hmatch; lia | apply Hdiff; lia].
Qed.

(** ** Lookup in a well-formed tree *)

Lemma lookupLoop_inner (ld : Z -> list Z) (fuel : nat) (n : Node) (h : Header)
    (key : list Z) (keyLength depth mkl : Z) (skipped : bool) :
  header n = Ok h ->
  lookupLoop ld (S fuel) n key keyLength depth mkl skipped =
  (next <- lookupInner n key depth skipped ;;
   match next with
   | Return r => Ok r
   | Continue node' depth' skipped' =>
       lookupLoop ld fuel node' key keyLength depth' mkl skipped'
   end).
Proof.
  intros Hh. destruct n; cbn [header] in Hh; try discriminate; reflexivity.
Qed.

Lemma nodeInv_not_linear (n : Node) : nodeInv n -> isLinear n = false.
Proof. destruct n; cbn; intros H; try contradiction; reflexivity. Qed.

(** With a matching stored prefix the lookup goes to the child of the next
    key byte. *)
Lemma lookupInner_match (n : Node) (h : Header) (key : list Z) (d : Z) (skipped : bool) :
  nodeInv n -> header n = Ok h ->
  0 <= d -> 0 <= prefixLength h < maxPrefixLength ->
  d + prefixLength h < Z.of_nat (length key) -> Z.of_nat (length key) < 2 ^ 32 ->
  (forall i, 0 <= i < prefixLength h -> at_ 0 key (d + i) = at_ 0 (prefix h) i) ->
  lookupInner n key d skipped =
  Ok (Continue (childAt n (at_ 0 key (d + prefixLength h))) (d + prefixLength h + 1) skipped).
Proof.
  intros Hinv Hh Hd Hp Hlen Hw Hmatch. unfold lookupInner. rewrite Hh. cbn [bind].
  destruct (findChild_inner n (at_ 0 key (d + prefixLength h)) Hinv) as (slot & Hslot & Hch).
  rewrite (nodeInv_not_linear n Hinv).
  destruct (Z.eqb_spec (prefixLength h) 0) as [E0|E0].
  - cbn [bind]. replace (d + prefixLength h) with d in * by lia.
    rewrite keyAt_ok by lia. cbn [bind].
    rewrite Hslot. cbn [bind]. rewrite u32_small by lia. now rewrite Hch.
  - destruct (Z.ltb_spec (prefixLength h) maxPrefixLength); [|lia].
    destruct (mismatchLoop_spec key d (fun pos => Ok (at_ 0 (prefix h) pos))
                (fun pos => at_ 0 (prefix h) pos) (Z.to_nat (prefixLength h)) 0)
      as (r & Hrun & Hspec).
    { intros i Hi. split; [lia|]. split; [lia|reflexivity]. }
    rewrite Hrun. cbn [bind]. destruct r as [p|p].
    + destruct Hspec as (H1 & H2 & _). exfalso. apply H2. apply Hmatch. lia.
    + cbn [bind]. rewrite u32_small by lia. rewrite keyAt_ok by lia. cbn [bind].
      rewrite Hslot. cbn [bind]. rewrite u32_small by lia. now rewrite Hch.
Qed.

Lemma lookup_wf (d : Z) (ref : list Z) (t : Node) :
  wf d ref t ->
  forall (v : Z) (fuel : nat),
    contains t v -> 8 - d <= Z.of_nat fuel ->
    lookupLoop loadKey fuel t (loadKey v) 8 d 8 false = Ok (makeLeaf v).
Proof.
  intros H.
  induction H as [d ref tid Ht Hd Hk|d ref n h Hh Hs Hd Hp Hlt Hlen Hr Hc IH];
    intros v fuel Hv Hfuel.
  - apply contains_makeLeaf_inv in Hv; [|lia]. subst v.
    assert (Hleaf : lookupLoop loadKey fuel (makeLeaf tid) (loadKey tid) 8 d 8 false =
                    lookupLeaf loadKey (makeLeaf tid) (loadKey tid) 8 d 8 false).
    { rewrite makeLeaf_word by lia. destruct fuel; reflexivity. }
    rewrite Hleaf. unfold lookupLeaf. cbn [negb andb].
    destruct (Z.eqb_spec d 8); [reflexivity|]. cbn [negb].
    rewrite getLeafValue_makeLeaf by lia. cbn [bind]. rewrite loadKeyBuf_8. cbn [bind].
    destruct (keysEqualFrom_spec (loadKey tid) (loadKey tid) (Z.to_nat (8 - d)) d)
      as (r & Hrun & Hspec).
    { intros j Hj. rewrite length_loadKey. lia. }
    rewrite Hrun. cbn [bind].
    assert (r = true) by (apply Hspec; intros; reflexivity). now subst r.
  - assert (Hwf : wf d ref n) by (eapply wf_inner; eauto).
    destruct fuel as [|fuel]; [lia|].
    destruct (wf_contains_agree d ref n Hwf v Hv) as (Hv63 & Hav).
    destruct (contains_inner_inv n h v Hh Hv) as (b & Hb & Hcb).
    destruct (wf_child_path d ref n h b v Hwf Hh Hb Hcb) as (Hmatch & Hbyte).
    rewrite (lookupLoop_inner loadKey fuel n h _ _ _ _ _ Hh).
    rewrite (lookupInner_match n h (loadKey v) d false (proj1 Hs) Hh Hd
               ltac:(unfold maxPrefixLength; lia)); auto;
      try (rewrite length_loadKey; cbn; lia).
    cbn [bind]. rewrite Hbyte.
    assert (Hnn : childAt n b <> Null).
    { intros E. rewrite E in Hcb. now apply contains_Null in Hcb. }
    apply (IH b Hb Hnn (loadKey v) Hav Hmatch Hbyte v fuel Hcb). lia.
Qed.

(** ** minimum *)

Lemma key_le_refl (k : list Z) : key_le k k.
Proof. now left. Qed.

(** The child [minimum] descends into is the child of the least byte that
    has one. *)
Lemma minimum_step (n : Node) :
  shape n ->
  exists b0, 0 <= b0 < 256 /\ childAt n b0 <> Null /\
    (forall b, 0 <= b < 256 -> childAt n b <> Null -> b0 <= b) /\
    forall fuel, minimum (S fuel) n = minimum fuel (childAt n b0).
Proof.
  intros (Hinv & Hmin). unfold nodeCount in Hmin.
  destruct n as [|w|h key child|h key child|h ci child|h child|h child fa fb];
    cbn [nodeInv] in Hinv; try contradiction; cbn [header minCount] in Hmin.
  - pose proof Hinv as (Hk & Hc & Hcnt & Hr & Hs & Hn).
    exists (at_ 0 key 0). split; [apply (Hr 0); lia|].
    assert (E : childAt (Node4 h key child) (at_ 0 key 0) = at_ Null child 0).
    { rewrite childAt_Node4. apply (arrChild_found 4 (fun x => x)); auto. lia. }
    split; [rewrite E; apply Hn; lia|]. split.
    + intros b Hb Hnn. rewrite childAt_Node4 in Hnn.
      destruct (arrChild_nonnull 4 (fun x => x) _ _ _ _ Hinv Hnn) as (i & Hi & Hbi & _).
      destruct (Z.eq_dec i 0) as [->|Hne]; [cbv beta in Hbi; lia|].
      specialize (Hs 0 i ltac:(lia) ltac:(lia)). cbv beta in Hs, Hbi. lia.
    + intros fuel. rewrite E. reflexivity.
  - pose proof Hinv as (Hk & Hc & Hcnt & Hr & Hs & Hn).
    exists (flipSign (at_ 0 key 0)). split; [apply (Hr 0); lia|].
    assert (E : childAt (Node16 h key child) (flipSign (at_ 0 key 0)) = at_ Null child 0).
    { rewrite childAt_Node16 by lia. apply (arrChild_found 16 flipSign); auto. lia. }
    split; [rewrite E; apply Hn; lia|]. split.
    + intros b Hb Hnn. rewrite childAt_Node16 in Hnn by lia.
      destruct (arrChild_nonnull 16 flipSign _ _ _ _ Hinv Hnn) as (i & Hi & Hbi & _).
      destruct (Z.eq_dec i 0) as [->|Hne]; [lia|].
      specialize (Hs 0 i ltac:(lia) ltac:(lia)). lia.
    + intros fuel. rewrite E. reflexivity.
  - pose proof Hinv as (H1 & H2 & H3 & H4 & H5 & H6 & H7 & H8).
    destruct (first_index (fun pos => negb (at_ 0 ci pos =? emptyMarker)) 0 256)
      as [pos|] eqn:E.
    + pose proof (first_index_some _ _ _ _ E) as (Hpos & Hp & Hbefore).
      apply negb_true_iff, Z.eqb_neq in Hp.
      exists pos. split; [lia|].
      assert (Ec : childAt (Node48 h ci child) pos = at_ Null child (at_ 0 ci pos)).
      { rewrite childAt_Node48. destruct (Z.eqb_spec (at_ 0 ci pos) emptyMarker);
          [contradiction|reflexivity]. }
      split; [rewrite Ec; apply H4; [lia|exact Hp]|]. split.
      * intros b Hb Hnn. rewrite childAt_Node48 in Hnn.
        destruct (Z.le_gt_cases pos b); [assumption|].
        specialize (Hbefore b ltac:(lia)). apply negb_false_iff in Hbefore.
        rewrite Hbefore in Hnn. contradiction.
      * intros fuel. rewrite Ec. cbn [minimum]. now rewrite E.
    + exfalso.
      destruct (countUpTo_pos_exists (fun b => negb (at_ 0 ci b =? emptyMarker)) 256)
        as (b & Hb & Hpb); [rewrite <- H7; lia|].
      rewrite (first_index_none _ _ _ E b) in Hpb by lia. discriminate.
  - pose proof Hinv as (H1 & H2).
    destruct (first_index (fun pos => negb (isNull (at_ Null child pos))) 0 256)
      as [pos|] eqn:E.
    + pose proof (first_index_some _ _ _ _ E) as (Hpos & Hp & Hbefore).
      apply negb_true_iff in Hp.
      exists pos. split; [lia|]. rewrite childAt_Node256.
      split; [intros En; rewrite En in Hp; discriminate|]. split.
      * intros b Hb Hnn. rewrite childAt_Node256 in Hnn.
        destruct (Z.le_gt_cases pos b); [assumption|].
        specialize (Hbefore b ltac:(lia)). apply negb_false_iff in Hbefore.
        apply isNull_true in Hbefore. contradiction.
      * intros fuel. cbn [minimum]. now rewrite E.
    + exfalso.
      destruct (countUpTo_pos_exists (fun b => negb (isNull (at_ Null child b))) 256)
        as (b & Hb & Hpb); [rewrite <- H2; lia|].
      rewrite (first_index_none _ _ _ E b) in Hpb by lia. discriminate.
Qed.

Lemma minimum_wf (d : Z) (ref : list Z) (t : Node) :
  wf d ref t ->
  forall fuel : nat, 8 - d <= Z.of_nat fuel ->
    exists m, minimum fuel t = Ok (makeLeaf m) /\ contains t m /\
              forall u, contains t u -> key_le (loadKey m) (loadKey u).
Proof.
  intros H.
  induction H as [d ref tid Ht Hd Hk|d ref n h Hh Hs Hd Hp Hlt Hlen Hr Hc IH];
    intros fuel Hfuel.
  - exists tid. split; [rewrite makeLeaf_word by lia; destruct fuel; reflexivity|].
    split; [now apply contains_makeLeaf|].
    intros u Hu. apply contains_makeLeaf_inv in Hu; [|lia]. subst u. apply key_le_refl.
  - assert (Hwf : wf d ref n) by (eapply wf_inner; eauto).
    destruct fuel as [|fuel]; [lia|].
    destruct (minimum_step n Hs) as (b0 & Hb0 & Hnn & Hleast & Hstep).
    destruct (pathKey_spec ref d h b0 Hd Hp Hlt) as (P1 & P2 & P3).
    destruct (IH b0 Hb0 Hnn (pathKey ref d h b0) P1 P2 P3 fuel ltac:(lia))
      as (m & Hrun & Hcm & Hminimal).
    exists m. split; [rewrite Hstep; exact Hrun|]. split; [now apply (contains_inner n b0 m)|].
    intros u Hu.
    destruct (contains_inner_inv n h u Hh Hu) as (b & Hb & Hcb).
    assert (Hbn : childAt n b <> Null).
    { intros E. rewrite E in Hcb. now apply contains_Null in Hcb. }
    pose proof (Hleast b Hb Hbn) as Hle.
    destruct (Z.eq_dec b b0) as [->|Hne]; [now apply Hminimal|].
    right. exists (d + prefixLength h).
    destruct (wf_contains_agree d ref n Hwf m (contains_inner n b0 m Hb0 Hcm)) as (_ & Am).
    destruct (wf_contains_agree d ref n Hwf u Hu) as (_ & Au).
    destruct (wf_child_path d ref n h b0 m Hwf Hh Hb0 Hcm) as (Mm & Bm).
    destruct (wf_child_path d ref n h b u Hwf Hh Hb Hcb) as (Mu & Bu).
    split; [lia|]. split; [|rewrite Bm, Bu; lia].
    intros i Hi. destruct (Z.lt_ge_cases i d).
    + rewrite Am, Au by lia. reflexivity.
    + replace i with (d + (i - d)) by lia. rewrite Mm, Mu by lia. reflexivity.
Qed.

Lemma subnode_Null (n : Node) : subnode n Null -> n = Null.
Proof.
  intros H. remember Null as t eqn:E in H.
  induction H as [t|n t b Hb Hs IH]; [exact E|].
  subst t. apply IH. reflexivity.
Qed.

Lemma wf_subnode (n t : Node) :
  subnode n t -> n <> Null ->
  forall d ref, wf d ref t -> exists d' ref', 0 <= d' /\ wf d' ref' n.
Proof.
  intros H Hn. induction H as [t|n t b Hb Hs IH]; intros d ref Hwf.
  - exists d, ref. split; [|exact Hwf].
    destruct Hwf; lia.
  - assert (Hcn : childAt t b <> Null).
    { intros E. rewrite E in Hs. apply subnode_Null in Hs. contradiction. }
    destruct Hwf as [d ref tid Ht Hd Hk|d ref t h Hh Hsh Hd Hp Hlt Hlen Hr Hc].
    + rewrite makeLeaf_word in Hcn by lia. now rewrite childAt_Leaf in Hcn.
    + destruct (pathKey_spec ref d h b Hd Hp Hlt) as (P1 & P2 & P3).
      apply (IH Hn (d + prefixLength h + 1) (pathKey ref d h b)).
      now apply Hc.
Qed.

(** ** Removal from sorted parallel arrays *)

Lemma at_removeAt {A : Type} (d : A) (l : list A) (pos cnt j : Z) :
  0 <= pos -> cnt <= Z.of_nat (length l) -> 0 <= j ->
  at_ d (removeAt d l pos cnt) j =
  if (pos <=? j) && (j <? cnt - 1) then at_ d l (j + 1) else at_ d l j.
Proof.
  intros Hp Hc Hj. unfold removeAt. rewrite at_blit by lia.
  destruct (Z.leb_spec pos j), (Z.ltb_spec j (pos + (cnt - pos - 1))),
    (Z.ltb_spec j (Z.of_nat (length l))), (Z.ltb_spec j (cnt - 1));
    cbn [andb]; try lia; try reflexivity.
  f_equal. lia.
Qed.

Lemma length_removeAt {A : Type} (d : A) (l : list A) (pos cnt : Z) :
  length (removeAt d l pos cnt) = length l.
Proof. unfold removeAt. apply length_blit. Qed.

Section SortedRemoval.

Variable cap : nat.
Variable dec : Z -> Z.

Lemma arrInv_remove (cnt : Z) (key : list Z) (child : list Node) (pos : Z) :
  arrInv cap dec cnt key child -> 0 <= pos < cnt ->
  arrInv cap dec (cnt - 1) (removeAt 0 key pos cnt) (removeAt Null child pos cnt).
Proof.
  intros (Hk & Hc & Hcnt & Hr & Hs & Hn) Hpos.
  unfold arrInv. rewrite !length_removeAt.
  split; [exact Hk|]. split; [exact Hc|]. split; [lia|].
  split; [|split].
  - intros i Hi. rewrite at_removeAt by lia.
    destruct ((pos <=? i) && (i <? cnt - 1)); apply Hr; lia.
  - intros i j Hi Hj. rewrite !at_removeAt by lia.
    destruct (Z.leb_spec pos i), (Z.ltb_spec i (cnt - 1)),
      (Z.leb_spec pos j), (Z.ltb_spec j (cnt - 1)); cbn [andb]; try lia;
      apply Hs; lia.
  - intros i Hi. rewrite at_removeAt by lia.
    destruct ((pos <=? i) && (i <? cnt - 1)); apply Hn; lia.
Qed.

Lemma arrChild_remove (cnt : Z) (key : list Z) (child : list Node) (pos b' : Z) :
  arrInv cap dec cnt key child -> 0 <= pos < cnt ->
  arrChild dec (cnt - 1) (removeAt 0 key pos cnt) (removeAt Null child pos cnt) b' =
  if b' =? dec (at_ 0 key pos) then Null else arrChild dec cnt key child b'.
Proof.
  intros Hinv Hpos.
  pose proof (arrInv_remove cnt key child pos Hinv Hpos) as Hinv'.
  pose proof Hinv as (Hk & Hc & Hcnt & Hr & Hs & Hn).
  assert (Hdist : forall i j, 0 <= i < cnt -> 0 <= j < cnt -> i <> j ->
                              dec (at_ 0 key i) <> dec (at_ 0 key j)).
  { intros i j Hi Hj Hij.
    destruct (Z.lt_ge_cases i j);
      [specialize (Hs i j ltac:(lia) ltac:(lia))|specialize (Hs j i ltac:(lia) ltac:(lia))];
      lia. }
  destruct (Z.eqb_spec b' (dec (at_ 0 key pos))) as [->|Hne].
  - apply arrChild_absent; [lia|]. intros i Hi. rewrite at_removeAt by lia.
    destruct (Z.leb_spec pos i), (Z.ltb_spec i (cnt - 1)); cbn [andb]; try lia;
      apply Hdist; lia.
  - destruct (arrChild_cases dec cnt key child b' ltac:(lia)) as [(j & Hj & Hbj)|Hno].
    + rewrite (arrChild_found cap dec _ _ _ _ j Hinv) by (auto; lia).
      assert (Hjp : j <> pos) by (intros ->; congruence).
      destruct (Z.lt_ge_cases j pos).
      * rewrite (arrChild_found cap dec _ _ _ _ j Hinv'); [| lia |].
        -- rewrite at_removeAt by lia.
           destruct (Z.leb_spec pos j); cbn [andb]; [lia|reflexivity].
        -- rewrite at_removeAt by lia.
           destruct (Z.leb_spec pos j); cbn [andb]; [lia|exact Hbj].
      * rewrite (arrChild_found cap dec _ _ _ _ (j - 1) Hinv'); [| lia |].
        -- rewrite at_removeAt by lia.
           destruct (Z.leb_spec pos (j - 1)), (Z.ltb_spec (j - 1) (cnt - 1));
             cbn [andb]; try lia. f_equal. lia.
        -- rewrite at_removeAt by lia.
           destruct (Z.leb_spec pos (j - 1)), (Z.ltb_spec (j - 1) (cnt - 1));
             cbn [andb]; try lia. rewrite <- Hbj. do 2 f_equal. lia.
    + rewrite (arrChild_absent dec cnt key child b') by (auto; lia).
      apply arrChild_absent; [lia|]. intros i Hi. rewrite at_removeAt by lia.
      destruct ((pos <=? i) && (i <? cnt - 1)); apply Hno; lia.
Qed.

End SortedRemoval.

(** ** Ranks: the number of set positions below a position *)

Lemma countUpTo_mono (p : Z -> bool) (a b : nat) :
  (a <= b)%nat -> countUpTo p a <= countUpTo p b.
Proof.
  induction 1 as [|b Hab IH]; [lia|]. cbn [countUpTo].
  destruct (p (Z.of_nat b)); cbn [Z.b2z]; lia.
Qed.

Lemma countUpTo_strict (p : Z -> bool) (a b : nat) :
  (a < b)%nat -> p (Z.of_nat a) = true -> countUpTo p a < countUpTo p b.
Proof.
  intros Hab Hp. pose proof (countUpTo_mono p (S a) b Hab) as H.
  cbn [countUpTo] in H. rewrite Hp in H. cbn [Z.b2z] in H. lia.
Qed.

Lemma countUpTo_inj (p : Z -> bool) (a b : nat) :
  p (Z.of_nat a) = true -> p (Z.of_nat b) = true ->
  countUpTo p a = countUpTo p b -> a = b.
Proof.
  intros Ha Hb E. destruct (Nat.lt_trichotomy a b) as [H|[H|H]]; [|exact H|].
  - pose proof (countUpTo_strict p a b H Ha). lia.
  - pose proof (countUpTo_strict p b a H Hb). lia.
Qed.

Lemma countUpTo_below (c : Z) (n : nat) :
  0 <= c <= Z.of_nat n -> countUpTo (fun s => s <? c) n = c.
Proof.
  revert c. induction n as [|n IH]; intros c Hc; cbn [countUpTo]; [lia|].
  destruct (Z.ltb_spec (Z.of_nat n) c); cbn [Z.b2z].
  - rewrite (countUpTo_ext (fun s => s <? c) (fun s => s <? Z.of_nat n) n).
    + rewrite (IH (Z.of_nat n)) by lia. lia.
    + intros i Hi. destruct (Z.ltb_spec i c), (Z.ltb_spec i (Z.of_nat n)); lia.
  - rewrite IH by lia. lia.
Qed.

(** Every rank below the count is the rank of a set position. *)
Lemma countUpTo_rank (p : Z -> bool) (n : nat) (s : Z) :
  0 <= s < countUpTo p n ->
  exists a, (a < n)%nat /\ p (Z.of_nat a) = true /\ countUpTo p a = s.
Proof.
  induction n as [|n IH]; cbn [countUpTo]; intros Hs; [lia|].
  destruct (Z.lt_ge_cases s (countUpTo p n)) as [H|H].
  - destruct (IH ltac:(lia)) as (a & Ha & Hp & E). exists a. split; [lia|auto].
  - destruct (p (Z.of_nat n)) eqn:E; cbn [Z.b2z] in Hs; [|lia].
    exists n. split; [lia|]. split; [exact E|lia].
Qed.

(** ** The shrink loops of eraseNode48 and eraseNode256 *)

Lemma rank_succ (p : Z -> bool) (b : Z) :
  0 <= b -> rank p (b + 1) = rank p b + Z.b2z (p b).
Proof.
  intros Hb. unfold rank. replace (Z.to_nat (b + 1)) with (S (Z.to_nat b)) by lia.
  cbn [countUpTo]. now rewrite Z2Nat.id by lia.
Qed.

Lemma rank_nonneg (p : Z -> bool) (b : Z) : 0 <= rank p b.
Proof. unfold rank. apply countUpTo_bounds. Qed.

Lemma rank_lt (p : Z -> bool) (a b : Z) :
  0 <= a < b -> p a = true -> rank p a < rank p b.
Proof.
  intros Hab Hp. unfold rank. apply countUpTo_strict; [lia|]. now rewrite Z2Nat.id by lia.
Qed.

Lemma rank_le (p : Z -> bool) (a b : Z) : 0 <= a <= b -> rank p a <= rank p b.
Proof. intros Hab. unfold rank. apply countUpTo_mono. lia. Qed.

Lemma rank_inj (p : Z -> bool) (a b : Z) :
  0 <= a -> 0 <= b -> p a = true -> p b = true -> rank p a = rank p b -> a = b.
Proof.
  intros Ha Hb Pa Pb E.
  apply Z2Nat.inj; [lia|lia|]. apply (countUpTo_inj p); auto; now rewrite Z2Nat.id by lia.
Qed.

Lemma rank_exists (p : Z -> bool) (n s : Z) :
  0 <= s < rank p n ->
  exists a, 0 <= a < n /\ p a = true /\ rank p a = s.
Proof.
  intros Hs. unfold rank in Hs.
  destruct (countUpTo_rank p (Z.to_nat n) s Hs) as (a & Ha & Hp & E).
  exists (Z.of_nat a). split; [lia|]. split; [exact Hp|]. unfold rank. now rewrite Nat2Z.id.
Qed.

Section Shrink48.

Variable childIndex : list Z.
Variable child : list Node.


Lemma shrink48_loop (n : nat) :
  forall (b c : Z) (key' : list Z) (child' : list Node),
    0 <= b -> b + Z.of_nat n = 256 -> rank (indexed childIndex) 256 <= 16 ->
    c = rank (indexed childIndex) b -> length key' = 16%nat -> length child' = 16%nat ->
    (forall b', 0 <= b' < b -> (indexed childIndex) b' = true ->
       at_ 0 key' (rank (indexed childIndex) b') = flipSign b' /\
       at_ Null child' (rank (indexed childIndex) b') = at_ Null child (at_ 0 childIndex b')) ->
    exists key'' child'',
      shrink48 childIndex child b n c key' child' = Ok (rank (indexed childIndex) 256, key'', child'') /\
      length key'' = 16%nat /\ length child'' = 16%nat /\
      forall b', 0 <= b' < 256 -> (indexed childIndex) b' = true ->
        at_ 0 key'' (rank (indexed childIndex) b') = flipSign b' /\
        at_ Null child'' (rank (indexed childIndex) b') = at_ Null child (at_ 0 childIndex b').
Proof.
  induction n as [|n IH]; intros b c key' child' Hb Hn Hcap Hc Hk Hch Hinv.
  - assert (b = 256) by lia. subst b. cbn [shrink48]. subst c.
    exists key', child'. auto.
  - cbn [shrink48].
    assert (Hp : (indexed childIndex) b = negb (at_ 0 childIndex b =? emptyMarker)) by reflexivity.
    assert (Hsucc : rank (indexed childIndex) (b + 1) = rank (indexed childIndex) b + Z.b2z ((indexed childIndex) b)) by (apply rank_succ; lia).
    destruct (at_ 0 childIndex b =? emptyMarker) eqn:E; cbn [negb] in Hp.
    + apply IH; auto; try lia.
      * rewrite Hsucc, Hp. cbn [Z.b2z]. lia.
      * intros b' Hb' Hpb'. apply Hinv; [|exact Hpb'].
        destruct (Z.eq_dec b' b); [congruence|lia].
    + rewrite Hp in Hsucc. cbn [Z.b2z] in Hsucc.
      assert (Hlt : c < 16).
      { pose proof (rank_le (indexed childIndex) (b + 1) 256 ltac:(lia)).   lia. }
      destruct (Z.ltb_spec c 16); [|lia].
      apply IH; auto; try lia; try (rewrite length_upd; assumption).
      intros b' Hb' Hpb'.
      destruct (Z.eq_dec b' b) as [->|Hne].
      * rewrite <- Hc. rewrite !at_upd by (pose proof (rank_nonneg (indexed childIndex) b); lia).
        rewrite Z.eqb_refl. rewrite Hk, Hch.
        destruct (Z.ltb_spec c (Z.of_nat 16)); [cbn [andb]|lia]. auto.
      * assert (Hr : rank (indexed childIndex) b' < c).
        { subst c. apply rank_lt; [lia|exact Hpb']. }
        assert (Hr0 : 0 <= rank (indexed childIndex) b') by (apply rank_nonneg).
        rewrite !at_upd by lia.
        destruct (Z.eqb_spec (rank (indexed childIndex) b') c); [lia|]. cbn [andb].
        apply Hinv; [lia|exact Hpb'].
Qed.

Lemma shrink48_spec (cnt : Z) :
  idxInv cnt childIndex child -> cnt <= 16 ->
  exists key' child',
    shrink48 childIndex child 0 256 0 (repeat 0 16) (repeat Null 16) =
      Ok (cnt, key', child') /\
    arrInv 16 flipSign cnt key' child' /\
    forall b, 0 <= b < 256 ->
      arrChild flipSign cnt key' child' b =
      if at_ 0 childIndex b =? emptyMarker then Null
      else at_ Null child (at_ 0 childIndex b).
Proof.
  intros Hinv Hcnt.
  pose proof Hinv as (H1 & H2 & H3 & H4 & H5 & H6 & H7 & H8).
  assert (Hr256 : rank (indexed childIndex) 256 = cnt) by (unfold rank; rewrite H7; reflexivity).
  assert (Hc0 : 0 <= cnt) by (pose proof (idxInv_count_le _ _ _ Hinv); lia).
  destruct (shrink48_loop 256 0 0 (repeat 0 16) (repeat Null 16))
    as (key' & child' & Hrun & Hk & Hc & Hpos);
    [lia | reflexivity | rewrite Hr256; lia | reflexivity | reflexivity | reflexivity
    | intros b' Hb'; lia | ].
  rewrite Hr256 in Hrun. exists key', child'. split; [exact Hrun|].
  assert (Hrank : forall i, 0 <= i < cnt ->
            exists a, 0 <= a < 256 /\ (indexed childIndex) a = true /\ rank (indexed childIndex) a = i).
  { intros i Hi. rewrite <- Hr256 in Hi. apply (rank_exists (indexed childIndex) 256 i Hi). }
  assert (Harr : arrInv 16 flipSign cnt key' child').
  { unfold arrInv. split; [exact Hk|]. split; [exact Hc|].
    split; [pose proof (idxInv_count_le _ _ _ Hinv); lia|].
    split; [|split].
    - intros i Hi. destruct (Hrank i Hi) as (a & Ha & Pa & Ra).
      destruct (Hpos a Ha Pa) as (Ek & _). rewrite Ra in Ek. rewrite Ek, flipSign_invol. lia.
    - intros i j Hi Hj.
      destruct (Hrank i ltac:(lia)) as (a & Ha & Pa & Ra).
      destruct (Hrank j ltac:(lia)) as (a' & Ha' & Pa' & Ra').
      destruct (Hpos a Ha Pa) as (Ek & _). rewrite Ra in Ek.
      destruct (Hpos a' Ha' Pa') as (Ek' & _). rewrite Ra' in Ek'.
      rewrite Ek, Ek', !flipSign_invol.
      destruct (Z.lt_ge_cases a a'); [assumption|].
      pose proof (rank_le (indexed childIndex) a' a ltac:(lia)) as Hle.   lia.
    - intros i Hi. destruct (Hrank i Hi) as (a & Ha & Pa & Ra).
      destruct (Hpos a Ha Pa) as (_ & Ec). rewrite Ra in Ec. rewrite Ec.
      apply H4; [lia|]. unfold indexed in Pa. apply negb_true_iff, Z.eqb_neq in Pa. exact Pa. }
  split; [exact Harr|].
  intros b Hb. destruct (at_ 0 childIndex b =? emptyMarker) eqn:E.
  - apply arrChild_absent; [lia|]. intros i Hi Hbi.
    destruct (Hrank i Hi) as (a & Ha & Pa & Ra).
    destruct (Hpos a Ha Pa) as (Ek & _). rewrite Ra in Ek.
    rewrite Ek, flipSign_invol in Hbi. subst a. unfold indexed in Pa. rewrite E in Pa.
    discriminate.
  - assert (Pb : (indexed childIndex) b = true) by (unfold indexed; now rewrite E).
    destruct (Hpos b Hb Pb) as (Ek & Ec).
    rewrite (arrChild_found 16 flipSign cnt key' child' b (rank (indexed childIndex) b) Harr).
    + exact Ec.
    + split; [apply rank_nonneg|]. rewrite <- Hr256. apply rank_lt; [lia|exact Pb].
    + rewrite Ek. apply flipSign_invol.
Qed.

End Shrink48.

Section Shrink256.

Variable child : list Node.


Lemma shrink256_loop (n : nat) :
  forall (b c : Z) (ci' : list Z) (child' : list Node),
    0 <= b -> b + Z.of_nat n = 256 -> rank (occupied child) 256 <= NODE48_SIZE ->
    c = rank (occupied child) b -> length ci' = 256%nat -> length child' = Z.to_nat NODE48_SIZE ->
    (forall b', 0 <= b' < 256 ->
       at_ 0 ci' b' = if (b' <? b) && (occupied child) b' then rank (occupied child) b' else emptyMarker) ->
    (forall b', 0 <= b' < b -> (occupied child) b' = true ->
       at_ Null child' (rank (occupied child) b') = at_ Null child b') ->
    (forall s, c <= s -> at_ Null child' s = Null) ->
    exists ci'' child'',
      shrink256 child b n c ci' child' = Ok (rank (occupied child) 256, ci'', child'') /\
      length ci'' = 256%nat /\ length child'' = Z.to_nat NODE48_SIZE /\
      (forall b', 0 <= b' < 256 ->
         at_ 0 ci'' b' = if (occupied child) b' then rank (occupied child) b' else emptyMarker) /\
      (forall b', 0 <= b' < 256 -> (occupied child) b' = true ->
         at_ Null child'' (rank (occupied child) b') = at_ Null child b') /\
      (forall s, rank (occupied child) 256 <= s -> at_ Null child'' s = Null).
Proof.
  induction n as [|n IH]; intros b c ci' child' Hb Hn Hcap Hc Hk Hch Hci Hinv Hnull.
  - assert (b = 256) by lia. subst b. cbn [shrink256]. subst c.
    exists ci', child'. split; [reflexivity|]. split; [exact Hk|]. split; [exact Hch|].
    split; [|split; [exact Hinv|exact Hnull]].
    intros b' Hb'. rewrite (Hci b' Hb').
    destruct (Z.ltb_spec b' 256); [reflexivity|lia].
  - cbn [shrink256].
    assert (Hp : (occupied child) b = negb (isNull (at_ Null child b))) by reflexivity.
    assert (Hsucc : rank (occupied child) (b + 1) = rank (occupied child) b + Z.b2z ((occupied child) b)) by (apply rank_succ; lia).
    assert (Hc0 : 0 <= c) by (subst c; apply rank_nonneg).
    destruct (isNull (at_ Null child b)) eqn:E; cbn [negb] in Hp.
    + apply IH; auto; try lia.
      * rewrite Hsucc, Hp. cbn [Z.b2z]. lia.
      * intros b' Hb'. rewrite (Hci b' Hb').
        destruct (Z.ltb_spec b' b), (Z.ltb_spec b' (b + 1)); cbn [andb]; try lia;
          try reflexivity.
        assert (b' = b) by lia. subst b'. now rewrite Hp.
      * intros b' Hb' Hpb'. apply Hinv; [|exact Hpb'].
        destruct (Z.eq_dec b' b); [congruence|lia].
    + rewrite Hp in Hsucc. cbn [Z.b2z] in Hsucc.
      assert (Hlt : c < NODE48_SIZE).
      { pose proof (rank_le (occupied child) (b + 1) 256 ltac:(lia)) as H.   lia. }
      destruct (Z.ltb_spec c NODE48_SIZE); [|lia].
      assert (Hlen : Z.of_nat (length child') = NODE48_SIZE).
      { rewrite Hch. unfold NODE48_SIZE. reflexivity. }
      apply IH; auto; try lia; try (rewrite length_upd; assumption).
      * intros b' Hb'. rewrite at_upd by lia. rewrite Hk.
        destruct (Z.eqb_spec b' b) as [->|Hne].
        -- destruct (Z.ltb_spec b (Z.of_nat 256)); [cbn [andb]|lia].
           destruct (Z.ltb_spec b (b + 1)); [cbn [andb]|lia]. rewrite Hp. exact Hc.
        -- cbn [andb]. rewrite (Hci b' Hb').
           destruct (Z.ltb_spec b' b), (Z.ltb_spec b' (b + 1)); cbn [andb]; try lia;
             reflexivity.
      * intros b' Hb' Hpb'.
        destruct (Z.eq_dec b' b) as [->|Hne].
        -- rewrite <- Hc. rewrite at_upd by lia. rewrite Z.eqb_refl.
           destruct (Z.ltb_spec c (Z.of_nat (length child'))); [reflexivity|lia].
        -- assert (Hr : rank (occupied child) b' < c) by (subst c; apply rank_lt; [lia|exact Hpb']).
           assert (Hr0 : 0 <= rank (occupied child) b') by (apply rank_nonneg).
           rewrite at_upd by lia.
           destruct (Z.eqb_spec (rank (occupied child) b') c); [lia|]. cbn [andb].
           apply Hinv; [lia|exact Hpb'].
      * intros s Hs. rewrite at_upd by lia.
        destruct (Z.eqb_spec s c); [lia|]. cbn [andb]. apply Hnull. lia.
Qed.

Lemma shrink256_spec (cnt : Z) :
  dirInv cnt child -> cnt < NODE48_SIZE ->
  exists ci' child',
    shrink256 child 0 256 0 (repeat emptyMarker 256) (repeat Null (Z.to_nat NODE48_SIZE)) =
      Ok (cnt, ci', child') /\
    idxInv cnt ci' child' /\
    forall b, 0 <= b < 256 ->
      (if at_ 0 ci' b =? emptyMarker then Null else at_ Null child' (at_ 0 ci' b)) =
      at_ Null child b.
Proof.
  intros (H1 & H2) Hcnt.
  assert (Hr256 : rank (occupied child) 256 = cnt) by (unfold rank; rewrite H2; reflexivity).
  assert (Hc0 : 0 <= cnt) by (rewrite <- Hr256; apply rank_nonneg).
  destruct (shrink256_loop 256 0 0 (repeat emptyMarker 256)
              (repeat Null (Z.to_nat NODE48_SIZE)))
    as (ci' & child' & Hrun & Hk & Hc & Hci & Hpos & Hnull);
    [lia | reflexivity | rewrite Hr256; lia | reflexivity | apply repeat_length
    | apply repeat_length | | intros b' Hb'; lia | intros s _; apply at_repeat_default | ].
  { intros b' Hb'. rewrite at_repeat by (cbn; lia).
    destruct (Z.ltb_spec b' 0); [lia|reflexivity]. }
  rewrite Hr256 in Hrun, Hnull. exists ci', child'. split; [exact Hrun|].
  assert (Hrank : forall i, 0 <= i < cnt ->
            exists a, 0 <= a < 256 /\ (occupied child) a = true /\ rank (occupied child) a = i).
  { intros i Hi. rewrite <- Hr256 in Hi. apply (rank_exists (occupied child) 256 i Hi). }
  assert (Hrk : forall b, 0 <= b < 256 -> (occupied child) b = true -> 0 <= rank (occupied child) b < cnt).
  { intros b Hb Pb. split; [apply rank_nonneg|].
    rewrite <- Hr256. apply rank_lt; [lia|exact Pb]. }
  assert (Hidx : forall b, 0 <= b < 256 ->
            (at_ 0 ci' b =? emptyMarker) = negb ((occupied child) b)).
  { intros b Hb. rewrite (Hci b Hb). destruct ((occupied child) b) eqn:Pb; cbn [negb].
    - apply Z.eqb_neq. pose proof (Hrk b Hb Pb). unfold emptyMarker. lia.
    - apply Z.eqb_refl. }
  split.
  - unfold idxInv. split; [exact Hk|]. split; [exact Hc|].
    split; [|split; [|split; [|split; [|split]]]].
    + intros b Hb. rewrite (Hci b Hb). destruct ((occupied child) b) eqn:Pb.
      * pose proof (Hrk b Hb Pb). unfold emptyMarker. lia.
      * unfold emptyMarker, NODE48_SIZE. lia.
    + intros b Hb Hne. apply Z.eqb_neq in Hne. rewrite (Hidx b Hb) in Hne.
      apply negb_false_iff in Hne. rewrite (Hci b Hb), Hne, (Hpos b Hb Hne).
      unfold occupied in Hne. apply negb_true_iff in Hne. intros En. rewrite En in Hne.
      discriminate.
    + intros b b' Hb Hb' Hne Heq. apply Z.eqb_neq in Hne. rewrite (Hidx b Hb) in Hne.
      apply negb_false_iff in Hne.
      assert (Hne' : (occupied child) b' = true).
      { destruct ((occupied child) b') eqn:Pb'; [reflexivity|].
        rewrite (Hci b Hb), (Hci b' Hb'), Hne, Pb' in Heq.
        pose proof (Hrk b Hb Hne). unfold emptyMarker in Heq. lia. }
      rewrite (Hci b Hb), (Hci b' Hb'), Hne, Hne' in Heq.
      apply (rank_inj (occupied child)); auto; lia.
    + intros s Hs Hnn. destruct (Z.lt_ge_cases s cnt) as [Hlt|Hge].
      * destruct (Hrank s ltac:(lia)) as (a & Ha & Pa & Ra).
        exists a. split; [exact Ha|]. now rewrite (Hci a Ha), Pa.
      * exfalso. apply Hnn. apply Hnull. lia.
    + rewrite <- Hr256. unfold rank. change (Z.to_nat 256) with 256%nat.
      apply countUpTo_ext. intros b Hb. rewrite (Hidx b ltac:(lia)).
      now rewrite negb_involutive.
    + rewrite <- (countUpTo_below cnt (Z.to_nat NODE48_SIZE))
        by (unfold NODE48_SIZE in *; lia).
      apply countUpTo_ext. intros s Hs.
      destruct (Z.ltb_spec s cnt) as [Hlt|Hge].
      * destruct (Hrank s ltac:(lia)) as (a & Ha & Pa & Ra).
        rewrite <- Ra, (Hpos a Ha Pa). symmetry. exact Pa.
      * rewrite (Hnull s Hge). reflexivity.
  - intros b Hb. rewrite (Hidx b Hb). destruct ((occupied child) b) eqn:Pb; cbn [negb].
    + rewrite (Hci b Hb), Pb. apply (Hpos b Hb Pb).
    + unfold occupied in Pb. apply negb_false_iff, isNull_true in Pb. now rewrite Pb.
Qed.

End Shrink256.

(** ** Removal of a child from each node type *)

Lemma dirInv_erase (cnt : Z) (child : list Node) (b : Z) :
  dirInv cnt child -> 0 <= b < 256 -> at_ Null child b <> Null ->
  dirInv (cnt - 1) (upd Null child b Null) /\
  forall b', 0 <= b' < 256 ->
    at_ Null (upd Null child b Null) b' = if b' =? b then Null else at_ Null child b'.
Proof.
  intros (Hlen & Hcnt) Hb Hnn.
  assert (Hat : forall b', 0 <= b' < 256 ->
            at_ Null (upd Null child b Null) b' =
            if b' =? b then Null else at_ Null child b').
  { intros b' Hb'. rewrite at_upd by lia. rewrite Hlen.
    destruct (Z.eqb_spec b' b), (Z.ltb_spec b' (Z.of_nat 256)); cbn [andb]; try lia;
      reflexivity. }
  split; [|exact Hat].
  unfold dirInv. rewrite length_upd. split; [exact Hlen|].
  rewrite (countUpTo_set (fun b0 => negb (isNull (at_ Null child b0))) _ 256 b);
    [|lia|intros i Hi Hne; apply nonnull_upd; lia].
  rewrite Hat by lia. rewrite Z.eqb_refl, (isNull_false _ Hnn).
  cbn [isNull negb Z.b2z]. lia.
Qed.

Lemma idxInv_erase (cnt : Z) (childIndex : list Z) (child : list Node) (b : Z) :
  idxInv cnt childIndex child -> 0 <= b < 256 -> at_ 0 childIndex b <> emptyMarker ->
  idxInv (cnt - 1) (upd 0 childIndex b emptyMarker)
         (upd Null child (at_ 0 childIndex b) Null) /\
  forall b', 0 <= b' < 256 ->
    (if at_ 0 (upd 0 childIndex b emptyMarker) b' =? emptyMarker then Null
     else at_ Null (upd Null child (at_ 0 childIndex b) Null)
                   (at_ 0 (upd 0 childIndex b emptyMarker) b')) =
    if b' =? b then Null
    else if at_ 0 childIndex b' =? emptyMarker then Null
         else at_ Null child (at_ 0 childIndex b').
Proof.
  intros (H1 & H2 & H3 & H4 & H5 & H6 & H7 & H8) Hb Hidx.
  unfold emptyMarker, NODE48_SIZE in *. change (Z.to_nat 24) with 24%nat in *.
  set (pos := at_ 0 childIndex b) in *.
  assert (Hpos : 0 <= pos < 24) by (pose proof (H3 b Hb); lia).
  assert (Hci : forall j, 0 <= j < 256 ->
            at_ 0 (upd 0 childIndex b 24) j = if j =? b then 24 else at_ 0 childIndex j).
  { intros j Hj. rewrite at_upd by lia. rewrite H1.
    destruct (Z.eqb_spec j b), (Z.ltb_spec j (Z.of_nat 256)); cbn [andb]; try lia;
      reflexivity. }
  assert (Hch : forall s, 0 <= s < 24 ->
            at_ Null (upd Null child pos Null) s = if s =? pos then Null else at_ Null child s).
  { intros s Hs. rewrite at_upd by lia. rewrite H2.
    destruct (Z.eqb_spec s pos), (Z.ltb_spec s (Z.of_nat 24)); cbn [andb]; try lia;
      reflexivity. }
  assert (Hother : forall j, 0 <= j < 256 -> j <> b -> at_ 0 childIndex j <> 24 ->
                             at_ 0 childIndex j <> pos).
  { intros j Hj Hne H24 E. apply Hne. apply (H5 j b); auto. }
  split.
  - unfold idxInv. rewrite !length_upd. unfold emptyMarker, NODE48_SIZE.
    change (Z.to_nat 24) with 24%nat.
    split; [exact H1|]. split; [exact H2|]. split; [|split; [|split; [|split; [|split]]]].
    + intros j Hj. rewrite Hci by lia. destruct (Z.eqb_spec j b); [lia|]. apply H3; lia.
    + intros j Hj. rewrite Hci by lia. destruct (Z.eqb_spec j b) as [->|Hne]; [lia|].
      intros Hj24. pose proof (H3 j Hj). rewrite Hch by lia.
      destruct (Z.eqb_spec (at_ 0 childIndex j) pos) as [E|_];
        [exfalso; now apply (Hother j Hj Hne Hj24)|]. now apply H4.
    + intros j j' Hj Hj'. rewrite !Hci by lia.
      destruct (Z.eqb_spec j b), (Z.eqb_spec j' b); try congruence; try lia.
      apply H5; lia.
    + intros s Hs. rewrite Hch by lia. destruct (Z.eqb_spec s pos) as [->|Hne];
        [congruence|].
      intros Hn. destruct (H6 s Hs Hn) as (j & Hj & Ej). exists j. split; [lia|].
      rewrite Hci by lia. destruct (Z.eqb_spec j b); [|exact Ej]. subst j.
      fold pos in Ej. congruence.
    + rewrite (countUpTo_set (fun j => negb (at_ 0 childIndex j =? 24)) _ 256 b); [|lia|].
      * rewrite Hci by lia. rewrite Z.eqb_refl. fold pos.
        change (24 =? 24) with true.
        destruct (Z.eqb_spec pos 24); [lia|]. cbn [negb Z.b2z]. lia.
      * intros i Hi Hne. rewrite Hci by lia. destruct (Z.eqb_spec i b); [contradiction|].
        reflexivity.
    + rewrite (countUpTo_set (fun s => negb (isNull (at_ Null child s))) _ 24 pos); [|lia|].
      * rewrite Hch by lia. rewrite Z.eqb_refl.
        rewrite (isNull_false (at_ Null child pos)) by (apply H4; [lia|unfold pos; lia]).
        cbn [isNull negb Z.b2z]. lia.
      * intros i Hi Hne. rewrite Hch by lia. destruct (Z.eqb_spec i pos); [contradiction|].
        reflexivity.
  - intros b' Hb'. rewrite Hci by lia.
    destruct (Z.eqb_spec b' b) as [->|Hne]; [reflexivity|].
    destruct (Z.eqb_spec (at_ 0 childIndex b') 24) as [E|E]; [reflexivity|].
    pose proof (H3 b' Hb'). rewrite Hch by lia.
    destruct (Z.eqb_spec (at_ 0 childIndex b') pos) as [E'|_];
      [exfalso; now apply (Hother b' Hb' Hne E)|reflexivity].
Qed.

Lemma eraseNode256_spec (h : Header) (child : list Node) (b : Z) :
  dirInv (count h) child -> length (prefix h) = 9%nat ->
  0 <= b < 256 -> at_ Null child b <> Null -> 19 <= count h ->
  exists n', eraseNode256 h child b = Ok n' /\ erased (Node256 h child) h b n'.
Proof.
  intros Hinv Hp Hb Hnn Hmin.
  pose proof Hinv as (Hlen & Hcnt).
  pose proof (countUpTo_bounds (fun b => negb (isNull (at_ Null child b))) 256) as Hbd.
  rewrite <- Hcnt in Hbd.
  destruct (dirInv_erase (count h) child b Hinv Hb Hnn) as (Hinv' & Hat).
  unfold eraseNode256. rewrite u16_small by lia.
  change (NODE48_SIZE * 3 / 4) with 18.
  destruct (Z.eqb_spec (count h - 1) 18) as [E|E].
  - destruct (shrink256_spec (upd Null child b Null) (count h - 1) Hinv')
      as (ci' & child' & Hrun & Hidx & Hch); [unfold NODE48_SIZE; lia|].
    rewrite E in Hrun. rewrite Hrun. cbn [bind].
    eexists. split; [reflexivity|]. unfold erased.
    eexists. split; [reflexivity|]. cbn [count copyPrefix nodeInv minCount].
    split; [rewrite <- E; exact Hidx|]. split; [lia|]. split; [apply samePrefix_copy|].
    split; [lia|].
    intros b' Hb'. rewrite childAt_Node48, childAt_Node256, (Hch b' Hb'). now apply Hat.
  - eexists. split; [reflexivity|]. unfold erased.
    eexists. split; [reflexivity|]. cbn [count prefixLength prefix nodeInv minCount].
    split; [exact Hinv'|]. split; [reflexivity|]. split; [now apply samePrefix_count|].
    split; [lia|].
    intros b' Hb'. rewrite !childAt_Node256. now apply Hat.
Qed.

Lemma eraseNode48_spec (h : Header) (childIndex : list Z) (child : list Node) (b : Z) :
  idxInv (count h) childIndex child -> length (prefix h) = 9%nat ->
  0 <= b < 256 -> at_ 0 childIndex b <> emptyMarker -> 13 <= count h ->
  exists n', eraseNode48 h childIndex child b = Ok n' /\
             erased (Node48 h childIndex child) h b n'.
Proof.
  intros Hinv Hp Hb Hidx Hmin.
  pose proof (idxInv_count_le _ _ _ Hinv) as Hbd. unfold NODE48_SIZE in Hbd.
  destruct (idxInv_erase (count h) childIndex child b Hinv Hb Hidx) as (Hinv' & Hat).
  unfold eraseNode48. rewrite u16_small by lia.
  destruct (Z.eqb_spec (count h - 1) 12) as [E|E].
  - destruct (shrink48_spec (upd 0 childIndex b emptyMarker)
                (upd Null child (at_ 0 childIndex b) Null) (count h - 1) Hinv')
      as (key' & child' & Hrun & Harr & Hch); [lia|].
    rewrite E in Hrun. rewrite Hrun. cbn [bind].
    eexists. split; [reflexivity|]. unfold erased.
    eexists. split; [reflexivity|]. cbn [count copyPrefix nodeInv minCount].
    split; [rewrite <- E; exact Harr|]. split; [lia|]. split; [apply samePrefix_copy|].
    split; [lia|].
    intros b' Hb'. rewrite childAt_Node16 by (cbn [count copyPrefix]; lia).
    cbn [count copyPrefix]. rewrite <- E, (Hch b' Hb'), childAt_Node48. now apply Hat.
  - eexists. split; [reflexivity|]. unfold erased.
    eexists. split; [reflexivity|]. cbn [count prefixLength prefix nodeInv minCount].
    split; [exact Hinv'|]. split; [reflexivity|]. split; [now apply samePrefix_count|].
    split; [lia|].
    intros b' Hb'. rewrite !childAt_Node48. now apply Hat.
Qed.

Lemma eraseNode16_spec (h : Header) (key : list Z) (child : list Node) (pos : Z) :
  arrInv 16 flipSign (count h) key child -> length (prefix h) = 9%nat ->
  0 <= pos < count h -> 4 <= count h ->
  exists n', eraseNode16 h key child pos = Ok n' /\
             erased (Node16 h key child) h (flipSign (at_ 0 key pos)) n'.
Proof.
  intros Hinv Hp Hpos Hmin.
  pose proof (arrInv_count _ _ _ _ _ Hinv) as Hbd.
  pose proof (arrInv_remove 16 flipSign (count h) key child pos Hinv Hpos) as Hinv'.
  unfold eraseNode16. rewrite u16_small by lia.
  change (NODE4_SIZE - 1) with 3. change NODE4_SIZE with 4.
  destruct (Z.eqb_spec (count h - 1) 3) as [E|E].
  - eexists. split; [reflexivity|]. unfold erased.
    eexists. split; [reflexivity|]. cbn [count copyPrefix nodeInv minCount].
    pose proof Hinv' as (Hk' & Hc' & _).
    assert (Hkey : forall i, 0 <= i < count h - 1 ->
              at_ 0 (blit 0 (map flipSign (removeAt 0 key pos (count h))) 0
                          (repeat 0 4) 0 3) i =
              flipSign (at_ 0 (removeAt 0 key pos (count h)) i)).
    { intros i Hi. rewrite at_blit by lia. rewrite repeat_length.
      destruct (Z.leb_spec 0 i), (Z.ltb_spec i (0 + 3)), (Z.ltb_spec i (Z.of_nat 4));
        cbn [andb]; try lia.
      rewrite at_map_flip by (rewrite Hk'; lia). f_equal. f_equal. lia. }
    assert (Hchild : forall i, 0 <= i < count h - 1 ->
              at_ Null (blit Null (removeAt Null child pos (count h)) 0
                             (repeat Null 4) 0 4) i =
              at_ Null (removeAt Null child pos (count h)) i).
    { intros i Hi. rewrite at_blit by lia. rewrite repeat_length.
      destruct (Z.leb_spec 0 i), (Z.ltb_spec i (0 + 4)), (Z.ltb_spec i (Z.of_nat 4));
        cbn [andb]; try lia.
      f_equal. lia. }
    split.
    { apply (arrInv_transfer 16 4 flipSign (fun x => x) (count h - 1)
               (removeAt 0 key pos (count h)) _ (removeAt Null child pos (count h)) _ Hinv').
      - now rewrite length_blit, repeat_length.
      - now rewrite length_blit, repeat_length.
      - lia.
      - exact Hkey.
      - exact Hchild. }
    split; [reflexivity|]. split; [apply samePrefix_copy|]. split; [lia|].
    intros b' Hb'. rewrite childAt_Node4, childAt_Node16 by lia.
    cbn [count copyPrefix].
    rewrite (arrChild_transfer flipSign (fun x => x) (count h - 1)
               (removeAt 0 key pos (count h)) _ (removeAt Null child pos (count h)) _ b'
               Hkey Hchild).
    now apply (arrChild_remove 16 flipSign).
  - eexists. split; [reflexivity|]. unfold erased.
    eexists. split; [reflexivity|]. cbn [count prefixLength prefix nodeInv minCount].
    split; [exact Hinv'|]. split; [reflexivity|]. split; [now apply samePrefix_count|].
    split; [lia|].
    intros b' Hb'. rewrite !childAt_Node16 by (cbn [count]; lia). cbn [count].
    now apply (arrChild_remove 16 flipSign).
Qed.

Lemma eraseNode4_spec (h : Header) (key : list Z) (child : list Node) (pos : Z) :
  arrInv 4 (fun x => x) (count h) key child -> length (prefix h) = 9%nat ->
  0 <= pos < count h -> 3 <= count h ->
  exists n', eraseNode4 h key child pos = Ok n' /\
             erased (Node4 h key child) h (at_ 0 key pos) n'.
Proof.
  intros Hinv Hp Hpos Hmin.
  pose proof (arrInv_count _ _ _ _ _ Hinv) as Hbd.
  pose proof (arrInv_remove 4 (fun x => x) (count h) key child pos Hinv Hpos) as Hinv'.
  unfold eraseNode4. rewrite u16_small by lia.
  destruct (Z.eqb_spec (count h - 1) 1) as [E|E]; [lia|].
  eexists. split; [reflexivity|]. unfold erased.
  eexists. split; [reflexivity|]. cbn [count prefixLength prefix nodeInv minCount].
  split; [exact Hinv'|]. split; [reflexivity|]. split; [now apply samePrefix_count|].
  split; [lia|].
  intros b' Hb'. rewrite !childAt_Node4. cbn [count].
  now apply (arrChild_remove 4 (fun x => x)).
Qed.

(** With two children left, the Node4 is replaced by the child that stays;
    an inner child takes over the prefix of the node and the key byte. *)
Lemma eraseNode4_merge (h : Header) (key : list Z) (child : list Node) (pos : Z) :
  arrInv 4 (fun x => x) (count h) key child -> count h = 2 -> 0 <= pos < 2 ->
  eraseNode4 h key child pos =
  match at_ Null child (1 - pos) with
  | Leaf w => Ok (Leaf w)
  | Null => Fail NullDeref
  | c => ch <- header c ;; Ok (setHeader c (concatPrefix h ch (at_ 0 key (1 - pos))))
  end.
Proof.
  intros (Hk & Hc & _) Hcnt Hpos. unfold eraseNode4. rewrite Hcnt.
  change (u16 (2 - 1) =? 1) with true. cbv iota.
  rewrite !at_removeAt by lia.
  assert (E : pos = 0 \/ pos = 1) by lia.
  destruct E as [-> | ->]; cbn [Z.leb Z.ltb Z.compare andb Z.sub Z.add Z.opp Z.pos_sub];
    destruct (at_ Null child _); reflexivity.
Qed.

(** ** Point erase keeps the invariant *)

Lemma upd_same {A : Type} (d : A) (l : list A) (i : Z) : upd d l i (at_ d l i) = l.
Proof.
  unfold upd. apply nth_ext with (d := d) (d' := d).
  - now rewrite length_map, length_zseq.
  - intros n Hn. rewrite length_map, length_zseq in Hn.
    pose proof (at_map_zseq d (fun j => if j =? i then at_ d l i else at_ d l j)
                  (length l) (Z.of_nat n) ltac:(lia)) as H.
    unfold at_ at 1 in H. rewrite Nat2Z.id in H. rewrite H.
    destruct (Z.eqb_spec (Z.of_nat n) i) as [<-|_]; unfold at_; now rewrite Nat2Z.id.
Qed.

Lemma setSlot_same (n : Node) (i : Z) : setSlot n i (slotChild n i) = n.
Proof.
  destruct n; cbn [setSlot]; try reflexivity; unfold slotChild; cbn [children];
    now rewrite upd_same.
Qed.

Lemma wf_leaf_inv (d : Z) (ref : list Z) (w : Z) :
  wf d ref (Leaf w) ->
  exists tid, Leaf w = makeLeaf tid /\ 0 <= tid < 2 ^ 63 /\ 0 <= d <= 8 /\
              agree (loadKey tid) ref d.
Proof.
  intros H. remember (Leaf w) as t eqn:E.
  destruct H as [d ref tid Ht Hd Hk|d ref n h Hh Hs Hd Hp Hlt Hlen Hr Hc].
  - exists tid. auto.
  - subst n. discriminate.
Qed.

Lemma makeLeaf_inj (a b : Z) :
  0 <= a < 2 ^ 63 -> 0 <= b < 2 ^ 63 -> makeLeaf a = makeLeaf b -> a = b.
Proof.
  intros Ha Hb E. rewrite !makeLeaf_word in E by lia.
  assert (H : 2 * a + 1 = 2 * b + 1) by congruence. lia.
Qed.

Lemma leafMatches_wf (tid v d : Z) :
  0 <= tid < 2 ^ 63 -> 0 <= v < 2 ^ 63 -> 0 <= d <= 8 ->
  agree (loadKey tid) (loadKey v) d ->
  leafMatches loadKey (makeLeaf tid) (loadKey v) 8 d 8 = Ok (tid =? v).
Proof.
  intros Ht Hv Hd Ha. unfold leafMatches.
  assert (Hall : (forall j, d <= j < 8 -> at_ 0 (loadKey tid) j = at_ 0 (loadKey v) j) ->
                 tid = v).
  { intros Hrest. apply loadKey_inj; [lia|lia|]. intros i Hi.
    destruct (Z.lt_ge_cases i d); [apply Ha; lia|apply Hrest; lia]. }
  destruct (Z.eqb_spec d 8) as [E|E].
  - rewrite (Hall ltac:(intros; lia)). now rewrite Z.eqb_refl.
  - rewrite getLeafValue_makeLeaf by lia. cbn [bind]. rewrite loadKeyBuf_8. cbn [bind].
    destruct (keysEqualFrom_spec (loadKey tid) (loadKey v) (Z.to_nat (8 - d)) d)
      as (r & Hrun & Hspec).
    { intros j Hj. rewrite !length_loadKey. lia. }
    rewrite Hrun. f_equal. destruct r.
    + symmetry. apply Z.eqb_eq. apply Hall. intros j Hj. apply (proj1 Hspec eq_refl). lia.
    + symmetry. apply Z.eqb_neq. intros ->.
      assert (false = true) by (apply Hspec; intros; reflexivity). discriminate.
Qed.

Lemma erase_inner (ld : Z -> list Z) (fuel : nat) (n : Node) (h : Header)
    (key : list Z) (keyLength depth mkl : Z) :
  header n = Ok h ->
  erase ld (S fuel) n key keyLength depth mkl =
  (mismatchPos <-
     (if prefixLength h =? 0 then Ok 0 else prefixMismatch ld fuel n key depth mkl) ;;
   if negb (prefixLength h =? 0) && negb (mismatchPos =? prefixLength h) then Ok n
   else
     let depth' := u32 (depth + prefixLength h) in
     keyByte <- keyAt key depth' ;;
     slot <- findChild n keyByte ;;
     let c := derefSlot n slot in
     found <-
       (if isLeaf c then leafMatches ld c key keyLength depth' mkl else Ok false) ;;
     match slot with
     | Some i =>
         if found then eraseFromNode n i keyByte
         else
           r <- erase ld fuel c key keyLength (u32 (depth' + 1)) mkl ;;
           Ok (setSlot n i r)
     | None => Ok n
     end).
Proof.
  intros Hh. destruct n; cbn [header] in Hh; try discriminate; inversion Hh; subst;
    reflexivity.
Qed.

(** The prefix an inner child takes over when its one-way parent goes. *)
Lemma concatPrefix_spec (h ch : Header) (k0 : Z) :
  0 <= prefixLength h -> 0 <= prefixLength ch ->
  prefixLength h + 1 + prefixLength ch < 9 ->
  length (prefix h) = 9%nat -> length (prefix ch) = 9%nat ->
  prefixLength (concatPrefix h ch k0) = prefixLength h + 1 + prefixLength ch /\
  count (concatPrefix h ch k0) = count ch /\
  length (prefix (concatPrefix h ch k0)) = 9%nat /\
  forall i, 0 <= i < prefixLength h + 1 + prefixLength ch ->
    at_ 0 (prefix (concatPrefix h ch k0)) i =
    if i <? prefixLength h then at_ 0 (prefix h) i
    else if i =? prefixLength h then k0
         else at_ 0 (prefix ch) (i - prefixLength h - 1).
Proof.
  intros Hp Hpc Hsum Hl Hlc. unfold concatPrefix, maxPrefixLength.
  destruct (Z.ltb_spec (prefixLength h) 9) as [_|]; [|lia].
  destruct (Z.ltb_spec (prefixLength h + 1) 9) as [_|]; [|lia].
  cbn [prefixLength count prefix].
  rewrite (Z.min_l (prefixLength ch)) by lia.
  rewrite Z.min_l by lia.
  split; [rewrite u32_small by lia; lia|]. split; [reflexivity|].
  split; [now rewrite length_blit|].
  intros i Hi. rewrite at_blit by lia. rewrite Hlc.
  destruct (Z.leb_spec 0 i), (Z.ltb_spec i (0 + (prefixLength h + 1 + prefixLength ch))),
    (Z.ltb_spec i (Z.of_nat 9)); cbn [andb]; try lia.
  replace (0 + (i - 0)) with i by lia.
  rewrite at_blit by lia. rewrite length_upd, Hl.
  destruct (Z.leb_spec (prefixLength h + 1) i),
    (Z.ltb_spec i (prefixLength h + 1 + prefixLength ch)),
    (Z.ltb_spec i (Z.of_nat 9)), (Z.ltb_spec i (prefixLength h)),
    (Z.eqb_spec i (prefixLength h)); cbn [andb]; try lia.
  - f_equal. lia.
  - rewrite at_upd by lia. rewrite Hl.
    destruct (Z.eqb_spec i (prefixLength h)); [lia|]. reflexivity.
  - rewrite at_upd by lia. rewrite Hl.
    destruct (Z.eqb_spec i (prefixLength h)), (Z.ltb_spec i (Z.of_nat 9)); cbn [andb];
      first [lia | reflexivity].
Qed.

Lemma erased_wf (d : Z) (ref : list Z) (n : Node) (h : Header) (b : Z) (n' : Node) :
  wf d ref n -> header n = Ok h -> erased n h b n' ->
  wf d ref n' /\
  (forall u, contains n' u ->
     exists b', 0 <= b' < 256 /\ b' <> b /\ contains (childAt n b') u) /\
  forall b' u, 0 <= b' < 256 -> b' <> b -> contains (childAt n b') u -> contains n' u.
Proof.
  intros Hwf Hh (h' & Hh' & Hinv' & Hcnt & (S1 & S2 & S3) & Hmin & Hch).
  destruct (wf_inner_inv d ref n h Hwf Hh) as (Hs & Hd & Hp & Hlt & Hlen & Hr & Hc).
  split; [|split].
  - apply (wf_inner d ref n' h'); auto; try lia.
    + split; [exact Hinv'|]. unfold nodeCount. now rewrite Hh'.
    + intros i Hi. rewrite S3 by lia. apply Hr. lia.
    + intros b' Hb' Hnn ref' Ha Hpre Hb. rewrite Hch in * by lia.
      destruct (Z.eqb_spec b' b); [contradiction|].
      rewrite S1 in *. apply Hc; auto.
      intros i Hi. rewrite Hpre by lia. apply S3; lia.
  - intros u Hu. destruct (contains_inner_inv n' h' u Hh' Hu) as (b' & Hb' & Hcb).
    rewrite Hch in Hcb by lia. destruct (Z.eqb_spec b' b).
    + now apply contains_Null in Hcb.
    + exists b'. auto.
  - intros b' u Hb' Hne Hu. apply (contains_inner n' b' u Hb'). rewrite Hch by lia.
    destruct (Z.eqb_spec b' b); [contradiction|exact Hu].
Qed.

Lemma eraseFromNode_spec (n : Node) (h : Header) (b i : Z) :
  nodeInv n -> header n = Ok h -> length (prefix h) = 9%nat ->
  minCount n <= count h -> 0 <= b < 256 ->
  findChild n b = Ok (Some i) -> childAt n b <> Null ->
  (forall key child, n = Node4 h key child -> 3 <= count h) ->
  exists n', eraseFromNode n i b = Ok n' /\ erased n h b n'.
Proof.
  intros Hinv Hh Hlen Hmin Hb Hf Hnn H4.
  destruct n as [|w|h0 key child|h0 key child|h0 ci child|h0 child|h0 child fa fb];
    cbn [nodeInv] in Hinv; try contradiction; cbn [header] in Hh;
    inversion Hh; subst h0; cbn [eraseFromNode minCount] in *.
  - cbn [findChild] in Hf. inversion Hf as [Hf']. apply first_index_some in Hf'.
    destruct Hf' as (Hi & Hk & _). apply Z.eqb_eq in Hk.
    pose proof (arrInv_count _ _ _ _ _ Hinv) as Hcnt.
    rewrite <- Hk. apply eraseNode4_spec; auto; [lia|]. now apply (H4 key child).
  - pose proof (arrInv_count _ _ _ _ _ Hinv) as Hcnt. cbn in Hcnt.
    rewrite findChild_Node16 in Hf by lia. inversion Hf as [Hf'].
    apply first_index_some in Hf'. destruct Hf' as (Hi & Hk & _). apply Z.eqb_eq in Hk.
    rewrite <- Hk. apply eraseNode16_spec; auto; lia.
  - cbn [findChild] in Hf.
    destruct (Z.eqb_spec (at_ 0 ci b) emptyMarker) as [E|E]; [discriminate|].
    apply eraseNode48_spec; auto.
  - rewrite childAt_Node256 in Hnn. apply eraseNode256_spec; auto.
Qed.

(** The inner child that stays when a Node4 with two children loses one. *)
Lemma merge_inner_wf (d : Z) (ref : list Z) (n : Node) (h : Header) (b2 : Z)
    (c2 : Node) (hc : Header) :
  wf d ref n -> header n = Ok h -> 0 <= b2 < 256 -> childAt n b2 = c2 ->
  header c2 = Ok hc ->
  wf d ref (setHeader c2 (concatPrefix h hc b2)) /\
  (forall u, contains (setHeader c2 (concatPrefix h hc b2)) u -> contains c2 u) /\
  forall u, contains c2 u -> contains (setHeader c2 (concatPrefix h hc b2)) u.
Proof.
  intros Hwf Hh Hb2 Hchild Hhc.
  destruct (wf_inner_inv d ref n h Hwf Hh) as (Hs & Hd & Hp & Hlt & Hlen & Hr & Hc).
  assert (Hnn : childAt n b2 <> Null).
  { rewrite Hchild. intros E. rewrite E in Hhc. discriminate. }
  destruct (pathKey_spec ref d h b2 Hd Hp Hlt) as (P1 & P2 & P3).
  pose proof (Hc b2 Hb2 Hnn (pathKey ref d h b2) P1 P2 P3) as Hw2. rewrite Hchild in Hw2.
  destruct (wf_inner_inv _ _ c2 hc Hw2 Hhc)
    as ((Hinv2 & Hmin2) & _ & Hpc & Hltc & Hlenc & Hrc & _).
  destruct (concatPrefix_spec h hc b2 Hp Hpc ltac:(lia) Hlen Hlenc) as (E1 & E2 & E3 & E4).
  destruct (setHeader_spec c2 hc (concatPrefix h hc b2) Hinv2 Hhc E2)
    as (Hinv' & Hh' & Hmin' & Hch').
  split; [|split; [intros u; now apply (contains_setHeader c2 hc)
                  |intros u; now apply (contains_setHeader_conv c2 hc)]].
  apply (wf_inner d ref _ (concatPrefix h hc b2)); auto; try lia.
  - split; [exact Hinv'|]. rewrite Hmin'. unfold nodeCount in *.
    rewrite Hh', E2. now rewrite Hhc in Hmin2.
  - intros i Hi. rewrite E4 by lia.
    destruct (Z.ltb_spec i (prefixLength h)); [apply Hr; lia|].
    destruct (Z.eqb_spec i (prefixLength h)); [lia|]. apply Hrc. lia.
  - intros b Hb Hbn ref' Ha Hpre Hbb. rewrite Hch' in *.
    assert (Hw : wf (d + prefixLength h + 1) ref' c2).
    { rewrite <- Hchild. apply Hc; auto.
      - intros i Hi. rewrite Hpre by lia. rewrite E4 by lia.
        destruct (Z.ltb_spec i (prefixLength h)); [reflexivity|lia].
      - rewrite Hpre by lia. rewrite E4 by lia.
        destruct (Z.ltb_spec (prefixLength h) (prefixLength h)); [lia|].
        now rewrite Z.eqb_refl. }
    destruct (wf_inner_inv _ _ c2 hc Hw Hhc) as (_ & _ & _ & _ & _ & _ & Hcc).
    replace (d + prefixLength (concatPrefix h hc b2) + 1)
      with (d + prefixLength h + 1 + prefixLength hc + 1) by lia.
    apply Hcc; auto.
    + apply agree_refl.
    + intros i Hi.
      replace (d + prefixLength h + 1 + i) with (d + (prefixLength h + 1 + i)) by lia.
      rewrite Hpre by lia. rewrite E4 by lia.
      destruct (Z.ltb_spec (prefixLength h + 1 + i) (prefixLength h)); [lia|].
      destruct (Z.eqb_spec (prefixLength h + 1 + i) (prefixLength h)); [lia|].
      f_equal. lia.
    + rewrite <- Hbb. f_equal. lia.
Qed.

Lemma erase_merge_wf (d : Z) (ref : list Z) (h : Header) (key : list Z)
    (child : list Node) (kb i : Z) :
  wf d ref (Node4 h key child) -> count h = 2 -> 0 <= kb < 256 ->
  findChild (Node4 h key child) kb = Ok (Some i) ->
  exists n', eraseNode4 h key child i = Ok n' /\ wf d ref n' /\
    (forall u, contains n' u ->
       exists b', 0 <= b' < 256 /\ b' <> kb /\
                  contains (childAt (Node4 h key child) b') u) /\
    forall b' u, 0 <= b' < 256 -> b' <> kb ->
      contains (childAt (Node4 h key child) b') u -> contains n' u.
Proof.
  intros Hwf Hcnt Hkb Hf.
  destruct (wf_inner_inv d ref _ h Hwf eq_refl) as ((Hinv & _) & Hd & Hp & Hlt & Hlen & Hr & Hc).
  cbn [nodeInv] in Hinv. pose proof Hinv as (Hk & Hch & _ & Hrange & Hsort & Hnn).
  cbn [findChild] in Hf. inversion Hf as [Hf']. apply first_index_some in Hf'.
  destruct Hf' as (Hi & Hki & _). apply Z.eqb_eq in Hki.
  rewrite Hcnt in Hrange, Hsort, Hnn, Hi.
  set (j := 1 - i). set (b2 := at_ 0 key j). set (c2 := at_ Null child j).
  assert (Hj : 0 <= j < 2) by (unfold j; lia).
  assert (Hb2 : 0 <= b2 < 256) by (apply Hrange; lia).
  assert (Hne : b2 <> kb).
  { unfold b2. rewrite <- Hki.
    destruct (Z.lt_ge_cases i j);
      [specialize (Hsort i j ltac:(lia) ltac:(lia))|specialize (Hsort j i ltac:(unfold j in *; lia) ltac:(lia))];
      lia. }
  assert (Hchild : childAt (Node4 h key child) b2 = c2).
  { rewrite childAt_Node4. apply (arrChild_found 4 (fun x => x)); auto. lia. }
  assert (Hc2 : c2 <> Null) by (apply Hnn; lia).
  rewrite (eraseNode4_merge h key child i) by (auto; lia). fold j c2 b2.
  destruct (pathKey_spec ref d h b2 Hd Hp Hlt) as (P1 & P2 & P3).
  assert (Hw2 : wf (d + prefixLength h + 1) (pathKey ref d h b2) c2).
  { rewrite <- Hchild. apply Hc; auto. now rewrite Hchild. }
  assert (Honly : forall b' u, 0 <= b' < 256 -> b' <> kb ->
            contains (childAt (Node4 h key child) b') u -> contains c2 u).
  { intros b' u Hb' Hne' Hu.
    assert (Hbn : childAt (Node4 h key child) b' <> Null).
    { intros E. rewrite E in Hu. now apply contains_Null in Hu. }
    rewrite childAt_Node4 in Hbn, Hu.
    destruct (arrChild_nonnull 4 (fun x => x) _ _ _ _ Hinv Hbn) as (i' & Hi' & Ei' & Ec').
    cbv beta in Ei'. rewrite Ec' in Hu.
    assert (i' = j) by (unfold j; destruct (Z.eq_dec i' i); [subst; congruence|lia]).
    subst i'. exact Hu. }
  assert (Hin : forall hc, header c2 = Ok hc ->
            exists n', Ok (setHeader c2 (concatPrefix h hc b2)) = Ok n' /\ wf d ref n' /\
              (forall u, contains n' u ->
                 exists b', 0 <= b' < 256 /\ b' <> kb /\
                            contains (childAt (Node4 h key child) b') u) /\
              forall b' u, 0 <= b' < 256 -> b' <> kb ->
                contains (childAt (Node4 h key child) b') u -> contains n' u).
  { intros hc Hhc.
    destruct (merge_inner_wf d ref _ h b2 c2 hc Hwf eq_refl Hb2 Hchild Hhc)
      as (Hw & Hcu & Hkeep).
    eexists. split; [reflexivity|]. split; [exact Hw|]. split.
    - intros u Hu. exists b2. split; [exact Hb2|]. split; [exact Hne|].
      rewrite Hchild. now apply Hcu.
    - intros b' u Hb' Hne' Hu. apply Hkeep. now apply (Honly b' u). }
  destruct c2 as [|w|h0 k0 c0|h0 k0 c0|h0 k0 c0|h0 c0|h0 c0 fa fb] eqn:Ec2;
    [contradiction| |apply Hin; reflexivity..].
  destruct (wf_leaf_inv _ _ _ Hw2) as (tid & Etid & Ht & _ & Ha).
  exists (Leaf w). split; [reflexivity|]. split; [|split].
  - rewrite Etid. apply wf_leaf; [exact Ht|lia|].
    eapply agree_trans; [|exact P1]. eapply agree_le; [|exact Ha]. lia.
  - intros u Hu. exists b2. split; [exact Hb2|]. split; [exact Hne|]. now rewrite Hchild.
  - exact Honly.
Qed.

Lemma erase_wf (d : Z) (ref : list Z) (t : Node) :
  wf d ref t ->
  forall (v : Z) (fuel : nat),
    0 <= v < 2 ^ 63 -> agree (loadKey v) ref d -> 8 - d <= Z.of_nat fuel ->
    exists t', erase loadKey fuel t (loadKey v) 8 d 8 = Ok t' /\
               (wf d ref t' \/ (t' = Null /\ t = makeLeaf v)) /\
               (forall u, contains t' u -> contains t u /\ u <> v) /\
               forall u, contains t u -> u <> v -> contains t' u.
Proof.
  intros H.
  induction H as [d ref tid Ht Hd Hk|d ref n h Hh Hs Hd Hp Hlt Hlen Hr Hc IH];
    intros v fuel Hv Hav Hfuel.
  - assert (Ha : agree (loadKey tid) (loadKey v) d).
    { eapply agree_trans; [exact Hk|]. now apply agree_sym. }
    pose proof (leafMatches_wf tid v d Ht Hv Hd Ha) as Hm.
    assert (Hrun : erase loadKey fuel (makeLeaf tid) (loadKey v) 8 d 8 =
                   Ok (if tid =? v then Null else makeLeaf tid)).
    { rewrite makeLeaf_word in * by lia. destruct fuel; cbn [erase]; rewrite Hm; reflexivity. }
    rewrite Hrun. destruct (Z.eqb_spec tid v) as [->|Hne].
    + exists Null. split; [reflexivity|]. split; [right; auto|]. split.
      * intros u Hu. now apply contains_Null in Hu.
      * intros u Hu Hne. apply contains_makeLeaf_inv in Hu; [|lia]. contradiction.
    + exists (makeLeaf tid). split; [reflexivity|]. split; [left; now apply wf_leaf|].
      split; [|auto].
      intros u Hu. split; [exact Hu|]. apply contains_makeLeaf_inv in Hu; [|lia]. lia.
  - assert (Hwf : wf d ref n) by (eapply wf_inner; eauto).
    destruct fuel as [|fuel]; [lia|].
    rewrite (erase_inner loadKey fuel n h _ _ _ _ Hh).
    destruct (prefixMismatch_stored loadKey fuel n h (loadKey v) d 8 Hh Hd
                ltac:(unfold maxPrefixLength; lia))
      as (pos & Hrun & Hpos & Hmatch & Hdiff);
      try (rewrite length_loadKey; cbn; lia).
    assert (Hmp : (if prefixLength h =? 0 then Ok 0
                   else prefixMismatch loadKey fuel n (loadKey v) d 8) = Ok pos).
    { destruct (Z.eqb_spec (prefixLength h) 0); [|exact Hrun]. f_equal. lia. }
    rewrite Hmp. cbn [bind].
    destruct (Z.eqb_spec pos (prefixLength h)) as [Efull|Epart].
    + rewrite andb_false_r. cbv zeta.
      rewrite (u32_small (d + prefixLength h)) by lia.
      rewrite keyAt_ok by (rewrite length_loadKey; lia). cbn [bind].
      set (kb := at_ 0 (loadKey v) (d + prefixLength h)).
      assert (Hkb : 0 <= kb < 256) by (apply loadKey_byte; lia).
      assert (Hmatch' : forall i, 0 <= i < prefixLength h ->
                at_ 0 (loadKey v) (d + i) = at_ 0 (prefix h) i).
      { intros i Hi. apply Hmatch. lia. }
      destruct (findChild_inner n kb (proj1 Hs)) as (slot & Hslot & Hchild).
      rewrite Hslot. cbn [bind]. rewrite <- Hchild.
      assert (Hoth : forall b' u, 0 <= b' < 256 -> b' <> kb ->
                       contains (childAt n b') u -> contains n u /\ u <> v).
      { intros b' u Hb' Hne Hu. split; [now apply (contains_inner n b' u)|].
        intros ->. destruct (wf_child_path d ref n h b' v Hwf Hh Hb' Hu) as (_ & E).
        fold kb in E. congruence. }
      destruct (isNull (childAt n kb)) eqn:Enull.
      * apply isNull_true in Enull. rewrite Enull. cbn [isLeaf bind].
        assert (Hres : match slot with
                       | Some i =>
                           r <- erase loadKey fuel Null (loadKey v) 8
                                  (u32 (d + prefixLength h + 1)) 8 ;;
                           Ok (setSlot n i r)
                       | None => Ok n
                       end = Ok n).
        { destruct slot as [i|]; [|reflexivity].
          assert (E : erase loadKey fuel Null (loadKey v) 8
                        (u32 (d + prefixLength h + 1)) 8 = Ok Null)
            by (destruct fuel; reflexivity).
          rewrite E. cbn [bind]. f_equal.
          rewrite <- Enull, Hchild. cbn [derefSlot]. apply setSlot_same. }
        rewrite Hres. exists n. split; [reflexivity|]. split; [left; exact Hwf|].
        split; [|auto].
        intros u Hu. destruct (contains_inner_inv n h u Hh Hu) as (b' & Hb' & Hcb).
        apply (Hoth b' u Hb'); [|exact Hcb].
        intros ->. rewrite Enull in Hcb. now apply contains_Null in Hcb.
      * assert (Hnn : childAt n kb <> Null) by (intros E; rewrite E in Enull; discriminate).
        destruct slot as [i|]; [|rewrite Hchild in Hnn; contradiction].
        assert (Hwc : wf (d + prefixLength h + 1) (loadKey v) (childAt n kb)).
        { apply Hc; auto. }
        assert (Hrec : exists t',
                  (r <- erase loadKey fuel (childAt n kb) (loadKey v) 8
                          (u32 (d + prefixLength h + 1)) 8 ;;
                   Ok (setSlot n i r)) = Ok t' /\
                  (childAt n kb <> makeLeaf v ->
                   (wf d ref t' \/ t' = Null /\ n = makeLeaf v) /\
                   (forall u, contains t' u -> contains n u /\ u <> v) /\
                   forall u, contains n u -> u <> v -> contains t' u)).
        { rewrite u32_small by lia.
          destruct (IH kb Hkb Hnn (loadKey v) Hav Hmatch' eq_refl v fuel Hv
                      (agree_refl _ _) ltac:(lia)) as (c' & Hrunc & Hres & Hcu & Hkeep).
          rewrite Hrunc. cbn [bind]. eexists. split; [reflexivity|].
          intros Hnv. destruct Hres as [Hwfc|(_ & E)]; [|contradiction].
          destruct (replace_child_wf d ref n h kb i c' Hwf Hh Hkb Hslot Hnn)
            as (Hwf' & Hh' & Hch').
          { intros ref' Ha Hp' Hb'. apply (wf_agree _ (loadKey v)); [exact Hwfc|].
            intros j Hj. destruct (Z.lt_ge_cases j d).
            - rewrite Ha, Hav by lia. reflexivity.
            - destruct (Z.eq_dec j (d + prefixLength h)) as [-> | Hjn]; [now rewrite Hb'|].
              replace j with (d + (j - d)) by lia. rewrite Hp', Hmatch' by lia. reflexivity. }
          { eapply wf_nonnull; eauto. }
          split; [left; exact Hwf'|]. split.
          - intros u Hu.
            destruct (contains_children _ h _ u Hh' Hch' Hu) as (b & Hb & Hcb).
            destruct (Z.eqb_spec b kb) as [->|Hne].
            + destruct (Hcu u Hcb) as (Hold & Huv). split; [|exact Huv].
              now apply (contains_inner n kb u).
            + now apply (Hoth b u).
          - intros u Hu Hne. destruct (contains_inner_inv n h u Hh Hu) as (b & Hb & Hcb).
            apply (contains_inner _ b u Hb). rewrite Hch' by lia.
            destruct (Z.eqb_spec b kb) as [->|_]; [now apply Hkeep|exact Hcb]. }
        destruct Hrec as (trec & Hrunrec & Hrecspec).
        assert (Hrem : exists t',
                  eraseFromNode n i kb = Ok t' /\ wf d ref t' /\
                  (forall u, contains t' u -> contains n u /\ u <> v) /\
                  forall b' u, 0 <= b' < 256 -> b' <> kb ->
                    contains (childAt n b') u -> contains t' u).
        { destruct (Z.le_gt_cases 3 (count h)) as [H3|H3].
          - destruct (eraseFromNode_spec n h kb i (proj1 Hs) Hh Hlen) as (n' & Hrun' & Her);
              auto.
            { destruct Hs as (_ & Hmin). unfold nodeCount in Hmin. now rewrite Hh in Hmin. }
            destruct (erased_wf d ref n h kb n' Hwf Hh Her) as (Hwf' & Hcu & Hkeep).
            exists n'. split; [exact Hrun'|]. split; [exact Hwf'|]. split; [|exact Hkeep].
            intros u Hu. destruct (Hcu u Hu) as (b' & Hb' & Hne & Hcb). now apply (Hoth b' u).
          - destruct Hs as (Hinv & Hmin). unfold nodeCount in Hmin. rewrite Hh in Hmin.
            destruct n as [|w|h0 key child|h0 key child|h0 ci child|h0 child|h0 child fa fb];
              cbn [nodeInv] in Hinv; try contradiction; cbn [header] in Hh;
              inversion Hh; subst h0; cbn [minCount] in Hmin; try lia.
            cbn [eraseFromNode].
            destruct (erase_merge_wf d ref h key child kb i Hwf ltac:(lia) Hkb Hslot)
              as (n' & Hrun' & Hwf' & Hcu & Hkeep).
            exists n'. split; [exact Hrun'|]. split; [exact Hwf'|]. split; [|exact Hkeep].
            intros u Hu. destruct (Hcu u Hu) as (b' & Hb' & Hne & Hcb). now apply (Hoth b' u). }
        destruct Hrem as (trem & Hrunrem & Hwfrem & Hcurem & Hkeeprem).
        destruct (childAt n kb) as [|w|h0 k0 c0|h0 k0 c0|h0 k0 c0|h0 c0|h0 c0 fa fb] eqn:Ec;
          [contradiction| |cbn [isLeaf bind]; rewrite Hrunrec; exists trec;
                           split; [reflexivity|];
                           apply Hrecspec; rewrite makeLeaf_word by lia; discriminate..].
        destruct (wf_leaf_inv _ _ _ Hwc) as (tid & Etid & Ht & _ & Ha).
        cbn [isLeaf]. rewrite Etid.
        assert (Ha' : agree (loadKey tid) (loadKey v) (d + prefixLength h)).
        { eapply agree_le; [|exact Ha]. lia. }
        rewrite (leafMatches_wf tid v (d + prefixLength h) Ht Hv ltac:(lia) Ha').
        cbn [bind]. destruct (Z.eqb_spec tid v) as [->|Hne].
        -- rewrite Hrunrem. exists trem. split; [reflexivity|]. split; [left; exact Hwfrem|].
           split; [exact Hcurem|].
           intros u Hu Hne. destruct (contains_inner_inv n h u Hh Hu) as (b' & Hb' & Hcb).
           destruct (Z.eq_dec b' kb) as [->|Hnb]; [|now apply (Hkeeprem b' u)].
           rewrite Ec, Etid in Hcb. apply contains_makeLeaf_inv in Hcb; [|lia].
           contradiction.
        -- rewrite <- Etid. rewrite Hrunrec. exists trec. split; [reflexivity|].
           apply Hrecspec. rewrite Etid. intros E. apply Hne. now apply makeLeaf_inj.
    + destruct (Z.eqb_spec (prefixLength h) 0) as [E0|E0]; [lia|]. cbn [negb andb].
      exists n. split; [reflexivity|]. split; [left; exact Hwf|]. split; [|auto].
      intros u Hu. split; [exact Hu|]. intros ->.
      destruct (contains_inner_inv n h v Hh Hu) as (b' & Hb' & Hcb).
      destruct (wf_child_path d ref n h b' v Hwf Hh Hb' Hcb) as (Hpath & _).
      apply (Hdiff ltac:(lia)). apply Hpath. lia.
Qed.

(** ** Trees built by point inserts and erases *)

Lemma built_inv (t : Node) (tids : list Z) :
  built t tids ->
  (t = Null \/ wf 0 [] t) /\ forall u, contains t u -> In u tids.
Proof.
  intros H. induction H as [|t t' tids tid fuel Hb IH Htid Hnin Hfuel Hrun
                            |t t' tids tid fuel Hb IH Htid Hfuel Hrun].
  - split; [now left|]. intros u Hu. now apply contains_Null in Hu.
  - destruct IH as (Hshape & Hsub). destruct Hshape as [->|Hwf].
    + assert (E : insert loadKey fuel Null (loadKey tid) 0 tid 8 = Ok (makeLeaf tid))
        by (destruct fuel; reflexivity).
      rewrite E in Hrun. inversion Hrun; subst t'. split.
      * right. constructor; [lia|lia|]. intros i Hi. lia.
      * intros u Hu. apply contains_makeLeaf_inv in Hu; [|lia]. subst u. now left.
    + destruct (insert_wf 0 [] t Hwf tid fuel Htid) as (t'' & Hrun' & Hwf' & Hcv & Hcu & _).
      { intros i Hi. lia. }
      { intros Hc. apply Hnin. now apply Hsub. }
      { lia. }
      rewrite Hrun' in Hrun. inversion Hrun; subst t''. split; [now right|].
      intros u Hu. destruct (Hcu u Hu) as [->|Hold]; [now left|right; now apply Hsub].
  - destruct IH as (Hshape & Hsub). destruct Hshape as [->|Hwf].
    + assert (E : erase loadKey fuel Null (loadKey tid) 8 0 8 = Ok Null)
        by (destruct fuel; reflexivity).
      rewrite E in Hrun. inversion Hrun; subst t'. split; [now left|].
      intros u Hu. now apply contains_Null in Hu.
    + destruct (erase_wf 0 [] t Hwf tid fuel Htid) as (t'' & Hrun' & Hres & Hcu & _).
      { intros i Hi. lia. }
      { lia. }
      rewrite Hrun' in Hrun. inversion Hrun; subst t''. split.
      * destruct Hres as [Hwf'|(E & _)]; [now right|now left].
      * intros u Hu. destruct (Hcu u Hu) as (Hold & Hne).
        apply in_in_remove; [exact Hne|now apply Hsub].
Qed.

(** C1.  In a tree built from the empty tree by point inserts of distinct
    tuple identifiers (and point erases), the insert of an identifier [v]
    that is not in the tree returns, and the lookup of the key of [v] in
    the new tree returns the leaf of [v]. *)
Theorem lookup_after_insert (t : Node) (tids : list Z) (v : Z) (fuel : nat) :
  built t tids -> 0 <= v < 2 ^ 63 -> ~ In v tids -> (8 <= fuel)%nat ->
  exists t',
    insert loadKey fuel t (loadKey v) 0 v 8 = Ok t' /\
    lookup loadKey fuel t' (loadKey v) 8 0 8 = Ok (makeLeaf v).
Proof.
  intros Hb Hv Hnin Hfuel.
  assert (Hb' : built t tids) by exact Hb.
  apply built_inv in Hb'. destruct Hb' as ([->|Hwf] & Hsub).
  - exists (makeLeaf v). split; [destruct fuel; reflexivity|].
    unfold lookup. apply (lookup_wf 0 [] (makeLeaf v)).
    + constructor; [lia|lia|]. intros i Hi. lia.
    + now apply contains_makeLeaf.
    + lia.
  - destruct (insert_wf 0 [] t Hwf v fuel Hv) as (t' & Hrun & Hwf' & Hcv & _).
    + intros i Hi. lia.
    + intros Hc. apply Hnin. now apply Hsub.
    + lia.
    + exists t'. split; [exact Hrun|]. unfold lookup.
      apply (lookup_wf 0 [] t' Hwf' v fuel Hcv). lia.
Qed.

(** C8 (amended).  In a tree built by point inserts and erases, [minimum] of a
    non-null node returns the leaf with the smallest key below it; it does
    so through slot 0 of a Node4 or Node16, through the first byte with an
    index in a Node48 and through the first non-null child of a Node256. *)
Theorem minimum_smallest_leaf (t : Node) (tids : list Z) (n : Node) (fuel : nat) :
  built t tids -> subnode n t -> n <> Null -> (8 <= fuel)%nat ->
  (exists m, minimum fuel n = Ok (makeLeaf m) /\ contains n m /\
             forall u, contains n u -> key_le (loadKey m) (loadKey u)) /\
  (forall w, minimum fuel (Leaf w) = Ok (Leaf w)) /\
  (forall h key child,
     minimum (S fuel) (Node4 h key child) = minimum fuel (at_ Null child 0) /\
     minimum (S fuel) (Node16 h key child) = minimum fuel (at_ Null child 0)) /\
  (forall h childIndex child pos,
     first_index (fun p => negb (at_ 0 childIndex p =? emptyMarker)) 0 256 = Some pos ->
     minimum (S fuel) (Node48 h childIndex child) =
     minimum fuel (at_ Null child (at_ 0 childIndex pos))) /\
  (forall h child pos,
     first_index (fun p => negb (isNull (at_ Null child p))) 0 256 = Some pos ->
     minimum (S fuel) (Node256 h child) = minimum fuel (at_ Null child pos)).
Proof.
  intros Hb Hsub Hn Hfuel. split; [|split; [|split; [|split]]].
  - apply built_inv in Hb. destruct Hb as ([->|Hwf] & _).
    + apply subnode_Null in Hsub. contradiction.
    + destruct (wf_subnode n t Hsub Hn 0 [] Hwf) as (d' & ref' & Hd' & Hwf').
      apply (minimum_wf d' ref' n Hwf'). lia.
  - intros w. destruct fuel; reflexivity.
  - intros h key child. split; reflexivity.
  - intros h ci child pos E. cbn [minimum]. now rewrite E.
  - intros h child pos E. cbn [minimum]. now rewrite E.
Qed.

(** ** Keys that are not in the tree *)

Lemma leafMatches_key (tid v d : Z) :
  0 <= tid < 2 ^ 63 -> 0 <= v < 2 ^ 64 -> 0 <= d <= 8 ->
  agree (loadKey tid) (loadKey v) d ->
  leafMatches loadKey (makeLeaf tid) (loadKey v) 8 d 8 = Ok (tid =? v).
Proof.
  intros Ht Hv Hd Ha. unfold leafMatches.
  assert (Hall : (forall j, d <= j < 8 -> at_ 0 (loadKey tid) j = at_ 0 (loadKey v) j) ->
                 tid = v).
  { intros Hrest. apply loadKey_inj; [lia|lia|]. intros i Hi.
    destruct (Z.lt_ge_cases i d); [apply Ha; lia|apply Hrest; lia]. }
  destruct (Z.eqb_spec d 8) as [E|E].
  - rewrite (Hall ltac:(intros; lia)). now rewrite Z.eqb_refl.
  - rewrite getLeafValue_makeLeaf by lia. cbn [bind]. rewrite loadKeyBuf_8. cbn [bind].
    destruct (keysEqualFrom_spec (loadKey tid) (loadKey v) (Z.to_nat (8 - d)) d)
      as (r & Hrun & Hspec).
    { intros j Hj. rewrite !length_loadKey. lia. }
    rewrite Hrun. f_equal. destruct r.
    + symmetry. apply Z.eqb_eq. apply Hall. intros j Hj. apply (proj1 Hspec eq_refl). lia.
    + symmetry. apply Z.eqb_neq. intros ->.
      assert (false = true) by (apply Hspec; intros; reflexivity). discriminate.
Qed.

Lemma lookupInner_mismatch (n : Node) (h : Header) (key : list Z) (d pos : Z)
    (skipped : bool) :
  header n = Ok h -> 0 <= d -> 0 <= pos < prefixLength h ->
  prefixLength h < maxPrefixLength ->
  d + prefixLength h <= Z.of_nat (length key) -> Z.of_nat (length key) < 2 ^ 32 ->
  at_ 0 key (d + pos) <> at_ 0 (prefix h) pos ->
  lookupInner n key d skipped = Ok (Return Null).
Proof.
  intros Hh Hd Hpos Hcap Hlen Hw Hdiff. unfold lookupInner. rewrite Hh. cbn [bind].
  destruct (Z.eqb_spec (prefixLength h) 0) as [E0|E0]; [lia|].
  destruct (Z.ltb_spec (prefixLength h) maxPrefixLength); [|lia].
  destruct (mismatchLoop_spec key d (fun pos => Ok (at_ 0 (prefix h) pos))
              (fun pos => at_ 0 (prefix h) pos) (Z.to_nat (prefixLength h)) 0)
    as (r & Hrun & Hspec).
  { intros i Hi. split; [lia|]. split; [lia|reflexivity]. }
  rewrite Hrun. cbn [bind]. destruct r as [p|p]; [reflexivity|].
  destruct Hspec as (H1 & H2). exfalso. apply Hdiff. apply H2. lia.
Qed.

Lemma lookupLoop_Null (ld : Z -> list Z) (fuel : nat) (key : list Z)
    (keyLength depth mkl : Z) (skipped : bool) :
  lookupLoop ld fuel Null key keyLength depth mkl skipped = Ok Null.
Proof. destruct fuel; reflexivity. Qed.

Lemma lookup_absent_wf (d : Z) (ref : list Z) (t : Node) :
  wf d ref t ->
  forall (v : Z) (fuel : nat),
    0 <= v < 2 ^ 64 -> agree (loadKey v) ref d -> ~ contains t v ->
    8 - d <= Z.of_nat fuel ->
    lookupLoop loadKey fuel t (loadKey v) 8 d 8 false = Ok Null.
Proof.
  intros H.
  induction H as [d ref tid Ht Hd Hk|d ref n h Hh Hs Hd Hp Hlt Hlen Hr Hc IH];
    intros v fuel Hv Hav Hnot Hfuel.
  - assert (Hne : tid <> v).
    { intros ->. apply Hnot. now apply contains_makeLeaf. }
    assert (Ha : agree (loadKey tid) (loadKey v) d).
    { eapply agree_trans; [exact Hk|]. now apply agree_sym. }
    assert (Hleaf : lookupLoop loadKey fuel (makeLeaf tid) (loadKey v) 8 d 8 false =
                    lookupLeaf loadKey (makeLeaf tid) (loadKey v) 8 d 8 false).
    { rewrite makeLeaf_word by lia. destruct fuel; reflexivity. }
    rewrite Hleaf. unfold lookupLeaf. cbn [negb andb].
    assert (Hall : (forall j, d <= j < 8 -> at_ 0 (loadKey tid) j = at_ 0 (loadKey v) j) ->
                   False).
    { intros Hrest. apply Hne. apply loadKey_inj; [lia|lia|]. intros i Hi.
      destruct (Z.lt_ge_cases i d); [apply Ha; lia|apply Hrest; lia]. }
    destruct (Z.eqb_spec d 8); [exfalso; apply Hall; intros; lia|]. cbn [negb].
    rewrite getLeafValue_makeLeaf by lia. cbn [bind]. rewrite loadKeyBuf_8. cbn [bind].
    destruct (keysEqualFrom_spec (loadKey tid) (loadKey v) (Z.to_nat (8 - d)) d)
      as (r & Hrun & Hspec).
    { intros j Hj. rewrite !length_loadKey. lia. }
    rewrite Hrun. cbn [bind]. destruct r; [|reflexivity].
    exfalso. apply Hall. intros j Hj. apply (proj1 Hspec eq_refl). lia.
  - assert (Hwf : wf d ref n) by (eapply wf_inner; eauto).
    destruct fuel as [|fuel]; [lia|].
    rewrite (lookupLoop_inner loadKey fuel n h _ _ _ _ _ Hh).
    destruct (prefixMismatch_stored loadKey fuel n h (loadKey v) d 8 Hh Hd
                ltac:(unfold maxPrefixLength; lia))
      as (pos & _ & Hpos & Hmatch & Hdiff);
      try (rewrite length_loadKey; cbn; lia).
    destruct (Z.eq_dec pos (prefixLength h)) as [Efull|Epart].
    + assert (Hmatch' : forall i, 0 <= i < prefixLength h ->
                at_ 0 (loadKey v) (d + i) = at_ 0 (prefix h) i).
      { intros i Hi. apply Hmatch. lia. }
      rewrite (lookupInner_match n h (loadKey v) d false (proj1 Hs) Hh Hd
                 ltac:(unfold maxPrefixLength; lia)); auto;
        try (rewrite length_loadKey; cbn; lia).
      cbn [bind]. set (kb := at_ 0 (loadKey v) (d + prefixLength h)).
      assert (Hkb : 0 <= kb < 256) by (apply loadKey_byte; lia).
      destruct (isNull (childAt n kb)) eqn:Enull.
      * apply isNull_true in Enull. rewrite Enull. apply lookupLoop_Null.
      * assert (Hnn : childAt n kb <> Null) by (intros E; rewrite E in Enull; discriminate).
        apply (IH kb Hkb Hnn (loadKey v) Hav Hmatch' eq_refl v fuel Hv (agree_refl _ _)).
        -- intros Hcon. apply Hnot. now apply (contains_inner n kb v).
        -- lia.
    + assert (Hd' : at_ 0 (loadKey v) (d + pos) <> at_ 0 (prefix h) pos)
        by (apply Hdiff; lia).
      rewrite (lookupInner_mismatch n h (loadKey v) d pos false Hh Hd ltac:(lia)
                 ltac:(unfold maxPrefixLength; lia)
                 ltac:(rewrite length_loadKey; cbn; lia)
                 ltac:(rewrite length_loadKey; cbn; lia) Hd').
      reflexivity.
Qed.

Lemma erase_Null (ld : Z -> list Z) (fuel : nat) (key : list Z) (keyLength depth mkl : Z) :
  erase ld fuel Null key keyLength depth mkl = Ok Null.
Proof. destruct fuel; reflexivity. Qed.

Lemma erase_absent_wf (d : Z) (ref : list Z) (t : Node) :
  wf d ref t ->
  forall (v : Z) (fuel : nat),
    0 <= v < 2 ^ 64 -> agree (loadKey v) ref d -> ~ contains t v ->
    8 - d <= Z.of_nat fuel ->
    erase loadKey fuel t (loadKey v) 8 d 8 = Ok t.
Proof.
  intros H.
  induction H as [d ref tid Ht Hd Hk|d ref n h Hh Hs Hd Hp Hlt Hlen Hr Hc IH];
    intros v fuel Hv Hav Hnot Hfuel.
  - assert (Hne : tid <> v).
    { intros ->. apply Hnot. now apply contains_makeLeaf. }
    assert (Ha : agree (loadKey tid) (loadKey v) d).
    { eapply agree_trans; [exact Hk|]. now apply agree_sym. }
    pose proof (leafMatches_key tid v d Ht Hv Hd Ha) as Hm.
    apply Z.eqb_neq in Hne. rewrite Hne in Hm.
    rewrite makeLeaf_word in * by lia. destruct fuel; cbn [erase]; rewrite Hm; reflexivity.
  - assert (Hwf : wf d ref n) by (eapply wf_inner; eauto).
    destruct fuel as [|fuel]; [lia|].
    rewrite (erase_inner loadKey fuel n h _ _ _ _ Hh).
    destruct (prefixMismatch_stored loadKey fuel n h (loadKey v) d 8 Hh Hd
                ltac:(unfold maxPrefixLength; lia))
      as (pos & Hrun & Hpos & Hmatch & Hdiff);
      try (rewrite length_loadKey; cbn; lia).
    assert (Hmp : (if prefixLength h =? 0 then Ok 0
                   else prefixMismatch loadKey fuel n (loadKey v) d 8) = Ok pos).
    { destruct (Z.eqb_spec (prefixLength h) 0); [|exact Hrun]. f_equal. lia. }
    rewrite Hmp. cbn [bind].
    destruct (Z.eqb_spec pos (prefixLength h)) as [Efull|Epart].
    + rewrite andb_false_r. cbv zeta.
      rewrite (u32_small (d + prefixLength h)) by lia.
      rewrite keyAt_ok by (rewrite length_loadKey; lia). cbn [bind].
      set (kb := at_ 0 (loadKey v) (d + prefixLength h)).
      assert (Hkb : 0 <= kb < 256) by (apply loadKey_byte; lia).
      assert (Hmatch' : forall i, 0 <= i < prefixLength h ->
                at_ 0 (loadKey v) (d + i) = at_ 0 (prefix h) i).
      { intros i Hi. apply Hmatch. lia. }
      destruct (findChild_inner n kb (proj1 Hs)) as (slot & Hslot & Hchild).
      rewrite Hslot. cbn [bind]. rewrite <- Hchild.
      destruct slot as [i|].
      * assert (Hrec : erase loadKey fuel (childAt n kb) (loadKey v) 8
                         (u32 (d + prefixLength h + 1)) 8 = Ok (childAt n kb)).
        { destruct (isNull (childAt n kb)) eqn:Enull.
          - apply isNull_true in Enull. rewrite Enull. apply erase_Null.
          - assert (Hnn : childAt n kb <> Null)
              by (intros E; rewrite E in Enull; discriminate).
            rewrite u32_small by lia.
            apply (IH kb Hkb Hnn (loadKey v) Hav Hmatch' eq_refl v fuel Hv (agree_refl _ _)).
            + intros Hcon. apply Hnot. now apply (contains_inner n kb v).
            + lia. }
        assert (Hfound : (if isLeaf (childAt n kb)
                          then leafMatches loadKey (childAt n kb) (loadKey v) 8
                                 (d + prefixLength h) 8
                          else Ok false) = Ok false).
        { destruct (childAt n kb) as [|w|h0 k0 c0|h0 k0 c0|h0 k0 c0|h0 c0|h0 c0 fa fb] eqn:Ec;
            try reflexivity.
          assert (Hwc : wf (d + prefixLength h + 1) (loadKey v) (Leaf w)).
          { rewrite <- Ec. apply Hc; auto. rewrite Ec. discriminate. }
          destruct (wf_leaf_inv _ _ _ Hwc) as (tid & Etid & Ht & _ & Ha).
          cbn [isLeaf]. rewrite Etid.
          rewrite (leafMatches_key tid v (d + prefixLength h) Ht Hv ltac:(lia)).
          - f_equal. apply Z.eqb_neq. intros ->. apply Hnot.
            apply (contains_inner n kb v Hkb). rewrite Ec, Etid.
            now apply contains_makeLeaf.
          - eapply agree_le; [|exact Ha]. lia. }
        rewrite Hfound. cbn [bind]. rewrite Hrec. cbn [bind]. f_equal.
        rewrite Hchild. cbn [derefSlot]. apply setSlot_same.
      * rewrite Hchild. cbn [derefSlot isLeaf bind]. reflexivity.
    + destruct (Z.eqb_spec (prefixLength h) 0) as [E0|E0]; [lia|]. reflexivity.
Qed.

(** ** The identifiers of a built tree *)

Lemma built_complete (t : Node) (tids : list Z) :
  built t tids -> forall u, In u tids -> contains t u.
Proof.
  intros H. induction H as [|t t' tids tid fuel Hb IH Htid Hnin Hfuel Hrun
                            |t t' tids tid fuel Hb IH Htid Hfuel Hrun];
    intros u Hu.
  - destruct Hu.
  - destruct (built_inv t tids Hb) as ([->|Hwf] & Hsub).
    + assert (E : insert loadKey fuel Null (loadKey tid) 0 tid 8 = Ok (makeLeaf tid))
        by (destruct fuel; reflexivity).
      rewrite E in Hrun. inversion Hrun; subst t'.
      destruct Hu as [<-|Hu]; [now apply contains_makeLeaf|].
      exfalso. apply (contains_Null u). now apply IH.
    + destruct (insert_wf 0 [] t Hwf tid fuel Htid)
        as (t'' & Hrun' & Hwf' & Hcv & Hcu & Hkeep).
      { intros i Hi. lia. }
      { intros Hc. apply Hnin. now apply Hsub. }
      { lia. }
      rewrite Hrun' in Hrun. inversion Hrun; subst t''.
      destruct Hu as [<-|Hu]; [exact Hcv|]. apply Hkeep. now apply IH.
  - apply in_remove in Hu. destruct Hu as (Hu & Hne).
    destruct (built_inv t tids Hb) as ([->|Hwf] & Hsub).
    + exfalso. apply (contains_Null u). now apply IH.
    + destruct (erase_wf 0 [] t Hwf tid fuel Htid) as (t'' & Hrun' & Hres & Hcu & Hkeep).
      { intros i Hi. lia. }
      { lia. }
      rewrite Hrun' in Hrun. inversion Hrun; subst t''.
      apply Hkeep; [now apply IH|exact Hne].
Qed.

Lemma built_range (t : Node) (tids : list Z) :
  built t tids -> forall u, In u tids -> 0 <= u < 2 ^ 63.
Proof.
  intros Hb u Hu. pose proof (built_complete t tids Hb u Hu) as Hc.
  destruct (built_inv t tids Hb) as ([->|Hwf] & _).
  - now apply contains_Null in Hc.
  - now destruct (wf_contains_agree 0 [] t Hwf u Hc).
Qed.

Lemma agree_nil (k : list Z) : agree k [] 0.
Proof. intros i Hi. lia. Qed.

Lemma subnode_contains (n t : Node) (u : Z) :
  subnode n t -> contains n u -> contains t u.
Proof.
  intros H Hu. induction H as [t|n t b Hb Hs IH]; [exact Hu|].
  apply (contains_inner t b u Hb). now apply IH.
Qed.

(** ** maximum *)

Lemma last_index_some (p : Z -> bool) (n : nat) (hi i : Z) :
  last_index p hi n = Some i ->
  hi - Z.of_nat n < i <= hi /\ p i = true /\ forall j, i < j <= hi -> p j = false.
Proof.
  revert hi. induction n as [|n IH]; intros hi H; cbn [last_index] in H; [discriminate|].
  destruct (p hi) eqn:E.
  - inversion H; subst. split; [lia|]. split; [exact E|]. intros j Hj. lia.
  - destruct (IH _ H) as (H1 & H2 & H3). split; [lia|]. split; [exact H2|].
    intros j Hj. destruct (Z.eq_dec j hi); [subst; exact E|apply H3; lia].
Qed.

Lemma last_index_none (p : Z -> bool) (n : nat) (hi : Z) :
  last_index p hi n = None -> forall j, hi - Z.of_nat n < j <= hi -> p j = false.
Proof.
  revert hi. induction n as [|n IH]; intros hi H j Hj; cbn [last_index] in H; [lia|].
  destruct (p hi) eqn:E; [discriminate|].
  destruct (Z.eq_dec j hi); [subst; exact E|]. apply (IH _ H). lia.
Qed.

(** The child [maximum] descends into is the child of the greatest byte
    that has one. *)
Lemma maximum_step (n : Node) :
  shape n ->
  exists b1, 0 <= b1 < 256 /\ childAt n b1 <> Null /\
    (forall b, 0 <= b < 256 -> childAt n b <> Null -> b <= b1) /\
    forall fuel, maximum (S fuel) n = maximum fuel (childAt n b1).
Proof.
  intros (Hinv & Hmin). unfold nodeCount in Hmin.
  destruct n as [|w|h key child|h key child|h ci child|h child|h child fa fb];
    cbn [nodeInv] in Hinv; try contradiction; cbn [header minCount] in Hmin.
  - pose proof Hinv as (Hk & Hc & Hcnt & Hr & Hs & Hn).
    exists (at_ 0 key (count h - 1)). split; [apply (Hr (count h - 1)); lia|].
    assert (E : childAt (Node4 h key child) (at_ 0 key (count h - 1)) =
                at_ Null child (count h - 1)).
    { rewrite childAt_Node4. apply (arrChild_found 4 (fun x => x)); auto. lia. }
    split; [rewrite E; apply Hn; lia|]. split.
    + intros b Hb Hnn. rewrite childAt_Node4 in Hnn.
      destruct (arrChild_nonnull 4 (fun x => x) _ _ _ _ Hinv Hnn) as (i & Hi & Hbi & _).
      destruct (Z.eq_dec i (count h - 1)) as [->|Hne]; [cbv beta in Hbi; lia|].
      specialize (Hs i (count h - 1) ltac:(lia) ltac:(lia)). cbv beta in Hs, Hbi. lia.
    + intros fuel. rewrite E. cbn [maximum]. unfold childArrayAt. rewrite Hc.
      destruct (Z.leb_spec 0 (count h - 1)), (Z.ltb_spec (count h - 1) (Z.of_nat 4));
        cbn [andb bind]; try lia. reflexivity.
  - pose proof Hinv as (Hk & Hc & Hcnt & Hr & Hs & Hn).
    exists (flipSign (at_ 0 key (count h - 1))). split; [apply (Hr (count h - 1)); lia|].
    assert (E : childAt (Node16 h key child) (flipSign (at_ 0 key (count h - 1))) =
                at_ Null child (count h - 1)).
    { rewrite childAt_Node16 by lia. apply (arrChild_found 16 flipSign); auto. lia. }
    split; [rewrite E; apply Hn; lia|]. split.
    + intros b Hb Hnn. rewrite childAt_Node16 in Hnn by lia.
      destruct (arrChild_nonnull 16 flipSign _ _ _ _ Hinv Hnn) as (i & Hi & Hbi & _).
      destruct (Z.eq_dec i (count h - 1)) as [->|Hne]; [lia|].
      specialize (Hs i (count h - 1) ltac:(lia) ltac:(lia)). lia.
    + intros fuel. rewrite E. cbn [maximum]. unfold childArrayAt. rewrite Hc.
      destruct (Z.leb_spec 0 (count h - 1)), (Z.ltb_spec (count h - 1) (Z.of_nat 16));
        cbn [andb bind]; try lia. reflexivity.
  - pose proof Hinv as (H1 & H2 & H3 & H4 & H5 & H6 & H7 & H8).
    destruct (last_index (fun pos => negb (at_ 0 ci pos =? emptyMarker)) 255 256)
      as [pos|] eqn:E.
    + pose proof (last_index_some _ _ _ _ E) as (Hpos & Hp & Hafter).
      apply negb_true_iff, Z.eqb_neq in Hp.
      exists pos. split; [lia|].
      assert (Ec : childAt (Node48 h ci child) pos = at_ Null child (at_ 0 ci pos)).
      { rewrite childAt_Node48. destruct (Z.eqb_spec (at_ 0 ci pos) emptyMarker);
          [contradiction|reflexivity]. }
      split; [rewrite Ec; apply H4; [lia|exact Hp]|]. split.
      * intros b Hb Hnn. rewrite childAt_Node48 in Hnn.
        destruct (Z.le_gt_cases b pos); [assumption|].
        specialize (Hafter b ltac:(lia)). apply negb_false_iff in Hafter.
        rewrite Hafter in Hnn. contradiction.
      * intros fuel. rewrite Ec. cbn [maximum]. now rewrite E.
    + exfalso.
      destruct (countUpTo_pos_exists (fun b => negb (at_ 0 ci b =? emptyMarker)) 256)
        as (b & Hb & Hpb); [rewrite <- H7; lia|].
      rewrite (last_index_none _ _ _ E b) in Hpb by lia. discriminate.
  - pose proof Hinv as (H1 & H2).
    destruct (last_index (fun pos => negb (isNull (at_ Null child pos))) 255 256)
      as [pos|] eqn:E.
    + pose proof (last_index_some _ _ _ _ E) as (Hpos & Hp & Hafter).
      apply negb_true_iff in Hp.
      exists pos. split; [lia|]. rewrite childAt_Node256.
      split; [intros En; rewrite En in Hp; discriminate|]. split.
      * intros b Hb Hnn. rewrite childAt_Node256 in Hnn.
        destruct (Z.le_gt_cases b pos); [assumption|].
        specialize (Hafter b ltac:(lia)). apply negb_false_iff in Hafter.
        apply isNull_true in Hafter. contradiction.
      * intros fuel. cbn [maximum]. now rewrite E.
    + exfalso.
      destruct (countUpTo_pos_exists (fun b => negb (isNull (at_ Null child b))) 256)
        as (b & Hb & Hpb); [rewrite <- H2; lia|].
      rewrite (last_index_none _ _ _ E b) in Hpb by lia. discriminate.
Qed.

Lemma maximum_wf (d : Z) (ref : list Z) (t : Node) :
  wf d ref t ->
  forall fuel : nat, 8 - d <= Z.of_nat fuel ->
    exists m, maximum fuel t = Ok (makeLeaf m) /\ contains t m /\
              forall u, contains t u -> key_le (loadKey u) (loadKey m).
Proof.
  intros H.
  induction H as [d ref tid Ht Hd Hk|d ref n h Hh Hs Hd Hp Hlt Hlen Hr Hc IH];
    intros fuel Hfuel.
  - exists tid. split; [rewrite makeLeaf_word by lia; destruct fuel; reflexivity|].
    split; [now apply contains_makeLeaf|].
    intros u Hu. apply contains_makeLeaf_inv in Hu; [|lia]. subst u. apply key_le_refl.
  - assert (Hwf : wf d ref n) by (eapply wf_inner; eauto).
    destruct fuel as [|fuel]; [lia|].
    destruct (maximum_step n Hs) as (b1 & Hb1 & Hnn & Hgreatest & Hstep).
    destruct (pathKey_spec ref d h b1 Hd Hp Hlt) as (P1 & P2 & P3).
    destruct (IH b1 Hb1 Hnn (pathKey ref d h b1) P1 P2 P3 fuel ltac:(lia))
      as (m & Hrun & Hcm & Hmaximal).
    exists m. split; [rewrite Hstep; exact Hrun|]. split; [now apply (contains_inner n b1 m)|].
    intros u Hu.
    destruct (contains_inner_inv n h u Hh Hu) as (b & Hb & Hcb).
    assert (Hbn : childAt n b <> Null).
    { intros E. rewrite E in Hcb. now apply contains_Null in Hcb. }
    pose proof (Hgreatest b Hb Hbn) as Hle.
    destruct (Z.eq_dec b b1) as [->|Hne]; [now apply Hmaximal|].
    right. exists (d + prefixLength h).
    destruct (wf_contains_agree d ref n Hwf m (contains_inner n b1 m Hb1 Hcm)) as (_ & Am).
    destruct (wf_contains_agree d ref n Hwf u Hu) as (_ & Au).
    destruct (wf_child_path d ref n h b1 m Hwf Hh Hb1 Hcm) as (Mm & Bm).
    destruct (wf_child_path d ref n h b u Hwf Hh Hb Hcb) as (Mu & Bu).
    split; [lia|]. split; [|rewrite Bm, Bu; lia].
    intros i Hi. destruct (Z.lt_ge_cases i d).
    + rewrite Am, Au by lia. reflexivity.
    + replace i with (d + (i - d)) by lia. rewrite Mm, Mu by lia. reflexivity.
Qed.

(** ** lookupPessimistic *)

Lemma lookupPessimistic_inner (ld : Z -> list Z) (fuel : nat) (n : Node) (h : Header)
    (key : list Z) (keyLength depth mkl : Z) :
  header n = Ok h ->
  lookupPessimistic ld (S fuel) n key keyLength depth mkl =
  (mismatchPos <- prefixMismatch ld fuel n key depth mkl ;;
   if negb (mismatchPos =? prefixLength h) then Ok Null
   else
     let depth' := u32 (depth + prefixLength h) in
     keyByte <- keyAt key depth' ;;
     slot <- findChild n keyByte ;;
     lookupPessimistic ld fuel (derefSlot n slot) key keyLength (u32 (depth' + 1)) mkl).
Proof.
  intros Hh. destruct n; cbn [header] in Hh; try discriminate; inversion Hh; subst;
    reflexivity.
Qed.

Lemma lookupPessimistic_Null (ld : Z -> list Z) (fuel : nat) (key : list Z)
    (keyLength depth mkl : Z) :
  lookupPessimistic ld fuel Null key keyLength depth mkl = Ok Null.
Proof. destruct fuel; reflexivity. Qed.

Lemma lookupPessimistic_wf (d : Z) (ref : list Z) (t : Node) :
  wf d ref t ->
  forall (v : Z) (fuel : nat),
    0 <= v < 2 ^ 64 -> agree (loadKey v) ref d -> 8 - d <= Z.of_nat fuel ->
    lookupPessimistic loadKey fuel t (loadKey v) 8 d 8 =
    lookupLoop loadKey fuel t (loadKey v) 8 d 8 false.
Proof.
  intros H.
  induction H as [d ref tid Ht Hd Hk|d ref n h Hh Hs Hd Hp Hlt Hlen Hr Hc IH];
    intros v fuel Hv Hav Hfuel.
  - assert (Ha : agree (loadKey tid) (loadKey v) d).
    { eapply agree_trans; [exact Hk|]. now apply agree_sym. }
    pose proof (leafMatches_key tid v d Ht Hv Hd Ha) as Hm.
    assert (Hl : lookupPessimistic loadKey fuel (makeLeaf tid) (loadKey v) 8 d 8 =
                 Ok (if tid =? v then makeLeaf tid else Null)).
    { rewrite makeLeaf_word in * by lia.
      destruct fuel; cbn [lookupPessimistic]; rewrite Hm; reflexivity. }
    assert (Hr : lookupLoop loadKey fuel (makeLeaf tid) (loadKey v) 8 d 8 false =
                 lookupLeaf loadKey (makeLeaf tid) (loadKey v) 8 d 8 false).
    { rewrite makeLeaf_word by lia. destruct fuel; reflexivity. }
    rewrite Hl, Hr. unfold lookupLeaf. cbn [negb andb].
    unfold leafMatches in Hm.
    destruct (Z.eqb_spec d 8) as [E|E].
    + inversion Hm as [Hm']. reflexivity.
    + cbn [negb]. rewrite getLeafValue_makeLeaf in * by lia. cbn [bind] in *.
      rewrite loadKeyBuf_8 in *. cbn [bind] in *. rewrite Hm. reflexivity.
  - assert (Hwf : wf d ref n) by (eapply wf_inner; eauto).
    destruct fuel as [|fuel]; [lia|].
    rewrite (lookupLoop_inner loadKey fuel n h _ _ _ _ _ Hh).
    rewrite (lookupPessimistic_inner loadKey fuel n h _ _ _ _ Hh).
    destruct (prefixMismatch_stored loadKey fuel n h (loadKey v) d 8 Hh Hd
                ltac:(unfold maxPrefixLength; lia))
      as (pos & Hrun & Hpos & Hmatch & Hdiff);
      try (rewrite length_loadKey; cbn; lia).
    rewrite Hrun. cbn [bind].
    destruct (Z.eqb_spec pos (prefixLength h)) as [Efull|Epart]; cbn [negb].
    + assert (Hmatch' : forall i, 0 <= i < prefixLength h ->
                at_ 0 (loadKey v) (d + i) = at_ 0 (prefix h) i).
      { intros i Hi. apply Hmatch. lia. }
      rewrite (lookupInner_match n h (loadKey v) d false (proj1 Hs) Hh Hd
                 ltac:(unfold maxPrefixLength; lia)); auto;
        try (rewrite length_loadKey; cbn; lia).
      cbn [bind]. cbv zeta. rewrite (u32_small (d + prefixLength h)) by lia.
      rewrite keyAt_ok by (rewrite length_loadKey; lia). cbn [bind].
      set (kb := at_ 0 (loadKey v) (d + prefixLength h)).
      assert (Hkb : 0 <= kb < 256) by (apply loadKey_byte; lia).
      destruct (findChild_inner n kb (proj1 Hs)) as (slot & Hslot & Hchild).
      rewrite Hslot. cbn [bind]. rewrite <- Hchild. rewrite u32_small by lia.
      destruct (isNull (childAt n kb)) eqn:Enull.
      * apply isNull_true in Enull. rewrite Enull.
        now rewrite lookupPessimistic_Null, lookupLoop_Null.
      * assert (Hnn : childAt n kb <> Null) by (intros E; rewrite E in Enull; discriminate).
        apply (IH kb Hkb Hnn (loadKey v) Hav Hmatch' eq_refl v fuel Hv (agree_refl _ _)).
        lia.
    + assert (Hd' : at_ 0 (loadKey v) (d + pos) <> at_ 0 (prefix h) pos)
        by (apply Hdiff; lia).
      rewrite (lookupInner_mismatch n h (loadKey v) d pos false Hh Hd ltac:(lia)
                 ltac:(unfold maxPrefixLength; lia)
                 ltac:(rewrite length_loadKey; cbn; lia)
                 ltac:(rewrite length_loadKey; cbn; lia) Hd').
      reflexivity.
Qed.

(** ** Inserting a key that is in the tree *)



(** ** Leaf words of 64-bit identifiers *)

Lemma leaf_word_value (tid : Z) :
  0 <= tid < 2 ^ 64 -> Z.shiftr (u64 (Z.lor (Z.shiftl tid 1) 1)) 1 = tid mod 2 ^ 63.
Proof.
  intros H. rewrite lor_shiftl_1. unfold u64. rewrite Z.shiftr_div_pow2 by lia.
  change (2 ^ 1) with 2.
  pose proof (Z.div_mod tid (2 ^ 63) ltac:(lia)) as Hdm.
  pose proof (Z.mod_pos_bound tid (2 ^ 63) ltac:(lia)) as Hr.
  set (q := tid / 2 ^ 63) in *. set (r := tid mod 2 ^ 63) in *.
  assert (E : (2 * tid + 1) mod 2 ^ 64 = 2 * r + 1).
  { symmetry. apply (Z.mod_unique _ _ q); lia. }
  rewrite E. symmetry. apply (Z.div_unique _ _ r 1); lia.
Qed.

(** ** The byte order of keys *)

Lemma loadKey_at_div (x i : Z) :
  0 <= x < 2 ^ 64 -> 0 <= i < 8 ->
  at_ 0 (loadKey x) i = (x / 2 ^ (8 * (7 - i))) mod 256.
Proof.
  intros Hx Hi. rewrite at_loadKey by lia. rewrite u64_small by lia.
  now rewrite Z.shiftr_div_pow2 by lia.
Qed.

Lemma div_byte_step (x i : Z) :
  0 <= x -> 0 <= i < 8 ->
  x / 2 ^ (8 * (7 - i)) =
  x / 2 ^ (8 * (8 - i)) * 256 + (x / 2 ^ (8 * (7 - i))) mod 256.
Proof.
  intros Hx Hi.
  replace (8 * (8 - i)) with (8 * (7 - i) + 8) by lia.
  rewrite Z.pow_add_r by lia. change (2 ^ 8) with 256.
  rewrite <- Z.div_div by lia.
  pose proof (Z.div_mod (x / 2 ^ (8 * (7 - i))) 256 ltac:(lia)). lia.
Qed.

Lemma loadKey_prefix_eq (a b : Z) (p : nat) :
  0 <= a < 2 ^ 64 -> 0 <= b < 2 ^ 64 -> (p <= 8)%nat ->
  agree (loadKey a) (loadKey b) (Z.of_nat p) ->
  a / 2 ^ (8 * (8 - Z.of_nat p)) = b / 2 ^ (8 * (8 - Z.of_nat p)).
Proof.
  intros Ha Hb. induction p as [|p IH]; intros Hp Hag.
  - change (8 * (8 - Z.of_nat 0)) with 64. rewrite !Z.div_small by lia. reflexivity.
  - replace (8 * (8 - Z.of_nat (S p))) with (8 * (7 - Z.of_nat p)) by lia.
    rewrite (div_byte_step a (Z.of_nat p)), (div_byte_step b (Z.of_nat p)) by lia.
    rewrite <- !loadKey_at_div by lia.
    rewrite IH; [|lia|intros i Hi; apply Hag; lia].
    rewrite (Hag (Z.of_nat p)) by lia. reflexivity.
Qed.

Lemma loadKey_first_diff (a b p : Z) :
  0 <= a < 2 ^ 64 -> 0 <= b < 2 ^ 64 -> 0 <= p < 8 ->
  agree (loadKey a) (loadKey b) p ->
  at_ 0 (loadKey a) p < at_ 0 (loadKey b) p -> a < b.
Proof.
  intros Ha Hb Hp Hag Hlt.
  pose proof (loadKey_prefix_eq a b (Z.to_nat p) Ha Hb ltac:(lia)) as Hpre.
  rewrite Z2Nat.id in Hpre by lia. specialize (Hpre Hag).
  rewrite !loadKey_at_div in Hlt by lia.
  pose proof (div_byte_step a p ltac:(lia) Hp) as Ea.
  pose proof (div_byte_step b p ltac:(lia) Hp) as Eb.
  destruct (Z.lt_ge_cases a b) as [|Hge]; [assumption|].
  pose proof (Z.div_le_mono b a (2 ^ (8 * (7 - p))) ltac:(apply Z.pow_pos_nonneg; lia) Hge).
  lia.
Qed.

Lemma key_lt_loadKey (a b : Z) :
  0 <= a < 2 ^ 64 -> 0 <= b < 2 ^ 64 ->
  (a < b <-> key_lt (loadKey a) (loadKey b)).
Proof.
  intros Ha Hb. split.
  - intros Hab.
    destruct (first_index (fun i => negb (at_ 0 (loadKey a) i =? at_ 0 (loadKey b) i)) 0 8)
      as [p|] eqn:E.
    + apply first_index_some in E. destruct E as (Hp & Hd & Hbefore).
      apply negb_true_iff, Z.eqb_neq in Hd.
      assert (Hag : agree (loadKey a) (loadKey b) p).
      { intros i Hi. specialize (Hbefore i ltac:(lia)).
        apply negb_false_iff, Z.eqb_eq in Hbefore. exact Hbefore. }
      exists p. split; [lia|]. split; [exact Hag|].
      destruct (Z.lt_trichotomy (at_ 0 (loadKey a) p) (at_ 0 (loadKey b) p))
        as [Hlt|[Heq|Hgt]]; [assumption|contradiction|].
      pose proof (loadKey_first_diff b a p Hb Ha ltac:(lia) (agree_sym _ _ _ Hag) Hgt). lia.
    + exfalso. assert (a = b); [|lia]. apply loadKey_inj; [lia|lia|].
      intros i Hi. pose proof (first_index_none _ _ _ E i ltac:(lia)) as Hn.
      apply negb_false_iff, Z.eqb_eq in Hn. exact Hn.
  - intros (p & Hp & Hag & Hlt).
    destruct (Z.lt_ge_cases p 8) as [Hp8|Hp8].
    + now apply (loadKey_first_diff a b p).
    + rewrite !at_out in Hlt by (rewrite length_loadKey; lia). lia.
Qed.

Lemma key_le_loadKey (a b : Z) :
  0 <= a < 2 ^ 64 -> 0 <= b < 2 ^ 64 -> key_le (loadKey a) (loadKey b) -> a <= b.
Proof.
  intros Ha Hb [E|Hlt].
  - assert (a = b); [|lia]. apply loadKey_inj; [lia|lia|]. intros i Hi. now rewrite E.
  - apply key_lt_loadKey in Hlt; lia.
Qed.

(** ** The bucket of a NodeLinear *)

Lemma predict_bucketOf (a b : spec_float) (key : list Z) (depth kb : Z) :
  keyAt key depth = Ok kb -> predict a b key depth = bucketOf a b kb.
Proof.
  intros H. unfold predict, bucketOf. rewrite H. cbn [bind].
  destruct (int_of_double (dadd (dmul a (double_of_int kb)) b)) as [z|e]; cbn [bind];
    [|reflexivity].
  f_equal. unfold LINEAR_SIZE.
  destruct (Z.ltb_spec z 0), (Z.leb_spec 10 z); try lia; reflexivity.
Qed.

Lemma bucketOf_range (a b : spec_float) (kb s : Z) :
  bucketOf a b kb = Ok s -> 0 <= s < LINEAR_SIZE.
Proof.
  unfold bucketOf.
  destruct (int_of_double (dadd (dmul a (double_of_int kb)) b)) as [z|e]; cbn [bind];
    [|discriminate].
  intros H. inversion H. unfold LINEAR_SIZE.
  destruct (Z.leb_spec 10 z); [lia|]. destruct (Z.ltb_spec z 0); lia.
Qed.

(** ** The small case of the bulk loader *)

Lemma built_step (t : Node) (tids : list Z) (v : Z) (fuel : nat) :
  built t tids -> 0 <= v < 2 ^ 63 -> ~ In v tids -> (8 <= fuel)%nat ->
  exists t', insert loadKey fuel t (loadKey v) 0 v 8 = Ok t' /\ built t' (v :: tids).
Proof.
  intros Hb Hv Hnin Hfuel.
  destruct (built_inv t tids Hb) as ([->|Hwf] & Hsub).
  - exists (makeLeaf v).
    assert (E : insert loadKey fuel Null (loadKey v) 0 v 8 = Ok (makeLeaf v))
      by (destruct fuel; reflexivity).
    split; [exact E|]. now apply (built_insert Null (makeLeaf v) tids v fuel).
  - destruct (insert_wf 0 [] t Hwf v fuel Hv) as (t' & Hrun & _).
    + apply agree_nil.
    + intros Hc. apply Hnin. now apply Hsub.
    + lia.
    + exists t'. split; [exact Hrun|]. now apply (built_insert t t' tids v fuel).
Qed.

Lemma insertEach_built (fuel : nat) (l : list Z) :
  (8 <= fuel)%nat ->
  forall (t : Node) (acc : list Z),
    built t acc -> NoDup l ->
    (forall x, In x l -> 0 <= x < 2 ^ 63 /\ ~ In x acc) ->
    exists t', insertEach fuel t l 0 = Ok t' /\ built t' (rev l ++ acc).
Proof.
  intros Hfuel. induction l as [|x l IH]; intros t acc Hb Hnd Hl.
  - exists t. split; [reflexivity|exact Hb].
  - inversion Hnd as [|x' l' Hx Hnd']; subst.
    destruct (Hl x (or_introl eq_refl)) as (Hxr & Hxa).
    destruct (built_step t acc x fuel Hb Hxr Hxa Hfuel) as (t1 & Hrun & Hb1).
    destruct (IH t1 (x :: acc) Hb1 Hnd') as (t' & Hrun' & Hb').
    { intros y Hy. destruct (Hl y (or_intror Hy)) as (Hyr & Hya). split; [exact Hyr|].
      intros [E|Hin]; [subst; contradiction|contradiction]. }
    exists t'. cbn [insertEach]. rewrite Hrun. cbn [bind]. split; [exact Hrun'|].
    cbn [rev]. rewrite <- app_assoc. exact Hb'.
Qed.

Lemma insertBulk_small (fuel : nat) (node : Node) (dataset : list Z) (depth : Z) :
  (length dataset <= 8)%nat ->
  insertBulk fuel node dataset depth = insertEach fuel node (tl dataset) depth.
Proof.
  intros Hlen.
  assert (E : insertBulk fuel node dataset depth =
              let n := Z.of_nat (length dataset) in
              if (n <=? 8) && (1 <? n) then insertEach fuel node (tl dataset) depth
              else if n <=? 1 then Ok node else Fail OutOfFuel).
  { destruct fuel; cbn [insertBulk]; cbv zeta;
      destruct (Z.leb_spec (Z.of_nat (length dataset)) 8),
        (Z.ltb_spec 1 (Z.of_nat (length dataset))),
        (Z.leb_spec (Z.of_nat (length dataset)) 1); cbn [andb]; try lia; reflexivity. }
  rewrite E. cbv zeta.
  destruct (Z.leb_spec (Z.of_nat (length dataset)) 8),
    (Z.ltb_spec 1 (Z.of_nat (length dataset))),
    (Z.leb_spec (Z.of_nat (length dataset)) 1); cbn [andb]; try lia; try reflexivity.
  destruct dataset as [|x [|y r]]; cbn [length] in *; try lia; reflexivity.
Qed.

(** ** An empty slot of a NodeLinear *)

Lemma insert_linear_empty (ld : Z -> list Z) (fuel : nat) (h : Header) (child : list Node)
    (a b : spec_float) (key : list Z) (depth value mkl kb s : Z) :
  prefixLength h = 0 -> 0 <= depth < 2 ^ 32 -> keyAt key depth = Ok kb ->
  bucketOf a b kb = Ok s -> at_ Null child s = Null ->
  insert ld (S fuel) (NodeLinear h child a b) key depth value mkl =
  Ok (NodeLinear h child a b).
Proof.
  intros Hp Hd Hk Hs Hnull. cbn [insert header bind]. rewrite Hp. cbn [Z.eqb bind negb andb].
  cbv zeta. rewrite Z.add_0_r, u32_small by lia. rewrite Hk. cbn [bind findChild].
  rewrite Hs. cbn [bind derefSlot]. unfold slotChild. cbn [children]. rewrite Hnull.
  reflexivity.
Qed.

(** ** The tree as a set of identifiers *)

Lemma built_lookup_in (t : Node) (tids : list Z) (v : Z) (fuel : nat) :
  built t tids -> In v tids -> (8 <= fuel)%nat ->
  lookup loadKey fuel t (loadKey v) 8 0 8 = Ok (makeLeaf v).
Proof.
  intros Hb Hin Hfuel. pose proof (built_complete t tids Hb v Hin) as Hc.
  destruct (built_inv t tids Hb) as ([->|Hwf] & _); [now apply contains_Null in Hc|].
  unfold lookup. apply (lookup_wf 0 [] t Hwf v fuel Hc). lia.
Qed.

Lemma built_lookup_out (t : Node) (tids : list Z) (v : Z) (fuel : nat) :
  built t tids -> 0 <= v < 2 ^ 64 -> ~ In v tids -> (8 <= fuel)%nat ->
  lookup loadKey fuel t (loadKey v) 8 0 8 = Ok Null.
Proof.
  intros Hb Hv Hnin Hfuel. unfold lookup.
  destruct (built_inv t tids Hb) as ([->|Hwf] & Hsub); [apply lookupLoop_Null|].
  apply (lookup_absent_wf 0 [] t Hwf v fuel Hv (agree_nil _)); [|lia].
  intros Hc. apply Hnin. now apply Hsub.
Qed.

Lemma built_erase_step (t : Node) (tids : list Z) (v : Z) (fuel : nat) :
  built t tids -> 0 <= v < 2 ^ 63 -> (8 <= fuel)%nat ->
  exists t', erase loadKey fuel t (loadKey v) 8 0 8 = Ok t' /\
             built t' (remove Z.eq_dec v tids).
Proof.
  intros Hb Hv Hfuel.
  destruct (built_inv t tids Hb) as ([->|Hwf] & Hsub).
  - exists Null. split; [apply erase_Null|].
    apply (built_erase Null Null tids v fuel Hb Hv Hfuel). apply erase_Null.
  - destruct (erase_wf 0 [] t Hwf v fuel Hv (agree_nil _) ltac:(lia)) as (t' & Hrun & _).
    exists t'. split; [exact Hrun|]. now apply (built_erase t t' tids v fuel).
Qed.

(** X1.  In a tree built by point inserts and erases, the lookup of the key
    of every identifier that was inserted and not erased since returns the
    leaf of that identifier. *)
Theorem lookup_finds_stored (t : Node) (tids : list Z) (v : Z) (fuel : nat) :
  built t tids -> In v tids -> (8 <= fuel)%nat ->
  lookup loadKey fuel t (loadKey v) 8 0 8 = Ok (makeLeaf v).
Proof. exact (built_lookup_in t tids v fuel). Qed.

(** X2.  In a tree built by point inserts and erases, the lookup of the key
    of any other 64-bit identifier returns null: the optimistic lookup has
    no false positive on such a tree. *)
Theorem lookup_misses_absent (t : Node) (tids : list Z) (v : Z) (fuel : nat) :
  built t tids -> 0 <= v < 2 ^ 64 -> ~ In v tids -> (8 <= fuel)%nat ->
  lookup loadKey fuel t (loadKey v) 8 0 8 = Ok Null.
Proof. exact (built_lookup_out t tids v fuel). Qed.

(** X3.  Erasing a key that is not stored leaves a tree built by point
    inserts and erases exactly as it is: no node is changed or replaced. *)
Theorem erase_absent_is_identity (t : Node) (tids : list Z) (v : Z) (fuel : nat) :
  built t tids -> 0 <= v < 2 ^ 64 -> ~ In v tids -> (8 <= fuel)%nat ->
  erase loadKey fuel t (loadKey v) 8 0 8 = Ok t.
Proof.
  intros Hb Hv Hnin Hfuel.
  destruct (built_inv t tids Hb) as ([->|Hwf] & Hsub); [apply erase_Null|].
  apply (erase_absent_wf 0 [] t Hwf v fuel Hv (agree_nil _)); [|lia].
  intros Hc. apply Hnin. now apply Hsub.
Qed.

(** X4.  On a tree built by point inserts and erases, erase returns; in the
    new tree the erased key is not found and every other stored key is
    still found. *)
Theorem erase_removes_one_id (t : Node) (tids : list Z) (v : Z) (fuel : nat) :
  built t tids -> 0 <= v < 2 ^ 63 -> (8 <= fuel)%nat ->
  exists t',
    erase loadKey fuel t (loadKey v) 8 0 8 = Ok t' /\
    lookup loadKey fuel t' (loadKey v) 8 0 8 = Ok Null /\
    forall u, In u tids -> u <> v ->
              lookup loadKey fuel t' (loadKey u) 8 0 8 = Ok (makeLeaf u).
Proof.
  intros Hb Hv Hfuel.
  destruct (built_erase_step t tids v fuel Hb Hv Hfuel) as (t' & Hrun & Hb').
  exists t'. split; [exact Hrun|]. split.
  - apply (built_lookup_out t' _ v fuel Hb'); [lia| |exact Hfuel]. apply remove_In.
  - intros u Hu Hne. apply (built_lookup_in t' _ u fuel Hb'); [|exact Hfuel].
    now apply in_in_remove.
Qed.

(** X5.  On a tree built by point inserts and erases, inserting a key that
    is not stored and erasing it again gives a tree in which every lookup
    returns what it returned before. *)
Theorem insert_then_erase_keeps_lookups (t : Node) (tids : list Z) (v : Z) (fuel : nat) :
  built t tids -> 0 <= v < 2 ^ 63 -> ~ In v tids -> (8 <= fuel)%nat ->
  exists t1 t2,
    insert loadKey fuel t (loadKey v) 0 v 8 = Ok t1 /\
    erase loadKey fuel t1 (loadKey v) 8 0 8 = Ok t2 /\
    forall u, 0 <= u < 2 ^ 64 ->
              lookup loadKey fuel t2 (loadKey u) 8 0 8 =
              lookup loadKey fuel t (loadKey u) 8 0 8.
Proof.
  intros Hb Hv Hnin Hfuel.
  destruct (built_step t tids v fuel Hb Hv Hnin Hfuel) as (t1 & Hrun1 & Hb1).
  destruct (built_erase_step t1 _ v fuel Hb1 Hv Hfuel) as (t2 & Hrun2 & Hb2).
  exists t1, t2. split; [exact Hrun1|]. split; [exact Hrun2|].
  assert (E : remove Z.eq_dec v (v :: tids) = tids).
  { cbn [remove]. destruct (Z.eq_dec v v); [|contradiction]. now apply notin_remove. }
  rewrite E in Hb2. intros u Hu.
  destruct (in_dec Z.eq_dec u tids) as [Hin|Hout].
  - now rewrite (built_lookup_in t2 tids u fuel Hb2 Hin Hfuel),
      (built_lookup_in t tids u fuel Hb Hin Hfuel).
  - now rewrite (built_lookup_out t2 tids u fuel Hb2 Hu Hout Hfuel),
      (built_lookup_out t tids u fuel Hb Hu Hout Hfuel).
Qed.

(** X6.  The root of a tree built by point inserts and erases is null
    exactly when no identifier is stored: erasing the last key empties
    the root slot. *)
Theorem root_null_iff_empty (t : Node) (tids : list Z) :
  built t tids -> (t = Null <-> tids = []).
Proof.
  intros Hb. split.
  - intros ->. destruct tids as [|x l]; [reflexivity|].
    exfalso. apply (contains_Null x). apply (built_complete Null (x :: l) Hb). now left.
  - intros ->. destruct (built_inv t [] Hb) as ([->|Hwf] & Hsub); [reflexivity|].
    destruct (minimum_wf 0 [] t Hwf 8 ltac:(lia)) as (m & _ & Hc & _).
    destruct (Hsub m Hc).
Qed.

(** ** The nodes of a built tree *)

Lemma nodeInv_count_le (n : Node) (h : Header) :
  nodeInv n -> header n = Ok h -> 0 <= count h <= capacity n.
Proof.
  intros Hinv Hh.
  destruct n as [|w|h0 key child|h0 key child|h0 ci child|h0 child|h0 child fa fb];
    cbn [nodeInv] in Hinv; try contradiction; cbn [header] in Hh;
    inversion Hh; subst h0; cbn [capacity].
  - pose proof (arrInv_count _ _ _ _ _ Hinv). unfold NODE4_SIZE. lia.
  - pose proof (arrInv_count _ _ _ _ _ Hinv). lia.
  - apply (idxInv_count_le _ _ _ Hinv).
  - destruct Hinv as (_ & Hc).
    pose proof (countUpTo_bounds (fun b => negb (isNull (at_ Null child b))) 256) as Hbd.
    rewrite <- Hc in Hbd. lia.
Qed.

(** X7.  Every non-null node of a tree built by point inserts and erases is
    the leaf of a stored identifier or an inner node that is not a
    NodeLinear, whose arrays satisfy the invariant of its type (sorted
    keys, exact count, index and slots in step), whose count lies between
    the least count of its type and its capacity, and whose prefix is
    shorter than the key. *)
Theorem built_nodes_are_well_formed (t : Node) (tids : list Z) (n : Node) :
  built t tids -> subnode n t -> n <> Null ->
  (exists tid, n = makeLeaf tid /\ In tid tids) \/
  (exists h, header n = Ok h /\ nodeInv n /\ isLinear n = false /\
             minCount n <= count h <= capacity n /\
             0 <= prefixLength h < 8 /\ length (prefix h) = 9%nat).
Proof.
  intros Hb Hsub Hn.
  destruct (built_inv t tids Hb) as ([->|Hwf] & Hin).
  - apply subnode_Null in Hsub. contradiction.
  - destruct (wf_subnode n t Hsub Hn 0 [] Hwf) as (d' & ref' & Hd' & Hwf').
    destruct Hwf' as [d ref tid Ht Hd Hk|d ref n h Hh Hs Hd Hp Hlt Hlen Hr Hc].
    + left. exists tid. split; [reflexivity|]. apply Hin.
      apply (subnode_contains _ t tid Hsub). now apply contains_makeLeaf.
    + right. exists h. destruct Hs as (Hinv & Hmin). unfold nodeCount in Hmin.
      rewrite Hh in Hmin. pose proof (nodeInv_count_le n h Hinv Hh).
      split; [exact Hh|]. split; [exact Hinv|]. split; [now apply nodeInv_not_linear|].
      split; [lia|]. split; [lia|exact Hlen].
Qed.

(** ** The other traversals *)

(** X8.  On a tree built by point inserts and erases the pessimistic lookup
    returns what the optimistic lookup returns, for every 8-byte key. *)
Theorem lookupPessimistic_agrees (t : Node) (tids : list Z) (v : Z) (fuel : nat) :
  built t tids -> 0 <= v < 2 ^ 64 -> (8 <= fuel)%nat ->
  lookupPessimistic loadKey fuel t (loadKey v) 8 0 8 =
  lookup loadKey fuel t (loadKey v) 8 0 8.
Proof.
  intros Hb Hv Hfuel. unfold lookup.
  destruct (built_inv t tids Hb) as ([->|Hwf] & _).
  - now rewrite lookupPessimistic_Null, lookupLoop_Null.
  - apply (lookupPessimistic_wf 0 [] t Hwf v fuel Hv (agree_nil _)). lia.
Qed.

(** X9.  In a tree built by point inserts and erases, [maximum] of a
    non-null node returns the leaf with the largest key below it. *)
Theorem maximum_largest_leaf (t : Node) (tids : list Z) (n : Node) (fuel : nat) :
  built t tids -> subnode n t -> n <> Null -> (8 <= fuel)%nat ->
  exists m, maximum fuel n = Ok (makeLeaf m) /\ contains n m /\
            forall u, contains n u -> key_le (loadKey u) (loadKey m).
Proof.
  intros Hb Hsub Hn Hfuel.
  destruct (built_inv t tids Hb) as ([->|Hwf] & _).
  - apply subnode_Null in Hsub. contradiction.
  - destruct (wf_subnode n t Hsub Hn 0 [] Hwf) as (d' & ref' & Hd' & Hwf').
    apply (maximum_wf d' ref' n Hwf'). lia.
Qed.

(** X10.  On a non-empty tree built by point inserts and erases, [minimum]
    and [maximum] of the root return the leaves of the numerically
    smallest and largest stored identifiers. *)
Theorem minimum_maximum_of_tree (t : Node) (tids : list Z) (fuel : nat) :
  built t tids -> tids <> [] -> (8 <= fuel)%nat ->
  exists lo hi,
    minimum fuel t = Ok (makeLeaf lo) /\ maximum fuel t = Ok (makeLeaf hi) /\
    In lo tids /\ In hi tids /\ forall u, In u tids -> lo <= u <= hi.
Proof.
  intros Hb Hne Hfuel.
  destruct (built_inv t tids Hb) as ([->|Hwf] & Hin).
  - exfalso. apply Hne. destruct tids as [|x l]; [reflexivity|].
    exfalso. apply (contains_Null x). apply (built_complete Null (x :: l) Hb). now left.
  - destruct (minimum_wf 0 [] t Hwf fuel ltac:(lia)) as (lo & Hlo & Hclo & Hmin).
    destruct (maximum_wf 0 [] t Hwf fuel ltac:(lia)) as (hi & Hhi & Hchi & Hmax).
    exists lo, hi. split; [exact Hlo|]. split; [exact Hhi|].
    split; [now apply Hin|]. split; [now apply Hin|].
    intros u Hu. pose proof (built_complete t tids Hb u Hu) as Hcu.
    pose proof (built_range t tids Hb u Hu) as Hur.
    pose proof (built_range t tids Hb lo (Hin lo Hclo)) as Hlr.
    pose proof (built_range t tids Hb hi (Hin hi Hchi)) as Hhr.
    split.
    + apply key_le_loadKey; [lia|lia|]. now apply Hmin.
    + apply key_le_loadKey; [lia|lia|]. now apply Hmax.
Qed.

(** ** Keys, leaves and bytes *)

(** X11.  [loadKey] writes eight bytes, each below 256, and the
    lexicographic order of the keys of two 64-bit identifiers is the
    numeric order of the identifiers; equal keys mean equal identifiers. *)
Theorem loadKey_preserves_order (a b : Z) :
  0 <= a < 2 ^ 64 -> 0 <= b < 2 ^ 64 ->
  length (loadKey a) = 8%nat /\
  (forall i, 0 <= i < 8 -> 0 <= at_ 0 (loadKey a) i < 256) /\
  (a < b <-> key_lt (loadKey a) (loadKey b)) /\
  (loadKey a = loadKey b -> a = b).
Proof.
  intros Ha Hb. split; [apply length_loadKey|]. split; [intros i Hi; now apply loadKey_byte|].
  split; [now apply key_lt_loadKey|].
  intros E. apply loadKey_inj; [lia|lia|]. intros i Hi. now rewrite E.
Qed.

(** X12.  [makeLeaf] of a 64-bit identifier is a leaf, and [getLeafValue]
    gives the identifier back without its most significant bit; an
    identifier below 2^63 is given back unchanged. *)
Theorem getLeafValue_makeLeaf_low_bits (tid : Z) :
  0 <= tid < 2 ^ 64 ->
  isLeaf (makeLeaf tid) = true /\
  getLeafValue (makeLeaf tid) = Ok (tid mod 2 ^ 63) /\
  (tid < 2 ^ 63 -> getLeafValue (makeLeaf tid) = Ok tid).
Proof.
  intros H. split; [reflexivity|]. split.
  - unfold makeLeaf, getLeafValue. f_equal. now apply leaf_word_value.
  - intros Hlt. apply getLeafValue_makeLeaf. lia.
Qed.

(** X13.  The SSE2 search of [findChild] in a Node16 (compare with the
    flipped byte, mask to [count] lanes, count trailing zeros) returns the
    first of the first [count] slots whose stored key is the flipped byte,
    and the sentinel when there is none. *)
Theorem findChild_Node16_first_match (h : Header) (key : list Z) (child : list Node)
    (b : Z) :
  0 <= count h <= 16 ->
  findChild (Node16 h key child) b =
  Ok (first_index (fun i => flipSign (at_ 0 key i) =? b) 0 (Z.to_nat (count h))).
Proof. exact (findChild_Node16 h key child b). Qed.

(** X14.  [flipSign] is an involution on bytes, and it turns the unsigned
    order of bytes into the signed order of the flipped bytes, which is
    what the signed SSE2 comparison of Node16 relies on. *)
Theorem flipSign_orders_bytes (a b : Z) :
  0 <= a < 256 -> 0 <= b < 256 ->
  0 <= flipSign a < 256 /\ flipSign (flipSign a) = a /\
  (a < b <-> int8 (flipSign a) < int8 (flipSign b)).
Proof.
  intros Ha Hb. split; [now apply flipSign_range|]. split; [apply flipSign_invol|].
  rewrite !int8_flipSign by lia. lia.
Qed.

(** X15.  On every non-zero 16-bit word the portable branch of [ctz]
    returns what the builtin returns: the index of the lowest set bit. *)
Theorem ctz_portable_agrees (x : Z) :
  0 < x < 65536 ->
  ctz_portable x = ctz x /\ 0 <= ctz x < 16 /\ Z.testbit x (ctz x) = true /\
  forall i, 0 <= i < ctz x -> Z.testbit x i = false.
Proof.
  intros Hx.
  assert (Hall : first_index
                   (fun x => negb ((ctz_portable x =? ctz x) && (ctz x <? 16)))
                   1 (Z.to_nat 65535) = None) by (vm_compute; reflexivity).
  pose proof (first_index_none _ _ _ Hall x ltac:(lia)) as H.
  apply negb_false_iff, andb_true_iff in H. destruct H as (H1 & H2).
  apply Z.eqb_eq in H1. apply Z.ltb_lt in H2. split; [exact H1|].
  unfold ctz in *.
  destruct (first_index (fun i => Z.testbit x i) 0 16) as [i|] eqn:E; [|lia].
  apply first_index_some in E. destruct E as (Hi & Ht & Hbefore).
  split; [lia|]. split; [exact Ht|]. intros j Hj. apply Hbefore. lia.
Qed.

(** X16.  [predict] of the bulk loader and the NodeLinear case of
    [findChild] choose the same slot for a key byte, and the slot is one
    of the [LINEAR_SIZE] slots of the node. *)
Theorem predict_is_findChild_slot (h : Header) (child : list Node) (a b : spec_float)
    (key : list Z) (depth kb s : Z) :
  keyAt key depth = Ok kb -> predict a b key depth = Ok s ->
  0 <= s < LINEAR_SIZE /\ findChild (NodeLinear h child a b) kb = Ok (Some s).
Proof.
  intros Hk Hp. rewrite (predict_bucketOf a b key depth kb Hk) in Hp.
  split; [now apply (bucketOf_range a b kb)|]. cbn [findChild]. now rewrite Hp.
Qed.

(** X17.  [leafMatches] accepts any node when the depth is the key length;
    below the key length it loads the key of the leaf and returns whether
    it has the bytes of the searched key from the depth to the key
    length. *)
Theorem leafMatches_compares_from_depth (ld : Z -> list Z) (w : Z) (key : list Z)
    (keyLength depth maxKeyLength : Z) :
  0 <= depth <= keyLength -> keyLength <= Z.of_nat (length key) ->
  keyLength <= Z.of_nat (length (ld (Z.shiftr w 1))) ->
  Z.of_nat (length (ld (Z.shiftr w 1))) <= maxKeyLength ->
  (forall node, leafMatches ld node key keyLength keyLength maxKeyLength = Ok true) /\
  exists r, leafMatches ld (Leaf w) key keyLength depth maxKeyLength = Ok r /\
            (r = true <->
             forall i, depth <= i < keyLength ->
                       at_ 0 (ld (Z.shiftr w 1)) i = at_ 0 key i).
Proof.
  intros Hd Hk Hl Hm. split.
  - intros node. unfold leafMatches. now rewrite Z.eqb_refl.
  - unfold leafMatches. destruct (Z.eqb_spec depth keyLength) as [E|E].
    + exists true. split; [reflexivity|]. split; [intros _ i Hi; lia|reflexivity].
    + cbn [getLeafValue bind]. unfold loadKeyBuf.
      destruct (Z.ltb_spec maxKeyLength (Z.of_nat (length (ld (Z.shiftr w 1))))); [lia|].
      cbn [bind].
      destruct (keysEqualFrom_spec (ld (Z.shiftr w 1)) key (Z.to_nat (keyLength - depth)) depth)
        as (r & Hrun & Hspec).
      { intros j Hj. lia. }
      exists r. split; [exact Hrun|].
      rewrite Hspec. split; intros Hall i Hi; apply Hall; lia.
Qed.

(** ** The bulk loader on few keys *)

(** X18.  Bulk-inserting at most eight distinct identifiers into an empty
    root returns a tree that holds all of them but the first: every
    element after the first is found, and no other key is, the first
    element included. *)
Theorem insertBulk_small_drops_first (fuel : nat) (dataset : list Z) :
  (length dataset <= 8)%nat -> NoDup dataset ->
  (forall x, In x dataset -> 0 <= x < 2 ^ 63) -> (8 <= fuel)%nat ->
  exists t,
    insertBulk fuel Null dataset 0 = Ok t /\
    (forall v, In v (tl dataset) ->
               lookup loadKey fuel t (loadKey v) 8 0 8 = Ok (makeLeaf v)) /\
    (forall v, 0 <= v < 2 ^ 64 -> ~ In v (tl dataset) ->
               lookup loadKey fuel t (loadKey v) 8 0 8 = Ok Null).
Proof.
  intros Hlen Hnd Hr Hfuel. rewrite (insertBulk_small fuel Null dataset 0 Hlen).
  assert (Hnd' : NoDup (tl dataset)).
  { destruct dataset as [|x l]; [constructor|]. now inversion Hnd. }
  destruct (insertEach_built fuel (tl dataset) Hfuel Null [] built_empty Hnd')
    as (t & Hrun & Hb).
  { intros x Hx. split; [|intros []]. apply Hr.
    destruct dataset as [|y l]; [destruct Hx|now right]. }
  rewrite app_nil_r in Hb.
  exists t. split; [exact Hrun|]. split.
  - intros v Hv. apply (built_lookup_in t _ v fuel Hb); [|exact Hfuel].
    now apply -> in_rev.
  - intros v Hv Hnin. apply (built_lookup_out t _ v fuel Hb Hv); [|exact Hfuel].
    intros Hin. apply Hnin. now apply in_rev.
Qed.

(** ** Inserts that do not insert *)


(** X20.  A point insert whose key falls into an empty slot of a NodeLinear
    without prefix leaves the node as it is, and the key is not found
    afterwards: the switch of [insert] has no case for NodeLinear. *)
Theorem insert_into_empty_linear_slot_is_lost (ld : Z -> list Z) (fuel : nat)
    (h : Header) (child : list Node) (a b : spec_float) (key : list Z)
    (depth value keyLength mkl kb s : Z) :
  prefixLength h = 0 -> 0 <= depth < 2 ^ 32 -> keyAt key depth = Ok kb ->
  bucketOf a b kb = Ok s -> at_ Null child s = Null ->
  insert ld (S fuel) (NodeLinear h child a b) key depth value mkl =
    Ok (NodeLinear h child a b) /\
  lookup ld (S fuel) (NodeLinear h child a b) key keyLength depth mkl = Ok Null.
Proof.
  intros Hp Hd Hk Hs Hnull. split.
  - now apply (insert_linear_empty ld fuel h child a b key depth value mkl kb s).
  - unfold lookup. cbn [lookupLoop]. unfold lookupInner. cbn [header bind].
    rewrite Hp. cbn [Z.eqb bind]. rewrite Hk. cbn [bind findChild]. rewrite Hs.
    cbn [bind derefSlot isLinear]. unfold slotChild. cbn [children]. rewrite Hnull.
    apply lookupLoop_Null.
Qed.

Lemma Ok_inj {A : Type} (x y : A) : Ok x = Ok y -> x = y.
Proof. intros H. now injection H. Qed.

(** X21.  The switch of [insert] adds one to the count, keeps the node type
    while the count is below the capacity of the type, and moves a full
    Node4 to a Node16, a full Node16 to a Node48 and a Node48 with
    [NODE48_SIZE] = 24 children to a Node256. *)
Theorem insertIntoNode_grows_when_full (n : Node) (h : Header) (b : Z) (c n' : Node) :
  header n = Ok h -> isLinear n = false -> 0 <= count h <= capacity n ->
  count h < 256 -> insertIntoNode n b c = Ok n' ->
  nodeCount n' = count h + 1 /\
  nodeType n' =
    (if count h <? capacity n then nodeType n else option_map Z.succ (nodeType n)).
Proof.
  intros Hh Hlin Hcnt H256 Hrun.
  destruct n as [|w|h0 key child|h0 key child|h0 ci child|h0 child|h0 child fa fb];
    cbn [header] in Hh; try discriminate; apply Ok_inj in Hh; subst h0;
    cbn [isLinear] in Hlin; try discriminate;
    cbn [capacity nodeType option_map] in *; cbn [insertIntoNode] in Hrun.
  - unfold insertNode4, NODE4_SIZE in *.
    destruct (Z.ltb_spec (count h) 4).
    + apply Ok_inj in Hrun. rewrite <- Hrun. unfold nodeCount. cbn [header count nodeType].
      rewrite u16_small by lia. auto.
    + unfold insertNode16 in Hrun. cbn [count copyPrefix] in Hrun.
      change (4 <? 16) with true in Hrun. cbv iota zeta in Hrun.
      apply Ok_inj in Hrun. rewrite <- Hrun. unfold nodeCount. cbn [header count nodeType].
      split; [|reflexivity]. rewrite u16_small by lia. lia.
  - unfold insertNode16 in Hrun.
    destruct (Z.ltb_spec (count h) 16).
    + cbv zeta in Hrun. apply Ok_inj in Hrun. rewrite <- Hrun. unfold nodeCount.
      cbn [header count nodeType]. rewrite u16_small by lia. auto.
    + unfold insertNode48 in Hrun. cbn [count copyPrefix] in Hrun. cbv zeta in Hrun.
      unfold NODE48_SIZE in Hrun.
      destruct (Z.ltb_spec (count h) 24); [|lia].
      match type of Hrun with
      | (pos <- ?e ;; _) = _ => destruct e as [pos|e0]; cbn [bind] in Hrun;
                                [|discriminate]
      end.
      apply Ok_inj in Hrun. rewrite <- Hrun. unfold nodeCount. cbn [header count nodeType].
      rewrite u16_small by lia. auto.
  - unfold insertNode48, NODE48_SIZE in *.
    destruct (Z.ltb_spec (count h) 24).
    + match type of Hrun with
      | (pos <- ?e ;; _) = _ => destruct e as [pos|e0]; cbn [bind] in Hrun;
                                [|discriminate]
      end.
      apply Ok_inj in Hrun. rewrite <- Hrun. unfold nodeCount. cbn [header count nodeType].
      rewrite u16_small by lia. auto.
    + cbv zeta in Hrun. apply Ok_inj in Hrun. rewrite <- Hrun.
      unfold insertNode256, nodeCount.
      cbn [header count copyPrefix nodeType]. rewrite u16_small by lia. auto.
  - destruct (Z.ltb_spec (count h) 256); [|lia].
    apply Ok_inj in Hrun. rewrite <- Hrun. unfold insertNode256, nodeCount.
    cbn [header count nodeType]. rewrite u16_small by lia. auto.
Qed.

(** ** Evaluations of the code at concrete inputs *)

(** Split conjunctions only: [split] on an equation would compare the two
    sides by lazy conversion. *)
Ltac conjs := repeat match goal with |- _ /\ _ => split end.
Ltac run := vm_compute; reflexivity.

(** C2.  Bulk-inserting the two identifiers 1 and 2 into an empty root
    leaves a tree that holds 2 only: the small case point-inserts the
    elements from index 1 on, so the lookup of 1 finds nothing, while
    point-inserting 1 and 2 gives a tree in which both are found. *)
Theorem insertBulk_small_skips_first :
  insertBulk 20 Null [1; 2] 0 = Ok (makeLeaf 2) /\
  lookupTid (makeLeaf 2) 1 = Ok Null /\
  lookupTid (makeLeaf 2) 2 = Ok (makeLeaf 2) /\
  lookupTid (orNull (insertTids Null [1; 2])) 1 = Ok (makeLeaf 1) /\
  lookupTid (orNull (insertTids Null [1; 2])) 2 = Ok (makeLeaf 2).
Proof. cbv zeta. conjs; run. Qed.

(** C3.  In the tree made by bulk-loading [bulkData4] and point-inserting
    the key [0 0 0 0 201 200 1 0], inserting the key [0 0 0 0 200 1 1 0],
    erasing it and looking it up returns the leaf of the other key. *)
Theorem insert_erase_lookup_after_bulk :
  let L := tidOfBytes 201 200 1 0 in
  let k := tidOfBytes 200 1 1 0 in
  exists t1 t2 t3,
    bulkLoad bulkData4 = Ok bulkTree4 /\
    insertTid bulkTree4 L = Ok t1 /\
    insertTid t1 k = Ok t2 /\
    eraseTid t2 k = Ok t3 /\
    lookupTid t3 k = Ok (makeLeaf L) /\
    makeLeaf L <> Null /\ k <> L /\ ~ In k bulkData4.
Proof.
  intros L k.
  exists (orNull (insertTid bulkTree4 L)).
  exists (orNull (insertTid (orNull (insertTid bulkTree4 L)) k)).
  exists (orNull (eraseTid (orNull (insertTid (orNull (insertTid bulkTree4 L)) k)) k)).
  conjs; try run; try discriminate.
  vm_compute. intuition discriminate.
Qed.

(** C4.  In the tree bulk-loaded from [bulkData], erasing the absent
    identifier 201 removes the leaf of 200. *)
Theorem erase_absent_after_bulk :
  exists t,
    bulkLoad bulkData = Ok bulkTree /\
    ~ In 201 bulkData /\
    lookupTid bulkTree 201 = Ok Null /\
    lookupTid bulkTree 200 = Ok (makeLeaf 200) /\
    eraseTid bulkTree 201 = Ok t /\
    t <> bulkTree /\
    lookupTid t 200 = Ok Null.
Proof.
  exists (orNull (eraseTid bulkTree 201)).
  conjs; try run.
  - vm_compute. intuition discriminate.
  - intros E. apply (f_equal (fun t => isNull (slotChild t 0))) in E.
    vm_compute in E. discriminate.
Qed.

(** C5.  A Node256 built by inserting 1..37 stays a Node256 when an erase
    brings its count to 36; going on, it is still a Node256 at count 19 and
    becomes a Node48 when the count reaches 18. *)
Theorem eraseNode256_shrinks_at_18 :
  let t37 := orNull (insertTids Null (map Z.of_nat (seq 1 37))) in
  let t36 := orNull (eraseTid t37 37) in
  let t19 := orNull (eraseTids t36 (map Z.of_nat (seq 20 17))) in
  let t18 := orNull (eraseTid t19 19) in
  (nodeType t37, nodeCount t37) = (Some 3, 37) /\
  eraseTid t37 37 = Ok t36 /\
  (nodeType t36, nodeCount t36) = (Some 3, 36) /\
  (nodeType t19, nodeCount t19) = (Some 3, 19) /\
  eraseTid t19 19 = Ok t18 /\
  (nodeType t18, nodeCount t18) = (Some 2, 18) /\
  NODE48_SIZE * 3 / 4 = 18.
Proof. cbv zeta. conjs; run. Qed.

(** C7.  In the tree bulk-loaded from [bulkData] the root is a NodeLinear
    whose slot 0 holds the leaf of 200; erasing the identifier 201 empties
    that slot. *)
Theorem erase_empties_linear_slot :
  exists t,
    bulkLoad bulkData = Ok bulkTree /\
    isLinear bulkTree = true /\
    slotChild bulkTree 0 = makeLeaf 200 /\
    eraseTid bulkTree 201 = Ok t /\
    isLinear t = true /\
    slotChild t 0 = Null.
Proof.
  exists (orNull (eraseTid bulkTree 201)).
  conjs; run.
Qed.

(** The claim C6 at a prefix length equal to the cap: the stored prefix
    differs from the key, yet no byte is compared, the flag is set, and the
    leaf is returned without a check. *)
Lemma lookup_at_cap_not_compared :
  prefixLength (mkHeader 9 1 [1; 0; 0; 0; 0; 0; 0; 0; 0]) <= maxPrefixLength /\
  at_ 0 capKey 0 <> at_ 0 [1; 0; 0; 0; 0; 0; 0; 0; 0] 0 /\
  lookupInner capNode capKey 0 false = Ok (Continue (Leaf 3) 10 true) /\
  lookup loadKey 5 capNode capKey 10 0 10 = Ok (Leaf 3).
Proof. conjs; try run; vm_compute; discriminate. Qed.

(** The claim C8 at a NodeLinear: [minimum] has no case for it. *)
Lemma minimum_of_linear_node :
  bulkLoad bulkData = Ok bulkTree /\
  isLinear bulkTree = true /\
  forall fuel, minimum fuel bulkTree = Fail Unreachable.
Proof.
  conjs; try run.
  intros fuel. destruct fuel; run.
Qed.

(** ** The function-level statements at concrete inputs *)

Lemma prefixMismatch_first_divergence_witness :
  exists pos,
    prefixMismatch loadKey16 5 longNode (loadKey16 7) 0 16 = Ok pos /\
    0 <= pos <= 11 /\
    (forall i, 0 <= i < pos ->
       at_ 0 (loadKey16 7) (0 + i) =
       truePrefixAt loadKey16 5 longNode (mkHeader 11 2 (repeat 0 9)) 0 i) /\
    (pos < 11 ->
       at_ 0 (loadKey16 7) (0 + pos) <>
       truePrefixAt loadKey16 5 longNode (mkHeader 11 2 (repeat 0 9)) 0 pos).
Proof.
  apply (prefixMismatch_first_divergence loadKey16 5 longNode
           (mkHeader 11 2 (repeat 0 9)) (loadKey16 7) 0 16).
  - reflexivity.
  - lia.
  - simpl. lia.
  - simpl. lia.
  - simpl. lia.
  - intros _. exists 15. split; [reflexivity|]. simpl. lia.
Defined.

Lemma insert_at_leaf_defined_iff_witness :
  ((exists t, insert loadKey 1 (makeLeaf 1) (loadKey 2) 0 2 8 = Ok t) <->
   (exists p, 0 <= p /\
              p < Z.of_nat (length (loadKey (Z.shiftr 3 1))) /\
              p < Z.of_nat (length (loadKey 2)) /\
              at_ 0 (loadKey (Z.shiftr 3 1)) p <> at_ 0 (loadKey 2) p)) /\
  ((forall p, 0 <= p -> p < Z.of_nat (length (loadKey (Z.shiftr 3 1))) ->
              p < Z.of_nat (length (loadKey 2)) ->
              at_ 0 (loadKey (Z.shiftr 3 1)) p = at_ 0 (loadKey 2) p) ->
   insert loadKey 1 (makeLeaf 1) (loadKey 2) 0 2 8 = Fail OutOfBounds).
Proof.
  apply (insert_at_leaf_defined_iff loadKey 1 3 (loadKey 2) 0 2 8).
  - lia.
  - simpl. lia.
  - simpl. lia.
Defined.

Lemma lookup_prefix_policy_witness :
  lookupInner capNode capKey 0 false = descend capNode capKey (0 + 9) true /\
  lookupLeaf loadKey (makeLeaf 7) (loadKey 7) 8 3 8 false = Ok (makeLeaf 7).
Proof.
  split.
  - apply (proj1 (lookup_prefix_policy loadKey) capNode
             (mkHeader 9 1 [1; 0; 0; 0; 0; 0; 0; 0; 0]) capKey 0 false).
    + reflexivity.
    + lia.
    + simpl. lia.
    + simpl. lia.
    + simpl. lia.
    + unfold maxPrefixLength. simpl. lia.
  - apply (proj2 (lookup_prefix_policy loadKey) 15 (loadKey 7) 8 3 8 false).
    + lia.
    + simpl. lia.
    + simpl. lia.
    + simpl. lia.
    + discriminate.
    + intros i Hi. reflexivity.
Defined.

Lemma built_twoLeaves : built twoLeaves [2; 1].
Proof.
  apply (built_insert (makeLeaf 1) twoLeaves [1] 2 8).
  - apply (built_insert Null (makeLeaf 1) [] 1 8).
    + exact built_empty.
    + lia.
    + intros [].
    + lia.
    + reflexivity.
  - lia.
  - intros [E|[]]. discriminate E.
  - lia.
  - vm_compute. reflexivity.
Defined.

Lemma lookup_after_insert_witness :
  exists t',
    insert loadKey 8 twoLeaves (loadKey 3) 0 3 8 = Ok t' /\
    lookup loadKey 8 t' (loadKey 3) 8 0 8 = Ok (makeLeaf 3).
Proof.
  apply (lookup_after_insert twoLeaves [2; 1] 3 8).
  - exact built_twoLeaves.
  - lia.
  - intros [E|[E|[]]]; discriminate E.
  - lia.
Defined.

Lemma minimum_smallest_leaf_witness :
  (exists m, minimum 8 twoLeaves = Ok (makeLeaf m) /\ contains twoLeaves m /\
             forall u, contains twoLeaves u -> key_le (loadKey m) (loadKey u)) /\
  (forall w, minimum 8 (Leaf w) = Ok (Leaf w)) /\
  (forall h key child,
     minimum 9 (Node4 h key child) = minimum 8 (at_ Null child 0) /\
     minimum 9 (Node16 h key child) = minimum 8 (at_ Null child 0)) /\
  (forall h childIndex child pos,
     first_index (fun p => negb (at_ 0 childIndex p =? emptyMarker)) 0 256 = Some pos ->
     minimum 9 (Node48 h childIndex child) =
     minimum 8 (at_ Null child (at_ 0 childIndex pos))) /\
  (forall h child pos,
     first_index (fun p => negb (isNull (at_ Null child p))) 0 256 = Some pos ->
     minimum 9 (Node256 h child) = minimum 8 (at_ Null child pos)).
Proof.
  apply (minimum_smallest_leaf twoLeaves [2; 1] twoLeaves 8).
  - exact built_twoLeaves.
  - apply subnode_refl.
  - discriminate.
  - lia.
Defined.

Lemma lookup_finds_stored_witness :
  lookup loadKey 8 twoLeaves (loadKey 1) 8 0 8 = Ok (makeLeaf 1).
Proof.
  apply (lookup_finds_stored twoLeaves [2; 1] 1 8).
  - exact built_twoLeaves.
  - right. left. reflexivity.
  - lia.
Defined.

Lemma lookup_misses_absent_witness :
  lookup loadKey 8 twoLeaves (loadKey 3) 8 0 8 = Ok Null.
Proof.
  apply (lookup_misses_absent twoLeaves [2; 1] 3 8).
  - exact built_twoLeaves.
  - lia.
  - intros [E|[E|[]]]; discriminate E.
  - lia.
Defined.

Lemma erase_absent_is_identity_witness :
  erase loadKey 8 twoLeaves (loadKey 3) 8 0 8 = Ok twoLeaves.
Proof.
  apply (erase_absent_is_identity twoLeaves [2; 1] 3 8).
  - exact built_twoLeaves.
  - lia.
  - intros [E|[E|[]]]; discriminate E.
  - lia.
Defined.

Lemma erase_removes_one_id_witness :
  exists t',
    erase loadKey 8 twoLeaves (loadKey 1) 8 0 8 = Ok t' /\
    lookup loadKey 8 t' (loadKey 1) 8 0 8 = Ok Null /\
    forall u, In u [2; 1] -> u <> 1 ->
              lookup loadKey 8 t' (loadKey u) 8 0 8 = Ok (makeLeaf u).
Proof.
  apply (erase_removes_one_id twoLeaves [2; 1] 1 8).
  - exact built_twoLeaves.
  - lia.
  - lia.
Defined.

Lemma insert_then_erase_keeps_lookups_witness :
  exists t1 t2,
    insert loadKey 8 twoLeaves (loadKey 3) 0 3 8 = Ok t1 /\
    erase loadKey 8 t1 (loadKey 3) 8 0 8 = Ok t2 /\
    forall u, 0 <= u < 2 ^ 64 ->
              lookup loadKey 8 t2 (loadKey u) 8 0 8 =
              lookup loadKey 8 twoLeaves (loadKey u) 8 0 8.
Proof.
  apply (insert_then_erase_keeps_lookups twoLeaves [2; 1] 3 8).
  - exact built_twoLeaves.
  - lia.
  - intros [E|[E|[]]]; discriminate E.
  - lia.
Defined.

Lemma root_null_iff_empty_witness : twoLeaves = Null <-> [2; 1] = [].
Proof. apply (root_null_iff_empty twoLeaves [2; 1]). exact built_twoLeaves. Defined.

Lemma built_nodes_are_well_formed_witness :
  (exists tid, twoLeaves = makeLeaf tid /\ In tid [2; 1]) \/
  (exists h, header twoLeaves = Ok h /\ nodeInv twoLeaves /\ isLinear twoLeaves = false /\
             minCount twoLeaves <= count h <= capacity twoLeaves /\
             0 <= prefixLength h < 8 /\ length (prefix h) = 9%nat).
Proof.
  apply (built_nodes_are_well_formed twoLeaves [2; 1] twoLeaves).
  - exact built_twoLeaves.
  - apply subnode_refl.
  - discriminate.
Defined.

Lemma lookupPessimistic_agrees_witness :
  lookupPessimistic loadKey 8 twoLeaves (loadKey 2) 8 0 8 =
  lookup loadKey 8 twoLeaves (loadKey 2) 8 0 8.
Proof.
  apply (lookupPessimistic_agrees twoLeaves [2; 1] 2 8).
  - exact built_twoLeaves.
  - lia.
  - lia.
Defined.

Lemma maximum_largest_leaf_witness :
  exists m, maximum 8 twoLeaves = Ok (makeLeaf m) /\ contains twoLeaves m /\
            forall u, contains twoLeaves u -> key_le (loadKey u) (loadKey m).
Proof.
  apply (maximum_largest_leaf twoLeaves [2; 1] twoLeaves 8).
  - exact built_twoLeaves.
  - apply subnode_refl.
  - discriminate.
  - lia.
Defined.

Lemma minimum_maximum_of_tree_witness :
  exists lo hi,
    minimum 8 twoLeaves = Ok (makeLeaf lo) /\ maximum 8 twoLeaves = Ok (makeLeaf hi) /\
    In lo [2; 1] /\ In hi [2; 1] /\ forall u, In u [2; 1] -> lo <= u <= hi.
Proof.
  apply (minimum_maximum_of_tree twoLeaves [2; 1] 8).
  - exact built_twoLeaves.
  - discriminate.
  - lia.
Defined.

Lemma loadKey_preserves_order_witness :
  length (loadKey 258) = 8%nat /\
  (forall i, 0 <= i < 8 -> 0 <= at_ 0 (loadKey 258) i < 256) /\
  (258 < 513 <-> key_lt (loadKey 258) (loadKey 513)) /\
  (loadKey 258 = loadKey 513 -> 258 = 513).
Proof. apply (loadKey_preserves_order 258 513); lia. Defined.

Lemma getLeafValue_makeLeaf_low_bits_witness :
  isLeaf (makeLeaf (2 ^ 63 + 5)) = true /\
  getLeafValue (makeLeaf (2 ^ 63 + 5)) = Ok ((2 ^ 63 + 5) mod 2 ^ 63) /\
  (2 ^ 63 + 5 < 2 ^ 63 -> getLeafValue (makeLeaf (2 ^ 63 + 5)) = Ok (2 ^ 63 + 5)).
Proof. apply (getLeafValue_makeLeaf_low_bits (2 ^ 63 + 5)). lia. Defined.

Lemma findChild_Node16_first_match_witness :
  findChild (Node16 (mkHeader 0 3 (repeat 0 9))
               (map flipSign [1; 5; 200; 0; 0; 0; 0; 0; 0; 0; 0; 0; 0; 0; 0; 0])
               (repeat Null 16)) 200 =
  Ok (first_index
        (fun i => flipSign (at_ 0 (map flipSign [1; 5; 200; 0; 0; 0; 0; 0; 0; 0; 0; 0; 0; 0; 0; 0]) i)
                  =? 200)
        0 (Z.to_nat (count (mkHeader 0 3 (repeat 0 9))))).
Proof.
  apply (findChild_Node16_first_match (mkHeader 0 3 (repeat 0 9))
           (map flipSign [1; 5; 200; 0; 0; 0; 0; 0; 0; 0; 0; 0; 0; 0; 0; 0])
           (repeat Null 16) 200).
  simpl. lia.
Defined.

Lemma flipSign_orders_bytes_witness :
  0 <= flipSign 100 < 256 /\ flipSign (flipSign 100) = 100 /\
  (100 < 200 <-> int8 (flipSign 100) < int8 (flipSign 200)).
Proof. apply (flipSign_orders_bytes 100 200); lia. Defined.

Lemma ctz_portable_agrees_witness :
  ctz_portable 40 = ctz 40 /\ 0 <= ctz 40 < 16 /\ Z.testbit 40 (ctz 40) = true /\
  forall i, 0 <= i < ctz 40 -> Z.testbit 40 i = false.
Proof. apply (ctz_portable_agrees 40). lia. Defined.

Lemma predict_is_findChild_slot_witness :
  0 <= 0 < LINEAR_SIZE /\
  findChild (NodeLinear newHeader (repeat Null 10) (S754_zero false) (S754_zero false)) 5 =
  Ok (Some 0).
Proof.
  apply (predict_is_findChild_slot newHeader (repeat Null 10) (S754_zero false)
           (S754_zero false) (loadKey 5) 7 5 0).
  - reflexivity.
  - reflexivity.
Defined.

Lemma leafMatches_compares_from_depth_witness :
  (forall node, leafMatches loadKey node (loadKey 7) 8 8 8 = Ok true) /\
  exists r, leafMatches loadKey (Leaf 15) (loadKey 7) 8 3 8 = Ok r /\
            (r = true <->
             forall i, 3 <= i < 8 ->
                       at_ 0 (loadKey (Z.shiftr 15 1)) i = at_ 0 (loadKey 7) i).
Proof.
  apply (leafMatches_compares_from_depth loadKey 15 (loadKey 7) 8 3 8).
  - lia.
  - simpl. lia.
  - simpl. lia.
  - simpl. lia.
Defined.

Lemma insertBulk_small_drops_first_witness :
  exists t,
    insertBulk 8 Null [1; 2; 3] 0 = Ok t /\
    (forall v, In v (tl [1; 2; 3]) ->
               lookup loadKey 8 t (loadKey v) 8 0 8 = Ok (makeLeaf v)) /\
    (forall v, 0 <= v < 2 ^ 64 -> ~ In v (tl [1; 2; 3]) ->
               lookup loadKey 8 t (loadKey v) 8 0 8 = Ok Null).
Proof.
  apply (insertBulk_small_drops_first 8 [1; 2; 3]).
  - simpl. lia.
  - constructor; [intros [E|[E|[]]]; discriminate E|].
    constructor; [intros [E|[]]; discriminate E|].
    constructor; [intros []|]. constructor.
  - intros x [<-|[<-|[<-|[]]]]; lia.
  - lia.
Defined.


Lemma insert_into_empty_linear_slot_is_lost_witness :
  insert loadKey 1 (NodeLinear newHeader (repeat Null 10) (S754_zero false) (S754_zero false))
         (loadKey 5) 0 5 8 =
    Ok (NodeLinear newHeader (repeat Null 10) (S754_zero false) (S754_zero false)) /\
  lookup loadKey 1 (NodeLinear newHeader (repeat Null 10) (S754_zero false) (S754_zero false))
         (loadKey 5) 8 0 8 = Ok Null.
Proof.
  apply (insert_into_empty_linear_slot_is_lost loadKey 0 newHeader (repeat Null 10)
           (S754_zero false) (S754_zero false) (loadKey 5) 0 5 8 8 0 0).
  - reflexivity.
  - lia.
  - reflexivity.
  - reflexivity.
  - reflexivity.
Defined.

Lemma insertIntoNode_grows_when_full_witness :
  nodeCount (orNull (insertIntoNode
                       (Node4 (mkHeader 0 4 (repeat 0 9)) [1; 2; 3; 4]
                              [Leaf 3; Leaf 5; Leaf 7; Leaf 9]) 9 (Leaf 19))) =
    count (mkHeader 0 4 (repeat 0 9)) + 1 /\
  nodeType (orNull (insertIntoNode
                      (Node4 (mkHeader 0 4 (repeat 0 9)) [1; 2; 3; 4]
                             [Leaf 3; Leaf 5; Leaf 7; Leaf 9]) 9 (Leaf 19))) =
    (if count (mkHeader 0 4 (repeat 0 9)) <?
        capacity (Node4 (mkHeader 0 4 (repeat 0 9)) [1; 2; 3; 4]
                        [Leaf 3; Leaf 5; Leaf 7; Leaf 9])
     then nodeType (Node4 (mkHeader 0 4 (repeat 0 9)) [1; 2; 3; 4]
                          [Leaf 3; Leaf 5; Leaf 7; Leaf 9])
     else option_map Z.succ
            (nodeType (Node4 (mkHeader 0 4 (repeat 0 9)) [1; 2; 3; 4]
                             [Leaf 3; Leaf 5; Leaf 7; Leaf 9]))).
Proof.
  apply (insertIntoNode_grows_when_full
           (Node4 (mkHeader 0 4 (repeat 0 9)) [1; 2; 3; 4] [Leaf 3; Leaf 5; Leaf 7; Leaf 9])
           (mkHeader 0 4 (repeat 0 9)) 9 (Leaf 19)).
  - reflexivity.
  - reflexivity.
  - simpl. unfold NODE4_SIZE. lia.
  - simpl. lia.
  - vm_compute. reflexivity.
Defined.
